(** * hok-camp-api: the persistent store and the credential pool

    A shallow embedding of [hok/cache_manager.py] (the SQLite store: TTL
    response cache and pool of security parameters), of
    [hok/camp_security.py] (the security manager that allocates parameters
    and talks to the generator daemon), of [hok/hok_api.py] (the retry
    decorator and the cached request), of [hok/downloader.py] (the verified
    installation of the daemon's executable) and of [hok/client.py] (the
    joins on hero ids), followed by the properties of the specification
    that were checked against them and by further properties of the code. *)

From Stdlib Require Import ZArith QArith Lia.
From stdpp Require Import gmap strings list fin_maps pretty.

Open Scope Z_scope.

(** * hok/cache_manager.py *)

Module cache_manager.

Definition CACHE_TTL_SECONDS : Z := 3000.
Definition PARAM_REUSE_COOLDOWN_SECONDS : Z := 3600.

(** ** Python values used by the store *)

(** [time.time()] returns a float number of seconds.  A reading is modelled
    as a rational: every finite float is one, and the only arithmetic done on
    a reading ([int(...)] and the subtraction of an integer timestamp that is
    then compared with the TTL) is exact on the values a clock produces. *)
Definition py_int (x : Q) : Z := Z.quot (Qnum x) (Z.pos (Qden x)).

(** [a < b] on readings. *)
Definition Qltb (a b : Q) : bool :=
  Qnum a * Z.pos (Qden b) <? Qnum b * Z.pos (Qden a).

(** [bytes] objects: serialised payloads and what is read from a pipe. *)
Definition bytes : Type := list Byte.byte.

(** ** The database file

    [initialize] creates three tables.  [key_value_store] is never read or
    written by the program and is left out.  [api_cache] has [key] as its
    primary key, so it is a finite map; [param_pool] is kept as the list of
    its rows in rowid (insertion) order, the order in which SQLite scans the
    table, with the primary key on [param] as the well-formedness condition
    [unique_params].  SQLite integers are 64-bit; the counters and
    timestamps are modelled as unbounded integers. *)

Record pool_row := {
  param : string;
  use_count : Z;
  last_used_timestamp : Z
}.

Record db := {
  api_cache : gmap string (bytes * Z);
  param_pool : list pool_row
}.

Definition empty_db : db := {| api_cache := ∅; param_pool := [] |}.

Definition with_api_cache (c : gmap string (bytes * Z)) (d : db) : db :=
  {| api_cache := c; param_pool := param_pool d |}.

Definition with_param_pool (p : list pool_row) (d : db) : db :=
  {| api_cache := api_cache d; param_pool := p |}.

(** The primary key of [param_pool]. *)
Definition has_param (p : string) (pool : list pool_row) : bool :=
  existsb (fun r => String.eqb (param r) p) pool.

Fixpoint unique_params (pool : list pool_row) : bool :=
  match pool with
  | [] => true
  | r :: rest => negb (has_param (param r) rest) && unique_params rest
  end.

(** [SELECT * FROM param_pool WHERE param = p]. *)
Definition find_row (p : string) (pool : list pool_row) : option pool_row :=
  List.find (fun r => String.eqb (param r) p) pool.

(** ** Connections and transactions

    Every method opens its own connection.  Statements act on the
    connection's view of the file; [commit] makes the view durable,
    [rollback] throws it away, and closing the connection keeps only what
    was committed.  Failures of SQLite itself (a locked or unwritable file)
    are outside the model. *)

Record connection := {
  committed : db;
  working : db
}.

Definition connect (d : db) : connection := {| committed := d; working := d |}.

Definition execute (stmt : db -> db) (c : connection) : connection :=
  {| committed := committed c; working := stmt (working c) |}.

Definition commit (c : connection) : connection :=
  {| committed := working c; working := working c |}.

Definition rollback (c : connection) : connection :=
  {| committed := committed c; working := committed c |}.

Definition close (c : connection) : db := committed c.

(** [initialize]: [CREATE TABLE IF NOT EXISTS] on a file that may not exist
    yet. *)
Definition initialize (file : option db) : db :=
  match file with
  | Some d => close (commit (connect d))
  | None => close (commit (connect empty_db))
  end.

(** ** The response cache: [get] and [set]

    The cached values are the decoded JSON documents of upstream responses;
    [orjson] is an external library and enters as [dumps] and [loads].
    [py_None] is the value [None], which [get] also returns for a miss. *)

Section api_cache.

Context {V : Type}.
Variable py_None : V.
Variable dumps : V -> bytes.
Variable loads : bytes -> V.

(** [now] is the reading of [time.time()] in the expiry test. *)
Definition get (now : Q) (key : string) (d : db) : V :=
  match api_cache (working (connect d)) !! key with
  | Some (value, timestamp) =>
      if Qltb (now - inject_Z timestamp) (inject_Z CACHE_TTL_SECONDS)
      then loads value
      else py_None
  | None => py_None
  end.

(** [REPLACE INTO api_cache]: [now] is the reading truncated by [int]. *)
Definition set (now : Q) (key : string) (value : V) (d : db) : db :=
  let c := connect d in
  let c := execute (fun d =>
    with_api_cache (<[key := (dumps value, py_int now)]> (api_cache d)) d) c in
  close (commit c).

End api_cache.

(** ** The parameter pool *)

(** One [INSERT OR IGNORE INTO param_pool VALUES (p, 0, 0)]. *)
Definition insert_or_ignore (pool : list pool_row) (p : string) : list pool_row :=
  if has_param p pool then pool
  else pool ++ [{| param := p; use_count := 0; last_used_timestamp := 0 |}].

(** [executemany] runs the insert once per element, in order. *)
Definition add_new_params (params : list string) (d : db) : db :=
  let c := connect d in
  let c := execute (fun d =>
    with_param_pool (fold_left insert_or_ignore params (param_pool d)) d) c in
  close (commit c).

Definition is_fresh (r : pool_row) : bool := use_count r <? 2.

(** [SELECT COUNT( * ) FROM param_pool WHERE use_count < 2]. *)
Definition get_available_param_uses_count (d : db) : Z :=
  Z.of_nat (length (filter (fun r => is_fresh r = true) (param_pool (working (connect d))))).

(** [ORDER BY ... LIMIT 1]: the first row, in scan order, that no other row
    precedes in the ordering [before]. *)
Fixpoint order_by_limit_1 (before : pool_row -> pool_row -> bool)
    (rows : list pool_row) : option pool_row :=
  match rows with
  | [] => None
  | r :: rest =>
      match order_by_limit_1 before rest with
      | Some m => if before m r then Some m else Some r
      | None => Some r
      end
  end.

(** [ORDER BY use_count ASC, last_used_timestamp ASC]. *)
Definition by_use_then_time (a b : pool_row) : bool :=
  (use_count a <? use_count b)
  || ((use_count a =? use_count b) && (last_used_timestamp a <? last_used_timestamp b)).

(** [ORDER BY last_used_timestamp ASC]. *)
Definition by_time (a b : pool_row) : bool :=
  last_used_timestamp a <? last_used_timestamp b.

(** Prio 1: [WHERE use_count < 2]. *)
Definition select_fresh (pool : list pool_row) : option string :=
  param <$> order_by_limit_1 by_use_then_time
              (filter (fun r => is_fresh r = true) pool).

Definition is_cooled (cooldown_time : Z) (r : pool_row) : bool :=
  (2 <=? use_count r) && (last_used_timestamp r <? cooldown_time).

(** Prio 2: [WHERE use_count >= 2 AND last_used_timestamp < cooldown_time]. *)
Definition select_cooled (cooldown_time : Z) (pool : list pool_row) : option string :=
  param <$> order_by_limit_1 by_time
              (filter (fun r => is_cooled cooldown_time r = true) pool).

Definition mark_used (now : Z) (r : pool_row) : pool_row :=
  {| param := param r; use_count := use_count r + 1; last_used_timestamp := now |}.

(** [UPDATE param_pool SET use_count = use_count + 1,
    last_used_timestamp = now WHERE param = p]. *)
Definition update_used (now : Z) (p : string) (pool : list pool_row) : list pool_row :=
  (fun r => if String.eqb (param r) p then mark_used now r else r) <$> pool.

(** [t_cool] is the reading of [time.time()] that computes the cooldown
    limit (taken only when prio 1 finds nothing), [t_upd] the one written by
    the update (taken only when a row was found). *)
Definition get_and_update_available_param (t_cool t_upd : Q) (d : db)
    : option string * db :=
  let c := connect d in
  let row :=
    match select_fresh (param_pool (working c)) with
    | Some p => Some p
    | None =>
        let cooldown_time := py_int t_cool - PARAM_REUSE_COOLDOWN_SECONDS in
        select_cooled cooldown_time (param_pool (working c))
    end in
  match row with
  | Some p =>
      let c := execute (fun d =>
        with_param_pool (update_used (py_int t_upd) p (param_pool d)) d) c in
      (Some p, close (commit c))
  | None => (None, close (rollback c))
  end.

(** ** Vocabulary of the specification *)

(** "Ordered by useCount ascending, then lastUsedAt ascending": [a] comes no
    later than [b]. *)
Definition use_then_time_le (a b : pool_row) : Prop :=
  use_count a < use_count b
  \/ (use_count a = use_count b /\ last_used_timestamp a <= last_used_timestamp b).

(** The number of rows stored for a parameter. *)
Definition count_rows (p : string) (pool : list pool_row) : nat :=
  length (filter (fun r => param r = p) pool).

Definition row (p : string) (uses last_used : Z) : pool_row :=
  {| param := p; use_count := uses; last_used_timestamp := last_used |}.

(** A store whose pool holds the given rows and whose cache is empty. *)
Definition pool_db (rows : list pool_row) : db := with_param_pool rows empty_db.

(** A call to one of the store's methods, and histories of such calls. *)
Inductive store_op (V : Type) :=
| OpGet (now : Q) (key : string)
| OpSet (now : Q) (key : string) (value : V)
| OpAddNewParams (params : list string)
| OpCount
| OpAllocate (t_cool t_upd : Q).
Arguments OpGet {V} now key.
Arguments OpSet {V} now key value.
Arguments OpAddNewParams {V} params.
Arguments OpCount {V}.
Arguments OpAllocate {V} t_cool t_upd.

Definition step {V} (dumps : V -> bytes) (op : store_op V) (d : db) : db :=
  match op with
  | OpGet _ _ => d
  | OpSet now key value => set dumps now key value d
  | OpAddNewParams params => add_new_params params d
  | OpCount => d
  | OpAllocate t_cool t_upd => snd (get_and_update_available_param t_cool t_upd d)
  end.

Definition run {V} (dumps : V -> bytes) (ops : list (store_op V)) (d : db) : db :=
  fold_left (fun d op => step dumps op d) ops d.

(** What every row of a store built by the program satisfies: a use count
    that is not negative, and no timestamp before the first use. *)
Definition row_ok (r : pool_row) : bool :=
  (0 <=? use_count r)
  && ((0 <? use_count r) || (last_used_timestamp r =? 0)).

(** The uses the fresh rows still offer: two for a row never used, one for
    a row used once. *)
Definition remaining_uses (pool : list pool_row) : Z :=
  foldr (fun r n => Z.max 0 (2 - use_count r) + n) 0 pool.

(** Allocations in a row, one per pair of clock readings; the results come
    in call order. *)
Fixpoint allocate_many (clocks : list (Q * Q)) (d : db) : list (option string) * db :=
  match clocks with
  | [] => ([], d)
  | (t_cool, t_upd) :: clocks =>
      let '(r, d1) := get_and_update_available_param t_cool t_upd d in
      let '(rs, d2) := allocate_many clocks d1 in
      (r :: rs, d2)
  end.

Definition is_allocation {V} (op : store_op V) : bool :=
  match op with
  | OpAllocate _ _ => true
  | _ => false
  end.

End cache_manager.

(** * hok/camp_security.py *)

Module camp_security.

Import cache_manager.

(** ** Exceptions

    The classes that the daemon, the pipes and the decoders can raise, with
    the part of Python's class hierarchy that the [except] clauses test.
    Messages are presentation and are not modelled. *)

Inductive exn :=
| Exception
| RuntimeError
| ValueError
| UnicodeError
| UnicodeDecodeError
| JSONDecodeError
| OSError
| ConnectionError
| BrokenPipeError
| ConnectionResetError
| ProcessLookupError
| FileNotFoundError.

#[global] Instance exn_eq_dec : EqDecision exn.
Proof. solve_decision. Defined.

Definition base (c : exn) : option exn :=
  match c with
  | Exception => None
  | RuntimeError | ValueError | OSError => Some Exception
  | UnicodeError | JSONDecodeError => Some ValueError
  | UnicodeDecodeError => Some UnicodeError
  | ConnectionError | ProcessLookupError | FileNotFoundError => Some OSError
  | BrokenPipeError | ConnectionResetError => Some ConnectionError
  end.

Fixpoint subclass_within (depth : nat) (c cls : exn) : bool :=
  bool_decide (c = cls)
  || match depth, base c with
     | S depth, Some b => subclass_within depth b cls
     | _, _ => false
     end.

(** [isinstance(e, cls)]; no class above is more than three bases deep. *)
Definition isinstance (e cls : exn) : bool := subclass_within 3 e cls.

(** [except (cls1, cls2, ...)]. *)
Definition matches (e : exn) (classes : list exn) : bool :=
  existsb (isinstance e) classes.

(** ** State *)

(** An [asyncio.subprocess.Process]; [returncode] is [None] while it runs. *)
Record process := {
  pid : nat;
  returncode : option Z
}.

(** An [asyncio.Task]. *)
Record task := {
  done : bool
}.

Record security_manager := {
  cluster_size : Z;
  pool_target : Z;
  low_water_mark : Z;
  _proc : option process;
  _executable_path : option string;
  _warmup_task : option task;
  _is_warming_up : bool
}.

(** [SecurityManager()] with the default arguments. *)
Definition new_security_manager : security_manager :=
  {| cluster_size := 2; pool_target := 100; low_water_mark := 20;
     _proc := None; _executable_path := None; _warmup_task := None;
     _is_warming_up := false |}.

(** What the program does to the outside, in order.  Console output is not
    recorded. *)
Inductive event :=
| Spawn (path : string) (child : nat)
| ReadReady
| Write (data : bytes)
| Readline
| ReadStderr
| Kill (child : nat)
| Wait (child : nat)
| Sleep (seconds : Z)
| CreateTask
| DbAllocate (result : option string)
| DbAddParams (params : list string)
| DbCount (result : Z).

Record world := {
  store : db;
  sm : security_manager;
  trace : list event
}.

(** ** Computations that can raise *)

Inductive outcome (A : Type) :=
| Return (a : A)
| Raise (e : exn).
Arguments Return {A} a.
Arguments Raise {A} e.

Definition M (A : Type) : Type := world -> outcome A * world.

Definition ret {A} (a : A) : M A := fun w => (Return a, w).

Definition raise {A} (e : exn) : M A := fun w => (Raise e, w).

Definition bind {A B} (c : M A) (k : A -> M B) : M B := fun w =>
  match c w with
  | (Return a, w') => k a w'
  | (Raise e, w') => (Raise e, w')
  end.

Notation "x <- c ;; k" := (bind c (fun x => k))
  (at level 100, c at next level, right associativity).
Notation "c ;;; k" := (bind c (fun _ => k))
  (at level 100, right associativity).

(** [try: body except ...: handler]. *)
Definition try_except {A} (body : M A) (handler : exn -> M A) : M A := fun w =>
  match body w with
  | (Return a, w') => (Return a, w')
  | (Raise e, w') => handler e w'
  end.

Definition get_sm : M security_manager := fun w => (Return (sm w), w).

Definition put_sm (s : security_manager) : M unit := fun w =>
  (Return tt, {| store := store w; sm := s; trace := trace w |}).

Definition log (ev : event) : M unit := fun w =>
  (Return tt, {| store := store w; sm := sm w; trace := trace w ++ [ev] |}).

Definition with_proc (p : option process) (s : security_manager) : security_manager :=
  {| cluster_size := cluster_size s; pool_target := pool_target s;
     low_water_mark := low_water_mark s; _proc := p;
     _executable_path := _executable_path s; _warmup_task := _warmup_task s;
     _is_warming_up := _is_warming_up s |}.

Definition with_executable_path (p : option string) (s : security_manager)
    : security_manager :=
  {| cluster_size := cluster_size s; pool_target := pool_target s;
     low_water_mark := low_water_mark s; _proc := _proc s;
     _executable_path := p; _warmup_task := _warmup_task s;
     _is_warming_up := _is_warming_up s |}.

Definition with_warmup_task (t : option task) (s : security_manager)
    : security_manager :=
  {| cluster_size := cluster_size s; pool_target := pool_target s;
     low_water_mark := low_water_mark s; _proc := _proc s;
     _executable_path := _executable_path s; _warmup_task := t;
     _is_warming_up := _is_warming_up s |}.

Definition with_is_warming_up (b : bool) (s : security_manager) : security_manager :=
  {| cluster_size := cluster_size s; pool_target := pool_target s;
     low_water_mark := low_water_mark s; _proc := _proc s;
     _executable_path := _executable_path s; _warmup_task := _warmup_task s;
     _is_warming_up := b |}.

Definition modify_sm (f : security_manager -> security_manager) : M unit :=
  s <- get_sm ;; put_sm (f s).

(** The calls into [cache_manager]; each is one transaction on the store. *)
Definition db_get_and_update_available_param (clock : Q * Q) : M (option string) :=
  fun w =>
    let '(r, d) := get_and_update_available_param (fst clock) (snd clock) (store w) in
    (Return r, {| store := d; sm := sm w; trace := trace w ++ [DbAllocate r] |}).

Definition db_add_new_params (params : list string) : M unit := fun w =>
  (Return tt, {| store := add_new_params params (store w); sm := sm w;
                 trace := trace w ++ [DbAddParams params] |}).

Definition db_get_available_param_uses_count : M Z := fun w =>
  let n := get_available_param_uses_count (store w) in
  (Return n, {| store := store w; sm := sm w; trace := trace w ++ [DbCount n] |}).

(** ** Text helpers *)

(** [str.strip()] on characters below 256. *)
Definition is_space (c : Ascii.ascii) : bool :=
  let n := Ascii.N_of_ascii c in
  (((9 <=? n) && (n <=? 13)) || ((28 <=? n) && (n <=? 32))
   || (n =? 133) || (n =? 160))%N.

Fixpoint lstrip (s : string) : string :=
  match s with
  | String c rest => if is_space c then lstrip rest else s
  | EmptyString => EmptyString
  end.

Definition strip (s : string) : string :=
  String.rev (lstrip (String.rev (lstrip s))).

(** [bytes.find(b)]: the index of the first occurrence, or [-1]. *)
Fixpoint find (needle : Byte.byte) (haystack : bytes) : Z :=
  match haystack with
  | [] => -1
  | b :: rest =>
      if Byte.eqb b needle then 0
      else let i := find needle rest in if i =? -1 then -1 else i + 1
  end.

(** [str.encode()] of an ASCII command. *)
Definition encode (s : string) : bytes := String.list_byte_of_string s.

Definition newline : string := String (Ascii.ascii_of_N 10) EmptyString.

(** ** What the environment answers

    The executable provisioning, the operating system and the daemon are
    outside the program; their answers are inputs. *)

Record start_env := {
  executable : exn + string;   (* ensure_executable_exists() *)
  spawned : exn + nat;         (* create_subprocess_exec(...) *)
  ready_signal : bytes;        (* the first line of its stdout *)
  start_stderr : bytes
}.

Record request_env := {
  start : start_env;           (* consulted only if the daemon is started *)
  drained : option exn;        (* raised by stdin.write / drain, if any *)
  output_line : bytes;         (* stdout.readline() *)
  stderr_rest : bytes;         (* stderr.read(), taken to reach end of file *)
  alive_at_kill : bool         (* false: kill() raises ProcessLookupError *)
}.

Definition of_env {A} (r : exn + A) : M A :=
  match r with
  | inl e => raise e
  | inr a => ret a
  end.

Definition proc_running (s : security_manager) : bool :=
  match _proc s with
  | Some p => match returncode p with None => true | Some _ => false end
  | None => false
  end.

Section daemon.

(** [bytes.decode()] ([None]: not valid UTF-8) and [orjson.loads] on the
    daemon's answer ([None]: not a JSON document; the annotated result
    type is a list of strings). *)
Variable decode : bytes -> option string.
Variable json_loads : bytes -> option (list string).

Definition decoded (b : bytes) : M string :=
  match decode b with
  | Some s => ret s
  | None => raise UnicodeDecodeError
  end.

(** The lifecycle lock and the communication lock serialise tasks; one
    task is modelled, so they do not appear. *)
Definition _start_daemon (e : start_env) : M unit :=
  s <- get_sm ;;
  if proc_running s then ret tt
  else
    path <- match _executable_path s with
            | Some path => ret path
            | None =>
                path <- of_env (executable e) ;;
                modify_sm (with_executable_path (Some path)) ;;;
                ret path
            end ;;
    try_except
      (child <- of_env (spawned e) ;;
       modify_sm (with_proc (Some {| pid := child; returncode := None |})) ;;;
       log (Spawn path child) ;;;
       log ReadReady ;;;
       ready <- decoded (ready_signal e) ;;
       if negb (String.eqb (strip ready) "READY")
       then log ReadStderr ;;;
            _ <- decoded (start_stderr e) ;;
            raise RuntimeError
       else ret tt)
      (fun ex =>
         if isinstance ex Exception
         then modify_sm (with_proc None) ;;; raise RuntimeError
         else raise ex).

Definition _fetch_new_params_from_daemon (e : request_env) : M (list string) :=
  s <- get_sm ;;
  (if negb (proc_running s) then _start_daemon (start e) else ret tt) ;;;
  try_except
    (s <- get_sm ;;
     let command := "cluster " +:+ pretty (cluster_size s) +:+ newline in
     log (Write (encode command)) ;;;
     match drained e with Some ex => raise ex | None => ret tt end ;;;
     log Readline ;;;
     match output_line e with
     | [] =>
         log ReadStderr ;;;
         _ <- decoded (stderr_rest e) ;;
         raise RuntimeError
     | _ :: _ =>
         let json_start := find Byte.x5b (output_line e) in
         if json_start =? -1
         then _ <- decoded (output_line e) ;; raise ValueError
         else match json_loads (drop (Z.to_nat json_start) (output_line e)) with
              | Some params => ret params
              | None => raise JSONDecodeError
              end
     end)
    (fun ex =>
       if matches ex [BrokenPipeError; ConnectionResetError; RuntimeError; ValueError]
       then
         s <- get_sm ;;
         match _proc s with
         | Some p =>
             if alive_at_kill e
             then log (Kill (pid p)) ;;; log (Wait (pid p))
             else ret tt
         | None => ret tt
         end ;;;
         modify_sm (with_proc None) ;;;
         raise ex
       else raise ex).

(** [asyncio.create_task] only schedules [warm_up_pool]; the new task has
    not run when [trigger_warmup] returns. *)
Definition trigger_warmup : M unit :=
  s <- get_sm ;;
  match _warmup_task s with
  | Some t =>
      if negb (done t) then ret tt
      else log CreateTask ;;; modify_sm (with_warmup_task (Some {| done := false |}))
  | None =>
      log CreateTask ;;; modify_sm (with_warmup_task (Some {| done := false |}))
  end.

Definition prime_daemon (e : start_env) (warm_up : bool) : M unit :=
  _start_daemon e ;;;
  if warm_up then trigger_warmup else ret tt.

(** The progress bar of [rich]: a task counts as finished once an update
    finds [completed >= total]. *)
Record progress := {
  total : Z;
  completed : Z;
  finished : bool
}.

Definition add_task (total completed : Z) : progress :=
  {| total := total; completed := completed; finished := false |}.

Definition update (advance : Z) (p : progress) : progress :=
  {| total := total p; completed := completed p + advance;
     finished := finished p || (total p <=? completed p + advance) |}.

(** The [while not progress.finished] loop.  Each iteration consumes the
    daemon's answer to one request; [None] is the loop still running when
    the answers given are used up. *)
Fixpoint warm_up_loop (answers : list request_env) (p : progress)
    : M (option progress) :=
  if finished p then ret (Some p)
  else
    match answers with
    | [] => ret None
    | e :: answers =>
        p <- try_except
               (new_params <- _fetch_new_params_from_daemon e ;;
                match new_params with
                | [] => ret p
                | _ :: _ =>
                    db_add_new_params new_params ;;;
                    ret (update (Z.of_nat (length new_params) * 2) p)
                end)
               (fun ex =>
                  if matches ex [RuntimeError; ValueError]
                  then log (Sleep 5) ;;; ret p
                  else raise ex) ;;
        warm_up_loop answers p
    end.

Inductive warm_up_status :=
| AlreadyWarming
| StillLooping
| PoolFull.

Definition warm_up_pool (answers : list request_env) : M warm_up_status :=
  fun w =>
    if _is_warming_up (sm w) then (Return AlreadyWarming, w)
    else
      let body :=
        modify_sm (with_is_warming_up true) ;;;
        initial_uses <- db_get_available_param_uses_count ;;
        s <- get_sm ;;
        warm_up_loop answers
          (add_task (pool_target s) (Z.min initial_uses (pool_target s))) in
      match body w with
      | (Return None, w') => (Return StillLooping, w')
      | (Return (Some p), w') =>
          (modify_sm (with_is_warming_up false) ;;; ret PoolFull) w'
      | (Raise ex, w') =>
          (modify_sm (with_is_warming_up false) ;;; raise ex) w'
      end.

Record headers := {
  specialencodeparam : string;
  traceparent : string
}.

(** [secrets.token_hex] is random; the two tokens are inputs. *)
Definition _generate_traceparent (trace_id span_id : string) : string :=
  "00-" +:+ trace_id +:+ "-" +:+ span_id +:+ "-01".

Record headers_env := {
  clock_1 : Q * Q;        (* clock readings of the first allocation *)
  refill : request_env;   (* the daemon's answer to the emergency fetch *)
  clock_2 : Q * Q;        (* clock readings of the second allocation *)
  trace_id : string;
  span_id : string
}.

(** [not param] for an [Optional[str]]: [None] and the empty string. *)
Definition not_param (param : option string) : bool :=
  match param with
  | Some (String _ _) => false
  | Some EmptyString | None => true
  end.

(** The string that [param] holds once [not param] is false. *)
Definition the_param (param : option string) : string :=
  match param with
  | Some p => p
  | None => EmptyString
  end.

(** The emergency fetch of [get_headers]: the body of [if not param]. *)
Definition emergency_fetch (e : headers_env) : M (option string) :=
  new_params <- _fetch_new_params_from_daemon (refill e) ;;
  match new_params with
  | [] => raise RuntimeError
  | _ :: _ =>
      db_add_new_params new_params ;;;
      param <- db_get_and_update_available_param (clock_2 e) ;;
      if not_param param then raise RuntimeError else ret param
  end.

(** The low-water-mark check of [get_headers]. *)
Definition background_refill : M unit :=
  available_uses <- db_get_available_param_uses_count ;;
  s <- get_sm ;;
  if (available_uses <? low_water_mark s) && negb (_is_warming_up s)
  then if proc_running s then trigger_warmup else ret tt
  else ret tt.

Definition get_headers (e : headers_env) : M headers :=
  param <- db_get_and_update_available_param (clock_1 e) ;;
  param <- (if not_param param then emergency_fetch e else ret param) ;;
  background_refill ;;;
  ret {| specialencodeparam := the_param param;
         traceparent := _generate_traceparent (trace_id e) (span_id e) |}.

End daemon.

(** ** Vocabulary of the specification *)

(** The request line sent for one batch. *)
Definition cluster_command (s : security_manager) : bytes :=
  encode ("cluster " +:+ pretty (cluster_size s) +:+ newline).

Definition is_write (ev : event) : bool :=
  match ev with Write _ => true | _ => false end.

Definition is_allocate (ev : event) : bool :=
  match ev with DbAllocate _ => true | _ => false end.

(** The number of batch requests written to the daemon. *)
Definition writes (tr : list event) : nat := length (List.filter is_write tr).

(** The number of allocations run on the store. *)
Definition allocations (tr : list event) : nat := length (List.filter is_allocate tr).

(** What a call may do to the world besides its result: it leaves the
    store, the configuration and the warm-up bookkeeping alone and appends
    [tr] to the trace. *)
Definition appends (w w' : world) (tr : list event) : Prop :=
  store w' = store w
  /\ cluster_size (sm w') = cluster_size (sm w)
  /\ pool_target (sm w') = pool_target (sm w)
  /\ low_water_mark (sm w') = low_water_mark (sm w)
  /\ _warmup_task (sm w') = _warmup_task (sm w)
  /\ _is_warming_up (sm w') = _is_warming_up (sm w)
  /\ trace w' = trace w ++ tr.

(** A warm-up task has been created and is not done. *)
Definition task_pending (t : option task) : bool :=
  match t with
  | Some t => negb (done t)
  | None => false
  end.

(** ** Concrete daemons

    Instances of the two decoders on which the model can be run: ASCII
    text, and a JSON array of strings that contain no escapes. *)

Definition decode_ascii (b : bytes) : option string :=
  if forallb (fun c => (Byte.to_N c <? 128)%N) b
  then Some (String.string_of_list_byte b)
  else None.

Inductive array_state :=
| BeforeArray
| BeforeItem (first : bool)
| InsideItem (chars : bytes)
| AfterItem
| AfterArray.

Definition is_json_space (c : Byte.byte) : bool :=
  Byte.eqb c Byte.x20 || Byte.eqb c Byte.x09 || Byte.eqb c Byte.x0a
  || Byte.eqb c Byte.x0d.

Fixpoint scan_array (st : array_state) (items : list string) (b : bytes)
    : option (list string) :=
  match b with
  | [] => match st with AfterArray => Some (rev items) | _ => None end
  | c :: rest =>
      match st with
      | BeforeArray =>
          if Byte.eqb c Byte.x5b then scan_array (BeforeItem true) items rest
          else if is_json_space c then scan_array BeforeArray items rest
          else None
      | BeforeItem first =>
          if Byte.eqb c Byte.x22 then scan_array (InsideItem []) items rest
          else if Byte.eqb c Byte.x5d && first then scan_array AfterArray items rest
          else if is_json_space c then scan_array (BeforeItem first) items rest
          else None
      | InsideItem chars =>
          if Byte.eqb c Byte.x22
          then scan_array AfterItem (String.string_of_list_byte (rev chars) :: items) rest
          else if Byte.eqb c Byte.x5c then None
          else scan_array (InsideItem (c :: chars)) items rest
      | AfterItem =>
          if Byte.eqb c Byte.x2c then scan_array (BeforeItem false) items rest
          else if Byte.eqb c Byte.x5d then scan_array AfterArray items rest
          else if is_json_space c then scan_array AfterItem items rest
          else None
      | AfterArray =>
          if is_json_space c then scan_array AfterArray items rest else None
      end
  end.

Definition json_loads_strings (b : bytes) : option (list string) :=
  scan_array BeforeArray [] b.

Definition quote : string := String (Ascii.ascii_of_N 34) EmptyString.

(** The daemon's answer [diag ["p1", "p2"]] followed by a newline. *)
Definition answer_line (diag : string) (params : list string) : bytes :=
  encode (diag +:+ "[" +:+
          String.concat ", " ((fun p => quote +:+ p +:+ quote) <$> params)
          +:+ "]" +:+ newline).

Definition healthy_start : start_env :=
  {| executable := inr "/opt/camp-security";
     spawned := inr 4242%nat;
     ready_signal := encode ("READY" +:+ newline);
     start_stderr := [] |}.

Definition healthy (params : list string) : request_env :=
  {| start := healthy_start;
     drained := None;
     output_line := answer_line "generated " params;
     stderr_rest := [];
     alive_at_kill := true |}.

(** The daemon closed its output: [readline] returns the empty line. *)
Definition closed_stream : request_env :=
  {| start := healthy_start;
     drained := None;
     output_line := [];
     stderr_rest := encode "fatal";
     alive_at_kill := true |}.

(** The daemon's input pipe is broken: [drain] raises [BrokenPipeError]. *)
Definition broken_pipe : request_env :=
  {| start := healthy_start;
     drained := Some BrokenPipeError;
     output_line := [];
     stderr_rest := [];
     alive_at_kill := true |}.

Definition running_manager : security_manager :=
  with_executable_path (Some "/opt/camp-security")
    (with_proc (Some {| pid := 7; returncode := None |}) new_security_manager).

Definition world_of (d : db) (s : security_manager) : world :=
  {| store := d; sm := s; trace := [] |}.

Definition at_time (t : Z) : Q * Q := (inject_Z t, inject_Z t).

Definition headers_at (t : Z) (answer : request_env) : headers_env :=
  {| clock_1 := at_time t; refill := answer; clock_2 := at_time t;
     trace_id := "0af7651916cd43dd8448eb211c80319c";
     span_id := "b7ad6b7169203331" |}.

(** ** [close]

    What [close] does to the warm-up task and to the daemon is recorded in a
    trace of its own.  Cancelling a task that is not done and awaiting it
    ends the task: a warm-up that had begun to run ([started]) leaves
    through its [finally] clause, which clears [_is_warming_up]; one that had
    not yet run never does. *)

Inductive close_event :=
| CancelTask
| AwaitTask
| Terminate (child : nat)
| WaitFor (child : nat) (timeout : Q)
| KillProcess (child : nat)
| WaitExit (child : nat).

(** What the daemon does when asked to terminate: it is already gone
    ([terminate()] raises [ProcessLookupError]), it exits within the grace
    period, or [wait_for] times out; in the last case [alive] tells whether
    it is still there when [kill()] is called. *)
Inductive terminate_answer :=
| AlreadyGone
| ExitsInTime
| Hangs (alive : bool).

Definition close (started : bool) (answer : terminate_answer) (s : security_manager)
    : outcome unit * security_manager * list close_event :=
  let '(s, tr) :=
    match _warmup_task s with
    | Some t =>
        if negb (done t)
        then (let s := with_warmup_task (Some {| done := true |}) s in
              if started then with_is_warming_up false s else s,
              [CancelTask; AwaitTask])
        else (s, [])
    | None => (s, [])
    end in
  match _proc s with
  | Some p =>
      match returncode p with
      | None =>
          match answer with
          | AlreadyGone => (Return tt, with_proc None s, tr ++ [Terminate (pid p)])
          | ExitsInTime =>
              (Return tt, with_proc None s,
               tr ++ [Terminate (pid p); WaitFor (pid p) (3 # 1)])
          | Hangs true =>
              (Return tt, with_proc None s,
               tr ++ [Terminate (pid p); WaitFor (pid p) (3 # 1);
                      KillProcess (pid p); WaitExit (pid p)])
          | Hangs false =>
              (Raise ProcessLookupError, s,
               tr ++ [Terminate (pid p); WaitFor (pid p) (3 # 1); KillProcess (pid p)])
          end
      | Some _ => (Return tt, with_proc None s, tr)
      end
  | None => (Return tt, with_proc None s, tr)
  end.

Definition is_signal (ev : close_event) : bool :=
  match ev with
  | Terminate _ | KillProcess _ => true
  | _ => false
  end.

(** ** [secrets.token_hex]

    [token_hex(n)] draws [n] random bytes and writes each as two lowercase
    hexadecimal digits. *)

Definition hex_digit (n : N) : Ascii.ascii :=
  Ascii.ascii_of_N (if (n <? 10)%N then 48 + n else 87 + n)%N.

Fixpoint token_hex (random : bytes) : string :=
  match random with
  | [] => EmptyString
  | b :: rest =>
      String (hex_digit (Byte.to_N b / 16))
        (String (hex_digit (Byte.to_N b mod 16)) (token_hex rest))
  end.

Definition is_hex_digit (c : Ascii.ascii) : bool :=
  let n := Ascii.N_of_ascii c in
  (((48 <=? n) && (n <=? 57)) || ((97 <=? n) && (n <=? 102)))%N.

Fixpoint all_hex (s : string) : bool :=
  match s with
  | EmptyString => true
  | String c rest => is_hex_digit c && all_hex rest
  end.

(** A daemon that starts but does not report readiness. *)
Definition busy_start : start_env :=
  {| executable := inr "/opt/camp-security";
     spawned := inr 9%nat;
     ready_signal := encode "BUSY";
     start_stderr := encode "port in use" |}.

Definition is_spawn (ev : event) : bool :=
  match ev with Spawn _ _ => true | _ => false end.

Definition is_kill_or_wait (ev : event) : bool :=
  match ev with Kill _ | Wait _ => true | _ => false end.

(** ** Vocabulary for the warm-up *)

(** What the progress bar is advanced by along a trace: two uses for every
    parameter handed to [add_new_params]. *)
Definition delivered (tr : list event) : Z :=
  foldr (fun ev n =>
           match ev with
           | DbAddParams params => Z.of_nat (length params) * 2 + n
           | _ => n
           end) 0 tr.

(** The store has only gained unused rows at the end of the pool. *)
Definition pool_grows (d d' : db) : Prop :=
  api_cache d' = api_cache d
  /\ exists added, param_pool d' = param_pool d ++ ((fun p => row p 0 0) <$> added).

(** The same daemon answering a request with another line. *)
Definition with_output_line (line : bytes) (e : request_env) : request_env :=
  {| start := start e; drained := drained e; output_line := line;
     stderr_rest := stderr_rest e; alive_at_kill := alive_at_kill e |}.

(** The exceptions after which [_fetch_new_params_from_daemon] gives the
    daemon up. *)
Definition communication_errors : list exn :=
  [BrokenPipeError; ConnectionResetError; RuntimeError; ValueError].

End camp_security.

(** * hok/hok_api.py *)

Module hok_api.

Import cache_manager camp_security.

(** ** Exceptions and effects of the API layer

    What can leave a request: an [httpx.TimeoutException] (or a subclass),
    any other [httpx.RequestError], the [httpx.HTTPStatusError] of
    [raise_for_status], the decoding error of [json.loads] on the response
    body, and whatever [get_headers] raised. *)

Inductive api_exn :=
| TimeoutException
| RequestError
| HTTPStatusError
| ResponseDecodeError
| SecurityError (e : exn).

(** [isinstance(e, httpx.TimeoutException)]. *)
Definition is_timeout (e : api_exn) : bool :=
  match e with TimeoutException => true | _ => false end.

Inductive api_event :=
| HttpRequest (method endpoint : string) (content : option bytes) (h : headers)
| RetrySleep (seconds : Z).

(** The world of the security manager together with what the API layer
    itself has sent and slept. *)
Record api_world := {
  inner : world;
  calls : list api_event
}.

Inductive api_outcome (A : Type) :=
| Done (a : A)
| Failed (e : api_exn).
Arguments Done {A} a.
Arguments Failed {A} e.

(** [asyncio.sleep(mdelay)] in the retry loop. *)
Definition sleep (mdelay : Z) (aw : api_world) : api_world :=
  {| inner := inner aw; calls := calls aw ++ [RetrySleep mdelay] |}.

(** ** [retry]

    [func i] is the [i]-th call of the decorated function: the calls meet
    different answers of the environment. *)

Section retry.

Context {A : Type}.
Variable exceptions : api_exn -> bool.
Variable func : nat -> api_world -> api_outcome A * api_world.

(** The [while mtries > 1] loop with [mtries - 1] iterations left, followed
    by the last, unguarded call. *)
Fixpoint retry_loop (iterations attempt : nat) (mdelay backoff : Z) (aw : api_world)
    : api_outcome A * api_world :=
  match iterations with
  | O => func attempt aw
  | S iterations =>
      match func attempt aw with
      | (Done a, aw') => (Done a, aw')
      | (Failed e, aw') =>
          if exceptions e
          then retry_loop iterations (S attempt) (mdelay * backoff) backoff
                 (sleep mdelay aw')
          else (Failed e, aw')
      end
  end.

Definition retry (tries delay backoff : Z) (aw : api_world)
    : api_outcome A * api_world :=
  retry_loop (Z.to_nat (tries - 1)) 0 delay backoff aw.

(** The world in which the [k]-th call is made when all calls before it
    were retried. *)
Fixpoint world_before (delay backoff : Z) (k : nat) (aw : api_world) : api_world :=
  match k with
  | O => aw
  | S k =>
      sleep (delay * backoff ^ Z.of_nat k)
        (snd (func k (world_before delay backoff k aw)))
  end.

(** The call fails with an exception that the decorator retries. *)
Definition retried (r : api_outcome A) : bool :=
  match r with
  | Failed e => exceptions e
  | Done _ => false
  end.

End retry.

(** ** [HOKAPI._request]

    JSON documents are values of [V]; [truthy] is Python's truth test on
    them, [dumps] and [loads] are [orjson], and [is_json] tells whether
    [json.loads] accepts a response body. *)

Record attempt_env := {
  cache_clock : Q;                       (* time.time() in cache_manager.get *)
  security : headers_env;                (* what get_headers meets *)
  upstream : api_exn + (bool * bytes);   (* client.request raises, or answers
                                            (raise_for_status passes, content) *)
  store_clock : Q                        (* time.time() in cache_manager.set *)
}.

Section request.

Context {V : Type}.
Variable py_None : V.
Variable truthy : V -> bool.
Variable dumps : V -> bytes.
Variable loads : bytes -> V.
Variable is_json : bytes -> bool.
Variable decode : bytes -> option string.
Variable json_loads : bytes -> option (list string).

(** [data] as the condition of [if data]. *)
Definition given (data : option V) : option V :=
  match data with
  | Some d => if truthy d then Some d else None
  | None => None
  end.

Definition cache_key (endpoint : string) (data : option V) : string :=
  match given data with
  | Some d => endpoint +:+ ":" +:+ String.string_of_list_byte (dumps d)
  | None => endpoint
  end.

Definition _request (e : attempt_env) (method endpoint : string) (data : option V)
    (use_cache : bool) (aw : api_world) : api_outcome V * api_world :=
  let key := cache_key endpoint data in
  let cached_response :=
    if use_cache then get py_None loads (cache_clock e) key (store (inner aw))
    else py_None in
  if use_cache && truthy cached_response then (Done cached_response, aw)
  else
    match get_headers decode json_loads (security e) (inner aw) with
    | (Raise ex, w) => (Failed (SecurityError ex), {| inner := w; calls := calls aw |})
    | (Return security_headers, w) =>
        let sent :=
          calls aw ++ [HttpRequest method endpoint (dumps <$> given data)
                         security_headers] in
        match upstream e with
        | inl ex => (Failed ex, {| inner := w; calls := sent |})
        | inr (status_ok, content) =>
            if negb status_ok
            then (Failed HTTPStatusError, {| inner := w; calls := sent |})
            else if negb (is_json content)
            then (Failed ResponseDecodeError, {| inner := w; calls := sent |})
            else
              let json_response := loads content in
              if use_cache
              then (Done json_response,
                    {| inner := {| store := set dumps (store_clock e) key json_response
                                              (store w);
                                   sm := sm w; trace := trace w |};
                       calls := sent |})
              else (Done json_response, {| inner := w; calls := sent |})
        end
    end.

(** [_request] as decorated:
    [@retry(httpx.TimeoutException, tries=3, delay=1)]. *)
Definition request (envs : nat -> attempt_env) (method endpoint : string)
    (data : option V) (use_cache : bool) : api_world -> api_outcome V * api_world :=
  retry is_timeout
    (fun attempt => _request (envs attempt) method endpoint data use_cache) 3 1 2.

End request.

(** ** Timestamps in responses

    The documents that [orjson] decodes, with the [datetime] values that
    [parse_datetimes_in_dict] puts in place of strings.  A dict is kept as
    its items in order; its keys are distinct, so assigning [d[k]] while
    iterating over [d.items()] rewrites the item in place. *)

#[warnings="-register-all"]
Inductive json (D : Type) :=
| JNull
| JBool (b : bool)
| JNumber (n : Q)
| JString (s : string)
| JDatetime (dt : D)
| JList (items : list (json D))
| JDict (items : list (string * json D)).
Arguments JNull {D}.
Arguments JBool {D} b.
Arguments JNumber {D} n.
Arguments JString {D} s.
Arguments JDatetime {D} dt.
Arguments JList {D} items.
Arguments JDict {D} items.

(** [needle in hay] for two strings. *)
Fixpoint is_substring (needle hay : string) : bool :=
  String.prefix needle hay
  || match hay with
     | EmptyString => false
     | String _ rest => is_substring needle rest
     end.

(** [k in ('updateTime')]: the parentheses do not make a tuple, the test is
    a substring test. *)
Definition information_card_key (k : string) : bool := is_substring k "updateTime".

(** [k in ('createTime', 'updateTime', 'publishTime')]. *)
Definition review_key (k : string) : bool :=
  bool_decide (k ∈ ["createTime"; "updateTime"; "publishTime"]).

(** [dt_str.replace('Z', '+00:00')]. *)
Fixpoint replace_Z (dt_str : string) : string :=
  match dt_str with
  | EmptyString => EmptyString
  | String c rest =>
      if Ascii.eqb c (Ascii.ascii_of_N 90)
      then "+00:00" +:+ replace_Z rest
      else String c (replace_Z rest)
  end.

Section datetimes.

Context {D : Type}.

(** [datetime.datetime.fromisoformat]; [None] when it raises [ValueError]. *)
Variable fromisoformat : string -> option D.

Definition _parse_datetime_str (dt_str : string) : option D :=
  fromisoformat (replace_Z dt_str).

(** The local function [parse_datetimes_in_dict] of [get_information_cards]
    and of [get_hero_reviews]; [wanted] is the test on the key. *)
Fixpoint parse_datetimes_in_dict (wanted : string -> bool) (d : json D) : json D :=
  match d with
  | JDict items =>
      JDict (List.map
               (fun item : string * json D =>
                  let '(k, v) := item in
                  match v with
                  | JString s =>
                      if wanted k
                      then match s with
                           | EmptyString => (k, v)
                           | String _ _ =>
                               match _parse_datetime_str s with
                               | Some dt => (k, JDatetime dt)
                               | None => (k, v)
                               end
                           end
                      else (k, v)
                  | _ => (k, parse_datetimes_in_dict wanted v)
                  end)
               items)
  | JList items => JList (List.map (parse_datetimes_in_dict wanted) items)
  | _ => d
  end.

End datetimes.

(** A document with its strings and dates forgotten. *)
Fixpoint skeleton {D} (d : json D) : json unit :=
  match d with
  | JNull => JNull
  | JBool b => JBool b
  | JNumber n => JNumber n
  | JString _ => JNull
  | JDatetime _ => JNull
  | JList items => JList (List.map skeleton items)
  | JDict items => JDict (List.map (fun item => (fst item, skeleton (snd item))) items)
  end.

(** The strings left in a document, each with the key it is filed under
    ([None] for an element of a list or the document itself). *)
Fixpoint strings_at {D} (key : option string) (d : json D) : list (option string * string) :=
  match d with
  | JString s => [(key, s)]
  | JList items => flat_map (strings_at None) items
  | JDict items => flat_map (fun item => strings_at (Some (fst item)) (snd item)) items
  | _ => []
  end.

(** ** Vocabulary *)

Definition is_http (ev : api_event) : bool :=
  match ev with HttpRequest _ _ _ _ => true | _ => false end.

(** The number of requests sent upstream. *)
Definition http_requests (evs : list api_event) : nat := length (List.filter is_http evs).

(** The delays slept between retries, in order. *)
Definition sleeps (evs : list api_event) : list Z :=
  omap (fun ev => match ev with RetrySleep s => Some s | _ => None end) evs.

(** An instance on which the model can be run: documents are kept as their
    serialisation, and the empty one stands for a falsy document. *)
Definition raw_truthy (document : bytes) : bool :=
  match document with
  | [] => false
  | _ :: _ => true
  end.

(** A world with nothing sent yet. *)
Definition api_world_of (w : world) : api_world := {| inner := w; calls := [] |}.

(** An upstream that times out on each of the first [n] calls and then
    answers with [content]. *)
Definition flaky (n : nat) (p : string) (content : bytes) (attempt : nat) : attempt_env :=
  {| cache_clock := 100 # 1;
     security := headers_at 100 (healthy [p]);
     upstream := if (attempt <? n)%nat then inl TimeoutException else inr (true, content);
     store_clock := 101 # 1 |}.

End hok_api.

(** * hok/downloader.py *)

Module downloader.

(** ** The tables *)

Definition EXECUTABLE_URLS : gmap string string :=
  <["linux" := "https://cdn.jsdelivr.net/gh/SSL-ACTX/cdn_purposes@refs/heads/main/camp-security-linux64.zst"]>
  (<["win32" := "https://cdn.jsdelivr.net/gh/SSL-ACTX/cdn_purposes@refs/heads/main/camp-security-win64.exe.zst"]>
  (<["darwin" := "https://cdn.jsdelivr.net/gh/SSL-ACTX/cdn_purposes@refs/heads/main/camp-security-macos64.zst"]>
   ∅)).

Definition KNOWN_HASHES : gmap string string :=
  <["linux" := "5df6e4dd0fa8bcb4dd685f0e75b99f67c263f61b0edf92b0dec3c1e403acb83e"]>
  (<["win32" := "807805ed4b453c0a603e3ef4fb637fda5af8e0f397d58c8dd64dc1545b8c49e2"]>
  (<["darwin" := "7caa8dfb70e9d439480e2a73bc2f3d093b9cba77d6ff8449ede707baf4b666b7"]>
   ∅)).

(** ** Exceptions, files and the network

    The download either raises (the [HTTPStatusError] of [raise_for_status],
    or a transport error) or delivers the whole body.  Files are kept by
    path with their content and the owner's execute bit; failures of the
    file system itself are outside the model. *)

Inductive exn :=
| RuntimeError
| SecurityWarning
| HTTPStatusError
| TransportError
| ZstdError.

Definition path := list string.

Record file := {
  content : list Byte.byte;
  S_IXUSR : bool
}.

Record disk := {
  files : gmap path file;
  fetched : list string      (* the URLs requested, in order *)
}.

Definition exists_ (p : path) (d : disk) : bool := bool_decide (is_Some (files d !! p)).

(** [not s] for a value of [dict.get]: absent or the empty string. *)
Definition missing (s : option string) : bool :=
  match s with
  | Some (String _ _) => false
  | Some EmptyString | None => true
  end.

Definition get_platform_executable_name (platform : string) : string :=
  if String.eqb platform "win32" then "camp-security.exe" else "camp-security".

(** [Path(__file__).parent / "bin" / executable_name]. *)
Definition get_executable_path (package_dir : path) (platform : string) : path :=
  package_dir ++ ["bin"; get_platform_executable_name platform].

Section download.

(** [hashlib.sha256(data).hexdigest()] and [ZstdDecompressor().decompress]. *)
Variable sha256_hexdigest : list Byte.byte -> string.
Variable decompress : list Byte.byte -> option (list Byte.byte).

Definition verify_hash (data : list Byte.byte) (platform_key : string) : exn + bool :=
  let expected_hash := KNOWN_HASHES !! platform_key in
  if missing expected_hash then inl RuntimeError
  else
    let actual_hash := sha256_hexdigest data in
    if bool_decide (Some actual_hash = expected_hash) then inr true else inr false.

(** [open(destination, "wb")] creates the file without the execute bit or
    truncates it and keeps its mode. *)
Definition write (destination : path) (data : list Byte.byte) (d : disk) : disk :=
  let mode := match files d !! destination with
              | Some f => S_IXUSR f
              | None => false
              end in
  {| files := <[destination := {| content := data; S_IXUSR := mode |}]> (files d);
     fetched := fetched d |}.

(** [os.chmod(destination, st_mode | stat.S_IXUSR)]. *)
Definition chmod_executable (destination : path) (d : disk) : disk :=
  {| files := alter (fun f => {| content := content f; S_IXUSR := true |})
                destination (files d);
     fetched := fetched d |}.

(** [platform] is [sys.platform]; [answer] is what the download yields. *)
Definition download_and_decompress (platform : string) (answer : exn + list Byte.byte)
    (url : string) (destination : path) (platform_key : string) (d : disk)
    : (exn + unit) * disk :=
  let d := {| files := files d; fetched := fetched d ++ [url] |} in
  match answer with
  | inl e => (inl e, d)
  | inr compressed_data =>
      match verify_hash compressed_data platform_key with
      | inl e => (inl e, d)
      | inr false => (inl SecurityWarning, d)
      | inr true =>
          match decompress compressed_data with
          | None => (inl ZstdError, d)
          | Some decompressed_data =>
              let d := write destination decompressed_data d in
              if negb (String.eqb platform "win32")
              then (inr tt, chmod_executable destination d)
              else (inr tt, d)
          end
      end
  end.

Definition ensure_executable_exists (package_dir : path) (platform : string)
    (answer : exn + list Byte.byte) (d : disk) : (exn + path) * disk :=
  let executable_path := get_executable_path package_dir platform in
  let platform_key := platform in
  if exists_ executable_path d then (inr executable_path, d)
  else
    let url := EXECUTABLE_URLS !! platform_key in
    if missing url then (inl RuntimeError, d)
    else
      match download_and_decompress platform answer (default EmptyString url)
              executable_path platform_key d with
      | (inl e, d) => (inl e, d)
      | (inr _, d) =>
          if negb (exists_ executable_path d) then (inl RuntimeError, d)
          else (inr executable_path, d)
      end.

End download.

(** ** Vocabulary *)

Definition supported (platform : string) : bool :=
  bool_decide (platform ∈ ["linux"; "win32"; "darwin"]).

Definition empty_disk : disk := {| files := ∅; fetched := [] |}.

(** An instance on which the model can be run: one archive is taken to
    hash to the value pinned for Linux and to decompress to its payload. *)
Definition archive : list Byte.byte := String.list_byte_of_string "zst:payload".

Definition toy_sha256 (data : list Byte.byte) : string :=
  if String.eqb (String.string_of_list_byte data) "zst:payload"
  then "5df6e4dd0fa8bcb4dd685f0e75b99f67c263f61b0edf92b0dec3c1e403acb83e"
  else "e3b0c44298fc1c149afbf4c8996fb92427ae41e4649b934ca495991b7852b855".

Definition toy_decompress (data : list Byte.byte) : option (list Byte.byte) :=
  if String.prefix "zst:" (String.string_of_list_byte data)
  then Some (drop 4 data) else None.

End downloader.

(** * hok/client.py *)

Module client.

(** The client joins what the API returns on hero ids.  Of the records of
    [hok.models] only the hero id is used, so the records themselves are
    parameters; what the low-level API answers (a list, or an exception of
    type [E]) is an input. *)

Section joins.

Context {HeroBriefInfo RankEntry AdjustItem InformationCard E : Type}.
Variable heroId : HeroBriefInfo -> Z.
Variable rank_heroId : RankEntry -> Z.          (* rank_entry.heroId *)
Variable adjust_heroId : AdjustItem -> Z.       (* item.heroInfo.heroId *)
Variable card_heroId : InformationCard -> Z.    (* card.heroInfo.heroId *)

Record RichRankEntry := {
  rank_data : RankEntry;
  rank_hero_info : option HeroBriefInfo
}.

Record RichAdjustItem := {
  adjust_data : AdjustItem;
  adjust_hero_info : option HeroBriefInfo
}.

Record RichInformationCard := {
  card_data : InformationCard;
  card_hero_info : option HeroBriefInfo
}.

Record HOKClient := {
  _hero_list_cache : option (list HeroBriefInfo);
  _hero_map_cache : option (gmap Z HeroBriefInfo)
}.

Definition new_client : HOKClient :=
  {| _hero_list_cache := None; _hero_map_cache := None |}.

(** [{hero.heroId: hero for hero in heroes}]. *)
Definition hero_map (heroes : list HeroBriefInfo) : gmap Z HeroBriefInfo :=
  foldl (fun m hero => <[heroId hero := hero]> m) ∅ heroes.

Definition _get_hero_map (all_heroes : E + list HeroBriefInfo) (c : HOKClient)
    : (E + gmap Z HeroBriefInfo) * HOKClient :=
  match _hero_map_cache c with
  | None =>
      match all_heroes with
      | inl e => (inl e, c)
      | inr heroes =>
          let m := hero_map heroes in
          (inr m, {| _hero_list_cache := Some heroes; _hero_map_cache := Some m |})
      end
  | Some m => (inr m, c)
  end.

Definition get_all_heroes (all_heroes : E + list HeroBriefInfo) (c : HOKClient)
    : (E + option (list HeroBriefInfo)) * HOKClient :=
  match _get_hero_map all_heroes c with
  | (inl e, c) => (inl e, c)
  | (inr _, c) => (inr (_hero_list_cache c), c)
  end.

Definition get_rich_hero_rankings (all_heroes : E + list HeroBriefInfo)
    (rankings : E + list RankEntry) (c : HOKClient)
    : (E + list RichRankEntry) * HOKClient :=
  match _get_hero_map all_heroes c with
  | (inl e, c) => (inl e, c)
  | (inr hero_map, c) =>
      match rankings with
      | inl e => (inl e, c)
      | inr raw_rankings =>
          (inr ((fun rank_entry =>
                   {| rank_data := rank_entry;
                      rank_hero_info := hero_map !! rank_heroId rank_entry |})
                <$> filter (fun rank_entry => is_Some (hero_map !! rank_heroId rank_entry))
                      raw_rankings),
           c)
      end
  end.

(** [adjustments] is [response.data.adjustList], or [None] when
    [not response or not response.data]. *)
Definition get_rich_seasonal_adjustments (all_heroes : E + list HeroBriefInfo)
    (adjustments : E + option (list AdjustItem)) (c : HOKClient)
    : (E + list RichAdjustItem) * HOKClient :=
  match _get_hero_map all_heroes c with
  | (inl e, c) => (inl e, c)
  | (inr hero_map, c) =>
      match adjustments with
      | inl e => (inl e, c)
      | inr None => (inr [], c)
      | inr (Some adjustList) =>
          (inr ((fun item =>
                   {| adjust_data := item;
                      adjust_hero_info := hero_map !! adjust_heroId item |})
                <$> adjustList),
           c)
      end
  end.

(** [card_categories] holds the [cardList] of each category. *)
Definition get_rich_information_cards (all_heroes : E + list HeroBriefInfo)
    (card_categories : E + list (list InformationCard)) (c : HOKClient)
    : (E + list RichInformationCard) * HOKClient :=
  match _get_hero_map all_heroes c with
  | (inl e, c) => (inl e, c)
  | (inr hero_map, c) =>
      match card_categories with
      | inl e => (inl e, c)
      | inr categories =>
          (inr (foldl (fun rich_cards cardList =>
                         foldl (fun rich_cards card =>
                                  rich_cards ++
                                    [{| card_data := card;
                                        card_hero_info := hero_map !! card_heroId card |}])
                               rich_cards cardList)
                      [] categories),
           c)
      end
  end.

End joins.

End client.

(** * Properties of the store *)

Module cache_manager_spec.

Import cache_manager.

(** ** Clock readings *)

Lemma py_int_inject_Z (t : Z) : py_int (inject_Z t) = t.
Proof. unfold py_int, inject_Z; simpl. apply Z.quot_1_r. Qed.

Lemma Qltb_lt (a b : Q) : Qltb a b = true <-> (a < b)%Q.
Proof. unfold Qltb, Qlt. apply Z.ltb_lt. Qed.

Lemma Qltb_nlt (a b : Q) : Qltb a b = false <-> ~ (a < b)%Q.
Proof. rewrite <- Qltb_lt. destruct (Qltb a b); split; congruence. Qed.

(** ** The primary key *)

Lemma has_param_true (p : string) (pool : list pool_row) :
  has_param p pool = true <-> exists r, r ∈ pool /\ param r = p.
Proof.
  unfold has_param. rewrite existsb_exists. split.
  - intros (r & Hin & Heq). exists r. split.
    + by apply list_elem_of_In.
    + by apply String.eqb_eq.
  - intros (r & Hin & Heq). exists r. split.
    + by apply list_elem_of_In.
    + by apply String.eqb_eq.
Qed.

Lemma has_param_false (p : string) (pool : list pool_row) :
  has_param p pool = false <-> forall r, r ∈ pool -> param r <> p.
Proof.
  split.
  - intros Hno r Hin Heq.
    assert (has_param p pool = true) by (apply has_param_true; eauto).
    congruence.
  - intros Hall. destruct (has_param p pool) eqn:E; [|done].
    apply has_param_true in E as (r & Hin & Heq). by destruct (Hall r Hin).
Qed.

Lemma has_param_app (p : string) (l1 l2 : list pool_row) :
  has_param p (l1 ++ l2) = has_param p l1 || has_param p l2.
Proof. unfold has_param. apply existsb_app. Qed.

Lemma find_row_Some (p : string) (pool : list pool_row) (r : pool_row) :
  find_row p pool = Some r -> r ∈ pool /\ param r = p.
Proof.
  unfold find_row. intros H. apply find_some in H as [Hin Heq]. split.
  - by apply list_elem_of_In.
  - by apply String.eqb_eq.
Qed.

Lemma find_row_None (p : string) (pool : list pool_row) :
  find_row p pool = None <-> has_param p pool = false.
Proof.
  unfold find_row, has_param. induction pool as [|r rest IH]; simpl; [done|].
  destruct (String.eqb (param r) p); simpl; [split; discriminate | exact IH].
Qed.

Lemma find_row_unique (pool : list pool_row) (r : pool_row) :
  unique_params pool = true -> r ∈ pool -> find_row (param r) pool = Some r.
Proof.
  unfold find_row. induction pool as [|x rest IH]; simpl; intros Hu Hin.
  - by apply elem_of_nil in Hin.
  - apply andb_true_iff in Hu as [Hx Hrest]. apply negb_true_iff in Hx.
    apply elem_of_cons in Hin as [->|Hin].
    + by rewrite String.eqb_refl.
    + destruct (String.eqb (param x) (param r)) eqn:E; [|by apply IH].
      apply String.eqb_eq in E.
      rewrite has_param_false in Hx. by destruct (Hx r Hin).
Qed.

Lemma find_row_app (p : string) (l1 l2 : list pool_row) :
  find_row p (l1 ++ l2) =
  match find_row p l1 with Some r => Some r | None => find_row p l2 end.
Proof.
  unfold find_row. induction l1 as [|x l1 IH]; simpl; [done|].
  by destruct (String.eqb (param x) p).
Qed.

(** ** [ORDER BY ... LIMIT 1] *)

Section order_by_limit_1.

Variable before : pool_row -> pool_row -> bool.

Lemma order_by_limit_1_None (rows : list pool_row) :
  order_by_limit_1 before rows = None <-> rows = [].
Proof.
  destruct rows as [|r rest]; simpl; [done|].
  destruct (order_by_limit_1 before rest) as [m|]; [destruct (before m r)|];
    split; discriminate.
Qed.

Lemma order_by_limit_1_elem (rows : list pool_row) (m : pool_row) :
  order_by_limit_1 before rows = Some m -> m ∈ rows.
Proof.
  revert m. induction rows as [|r rest IH]; simpl; intros m H; [done|].
  destruct (order_by_limit_1 before rest) as [m'|].
  - destruct (before m' r); injection H as <-.
    + apply elem_of_cons. right. by apply IH.
    + apply elem_of_cons. by left.
  - injection H as <-. apply elem_of_cons. by left.
Qed.

Hypothesis before_irrefl : forall a, before a a = false.
Hypothesis before_asym : forall a b, before a b = true -> before b a = false.
Hypothesis before_neg_trans :
  forall a b c, before a b = false -> before b c = false -> before a c = false.

Lemma order_by_limit_1_least (rows : list pool_row) (m : pool_row) :
  order_by_limit_1 before rows = Some m ->
  forall r, r ∈ rows -> before r m = false.
Proof.
  revert m. induction rows as [|x rest IH]; simpl; intros m H r Hin.
  - by apply elem_of_nil in Hin.
  - destruct (order_by_limit_1 before rest) as [m'|] eqn:E.
    + destruct (before m' x) eqn:B; injection H as <-;
        apply elem_of_cons in Hin as [->|Hin].
      * by apply before_asym.
      * by apply IH.
      * apply before_irrefl.
      * apply before_neg_trans with m'; [by apply IH | done].
    + injection H as <-. apply order_by_limit_1_None in E as ->.
      apply elem_of_cons in Hin as [->|Hin]; [apply before_irrefl|].
      by apply elem_of_nil in Hin.
Qed.

End order_by_limit_1.

Lemma filter_none {A} (P : A -> Prop) `{forall x, Decision (P x)} (l : list A) :
  (forall x, x ∈ l -> ~ P x) -> filter P l = [].
Proof.
  intros Hnone. destruct (filter P l) as [|x rest] eqn:E; [done|].
  assert (x ∈ filter P l) as Hx by (rewrite E; apply elem_of_cons; by left).
  apply list_elem_of_filter in Hx as [HP Hin]. by destruct (Hnone x Hin).
Qed.

Lemma by_use_then_time_false (a b : pool_row) :
  by_use_then_time a b = false <-> use_then_time_le b a.
Proof.
  unfold by_use_then_time, use_then_time_le.
  rewrite orb_false_iff, andb_false_iff, !Z.ltb_ge, Z.eqb_neq. lia.
Qed.

Lemma by_use_then_time_true (a b : pool_row) :
  by_use_then_time a b = true <-> ~ use_then_time_le b a.
Proof.
  rewrite <- by_use_then_time_false. destruct (by_use_then_time a b); split; congruence.
Qed.

Lemma select_fresh_None (pool : list pool_row) :
  select_fresh pool = None <-> forall r, r ∈ pool -> 2 <= use_count r.
Proof.
  unfold select_fresh. rewrite fmap_None, order_by_limit_1_None. split.
  - intros Hnil r Hin. destruct (Z.lt_ge_cases (use_count r) 2) as [Hlt|]; [|done].
    assert (r ∈ filter (fun r => is_fresh r = true) pool) as Hf.
    { apply list_elem_of_filter. split; [|done]. by apply Z.ltb_lt. }
    rewrite Hnil in Hf. by apply elem_of_nil in Hf.
  - intros Hall. apply filter_none. intros r Hin Hf.
    apply Z.ltb_lt in Hf. specialize (Hall r Hin). lia.
Qed.

Lemma select_fresh_Some (pool : list pool_row) (p : string) :
  select_fresh pool = Some p ->
  exists a, a ∈ pool /\ param a = p /\ use_count a < 2
    /\ forall r, r ∈ pool -> use_count r < 2 -> use_then_time_le a r.
Proof.
  unfold select_fresh. intros H. apply fmap_Some in H as (a & Hsel & ->).
  exists a.
  pose proof (order_by_limit_1_elem _ _ _ Hsel) as Hin.
  apply list_elem_of_filter in Hin as [Hfresh Hin]. apply Z.ltb_lt in Hfresh.
  repeat split; try done.
  intros r Hr Hrfresh. apply by_use_then_time_false.
  eapply order_by_limit_1_least; [| | |exact Hsel|].
  - intros x. apply by_use_then_time_false. unfold use_then_time_le. lia.
  - intros x y Hxy. apply by_use_then_time_true in Hxy.
    apply by_use_then_time_false. unfold use_then_time_le in *. lia.
  - intros x y z Hxy Hyz. apply by_use_then_time_false in Hxy, Hyz.
    apply by_use_then_time_false. unfold use_then_time_le in *. lia.
  - apply list_elem_of_filter. split; [|done]. by apply Z.ltb_lt.
Qed.

Lemma select_cooled_None (limit : Z) (pool : list pool_row) :
  select_cooled limit pool = None <->
  forall r, r ∈ pool -> 2 <= use_count r -> limit <= last_used_timestamp r.
Proof.
  unfold select_cooled. rewrite fmap_None, order_by_limit_1_None. split.
  - intros Hnil r Hin Hex.
    destruct (Z.lt_ge_cases (last_used_timestamp r) limit) as [Hlt|]; [|lia].
    assert (r ∈ filter (fun r => is_cooled limit r = true) pool) as Hf.
    { apply list_elem_of_filter. split; [|done]. unfold is_cooled.
      apply andb_true_iff. split; [by apply Z.leb_le | by apply Z.ltb_lt]. }
    rewrite Hnil in Hf. by apply elem_of_nil in Hf.
  - intros Hall. apply filter_none. intros r Hin Hf.
    unfold is_cooled in Hf. apply andb_true_iff in Hf as [H2 Hl].
    apply Z.leb_le in H2. apply Z.ltb_lt in Hl. specialize (Hall r Hin H2). lia.
Qed.

Lemma select_cooled_Some (limit : Z) (pool : list pool_row) (p : string) :
  select_cooled limit pool = Some p ->
  exists c, c ∈ pool /\ param c = p /\ 2 <= use_count c
    /\ last_used_timestamp c < limit
    /\ forall r, r ∈ pool -> 2 <= use_count r -> last_used_timestamp r < limit ->
                 last_used_timestamp c <= last_used_timestamp r.
Proof.
  unfold select_cooled. intros H. apply fmap_Some in H as (c & Hsel & ->).
  exists c.
  pose proof (order_by_limit_1_elem _ _ _ Hsel) as Hin.
  apply list_elem_of_filter in Hin as [Hc Hin]. unfold is_cooled in Hc.
  apply andb_true_iff in Hc as [H2 Hl]. apply Z.leb_le in H2. apply Z.ltb_lt in Hl.
  repeat split; try done.
  intros r Hr Hr2 Hrl.
  assert (by_time r c = false) as Hleast.
  { eapply order_by_limit_1_least; [| | |exact Hsel|].
    - intros x. unfold by_time. apply Z.ltb_irrefl.
    - intros x y. unfold by_time. rewrite Z.ltb_lt, Z.ltb_ge. lia.
    - intros x y z. unfold by_time. rewrite !Z.ltb_ge. lia.
    - apply list_elem_of_filter. split; [|done]. unfold is_cooled.
      apply andb_true_iff. split; [by apply Z.leb_le | by apply Z.ltb_lt]. }
  unfold by_time in Hleast. by apply Z.ltb_ge in Hleast.
Qed.

(** ** The update touches one row *)

Lemma update_used_cons (now : Z) (p : string) (r : pool_row) (rest : list pool_row) :
  update_used now p (r :: rest) =
  (if String.eqb (param r) p then mark_used now r else r) :: update_used now p rest.
Proof. reflexivity. Qed.

Lemma update_used_absent (now : Z) (p : string) (pool : list pool_row) :
  has_param p pool = false -> update_used now p pool = pool.
Proof.
  induction pool as [|r rest IH]; intros H; [done|].
  simpl in H. apply orb_false_iff in H as [Hr Hrest].
  rewrite update_used_cons, Hr. f_equal. by apply IH.
Qed.

Lemma update_used_unique (now : Z) (pool : list pool_row) (a : pool_row) :
  unique_params pool = true -> a ∈ pool ->
  exists l1 l2, pool = l1 ++ a :: l2
    /\ update_used now (param a) pool = l1 ++ mark_used now a :: l2.
Proof.
  induction pool as [|r rest IH]; intros Hu Hin.
  - by apply elem_of_nil in Hin.
  - simpl in Hu. apply andb_true_iff in Hu as [Hr Hrest]. apply negb_true_iff in Hr.
    apply elem_of_cons in Hin as [->|Hin].
    + exists [], rest. split; [done|].
      rewrite update_used_cons, String.eqb_refl. simpl. f_equal.
      by apply update_used_absent.
    + destruct (IH Hrest Hin) as (l1 & l2 & Hsplit & Hupd).
      exists (r :: l1), l2. split; [by rewrite Hsplit|].
      rewrite update_used_cons.
      destruct (String.eqb (param r) (param a)) eqn:E.
      * apply String.eqb_eq in E. rewrite has_param_false in Hr.
        by destruct (Hr a Hin).
      * by rewrite Hupd.
Qed.

Lemma update_used_unique_params (now : Z) (p : string) (pool : list pool_row) :
  unique_params (update_used now p pool) = unique_params pool.
Proof.
  assert (forall q l, has_param q (update_used now p l) = has_param q l) as Hhas.
  { intros q l. induction l as [|r rest IH]; [done|].
    rewrite update_used_cons. unfold has_param in *. simpl. rewrite IH.
    by destruct (String.eqb (param r) p). }
  induction pool as [|r rest IH]; [done|].
  rewrite update_used_cons. simpl. rewrite Hhas, IH.
  by destruct (String.eqb (param r) p).
Qed.

(** What [get_and_update_available_param] does in each of its three
    outcomes. *)
Lemma allocate_fresh (t_cool t_upd : Q) (d : db) (p : string) :
  select_fresh (param_pool d) = Some p ->
  get_and_update_available_param t_cool t_upd d =
    (Some p, with_param_pool (update_used (py_int t_upd) p (param_pool d)) d).
Proof. unfold get_and_update_available_param. simpl. by intros ->. Qed.

Lemma allocate_cooled (t_cool t_upd : Q) (d : db) (p : string) :
  select_fresh (param_pool d) = None ->
  select_cooled (py_int t_cool - PARAM_REUSE_COOLDOWN_SECONDS) (param_pool d) = Some p ->
  get_and_update_available_param t_cool t_upd d =
    (Some p, with_param_pool (update_used (py_int t_upd) p (param_pool d)) d).
Proof. unfold get_and_update_available_param. simpl. by intros -> ->. Qed.

Lemma allocate_none (t_cool t_upd : Q) (d : db) :
  select_fresh (param_pool d) = None ->
  select_cooled (py_int t_cool - PARAM_REUSE_COOLDOWN_SECONDS) (param_pool d) = None ->
  get_and_update_available_param t_cool t_upd d = (None, d).
Proof. unfold get_and_update_available_param. simpl. by intros -> ->. Qed.

(** Under the primary key, an allocation ends in one of three ways: a fresh
    row is taken, a cooled-down exhausted row is taken, or nothing is. *)
Lemma allocate_cases (t_cool t_upd : Q) (d : db) :
  unique_params (param_pool d) = true ->
  let limit := py_int t_cool - PARAM_REUSE_COOLDOWN_SECONDS in
  (exists a l1 l2,
      param_pool d = l1 ++ a :: l2
      /\ use_count a < 2
      /\ (forall r, r ∈ param_pool d -> use_count r < 2 -> use_then_time_le a r)
      /\ get_and_update_available_param t_cool t_upd d =
           (Some (param a), with_param_pool (l1 ++ mark_used (py_int t_upd) a :: l2) d))
  \/ ((forall r, r ∈ param_pool d -> 2 <= use_count r)
      /\ exists c l1 l2,
          param_pool d = l1 ++ c :: l2
          /\ last_used_timestamp c < limit
          /\ (forall r, r ∈ param_pool d -> last_used_timestamp r < limit ->
                        last_used_timestamp c <= last_used_timestamp r)
          /\ get_and_update_available_param t_cool t_upd d =
               (Some (param c), with_param_pool (l1 ++ mark_used (py_int t_upd) c :: l2) d))
  \/ ((forall r, r ∈ param_pool d -> 2 <= use_count r)
      /\ (forall r, r ∈ param_pool d -> limit <= last_used_timestamp r)
      /\ get_and_update_available_param t_cool t_upd d = (None, d)).
Proof.
  intros Hu limit.
  destruct (select_fresh (param_pool d)) as [p|] eqn:Hfresh.
  - left. destruct (select_fresh_Some _ _ Hfresh) as (a & Hin & <- & Ha & Hmin).
    destruct (update_used_unique (py_int t_upd) _ _ Hu Hin) as (l1 & l2 & Hsplit & Hupd).
    exists a, l1, l2. repeat split; try done.
    rewrite <- Hupd. by apply allocate_fresh.
  - right. pose proof (proj1 (select_fresh_None _) Hfresh) as Hex.
    destruct (select_cooled limit (param_pool d)) as [p|] eqn:Hcool.
    + left. split; [done|].
      destruct (select_cooled_Some _ _ _ Hcool) as (c & Hin & <- & Hc2 & Hcl & Hmin).
      destruct (update_used_unique (py_int t_upd) _ _ Hu Hin) as (l1 & l2 & Hsplit & Hupd).
      exists c, l1, l2. repeat split; try done.
      * intros r Hr Hrl. apply Hmin; auto.
      * rewrite <- Hupd. by apply allocate_cooled.
    + right. split; [done|]. split.
      * intros r Hr. apply (proj1 (select_cooled_None _ _) Hcool); auto.
      * by apply allocate_none.
Qed.

Lemma same_param_same_row (pool : list pool_row) (a b : pool_row) :
  unique_params pool = true -> a ∈ pool -> b ∈ pool -> param a = param b -> a = b.
Proof.
  intros Hu Ha Hb Heq.
  pose proof (find_row_unique _ _ Hu Ha) as Hfa.
  pose proof (find_row_unique _ _ Hu Hb) as Hfb.
  rewrite Heq in Hfa. congruence.
Qed.

Lemma elem_of_middle {A} (x : A) (l1 l2 : list A) : x ∈ l1 ++ x :: l2.
Proof. apply elem_of_app. right. apply elem_of_cons. by left. Qed.

(** C1. Whenever the pool holds a fresh row (use count below 2), the
    allocation returns a fresh row that is least in the ordering (use count
    ascending, then last use ascending) among the fresh rows, never an
    exhausted row, whatever the insertion order and the cooldown limit; it
    adds one to that row's use count, stamps it with the clock reading and
    leaves the other rows alone.  From rows A (0, 0) and B (1, t - 10), in
    either insertion order, it returns A and leaves A at (1, t). *)
Theorem C1_fresh_row_preferred :
  (forall (t_cool t_upd : Q) (d : db),
      unique_params (param_pool d) = true ->
      (exists r, r ∈ param_pool d /\ use_count r < 2) ->
      exists a l1 l2,
        param_pool d = l1 ++ a :: l2
        /\ use_count a < 2
        /\ (forall r, r ∈ param_pool d -> use_count r < 2 -> use_then_time_le a r)
        /\ (forall r, r ∈ param_pool d -> 2 <= use_count r -> param r <> param a)
        /\ get_and_update_available_param t_cool t_upd d =
             (Some (param a),
              with_param_pool (l1 ++ mark_used (py_int t_upd) a :: l2) d))
  /\ (forall (t : Z) (d : db),
        (param_pool d = [row "A" 0 0; row "B" 1 (t - 10)] ->
         get_and_update_available_param (inject_Z t) (inject_Z t) d =
           (Some "A", with_param_pool [row "A" 1 t; row "B" 1 (t - 10)] d))
        /\ (param_pool d = [row "B" 1 (t - 10); row "A" 0 0] ->
            get_and_update_available_param (inject_Z t) (inject_Z t) d =
              (Some "A", with_param_pool [row "B" 1 (t - 10); row "A" 1 t] d))).
Proof.
  split.
  - intros t_cool t_upd d Hu (r0 & Hr0 & Hfresh0).
    destruct (allocate_cases t_cool t_upd d Hu)
      as [(a & l1 & l2 & Hsplit & Ha & Hmin & Hres)|[[Hex _]|[Hex _]]].
    + exists a, l1, l2. repeat split; try done.
      intros r Hr Hr2 Heq.
      assert (r = a) as ->; [|lia].
      apply (same_param_same_row (param_pool d)); try done.
      rewrite Hsplit. apply elem_of_middle.
    + specialize (Hex r0 Hr0). lia.
    + specialize (Hex r0 Hr0). lia.
  - intros t d. split; intros Hpool.
    + unfold get_and_update_available_param. simpl. rewrite Hpool. simpl.
      by rewrite py_int_inject_Z.
    + unfold get_and_update_available_param. simpl. rewrite Hpool. simpl.
      by rewrite py_int_inject_Z.
Qed.

Lemma C1_fresh_row_preferred_witness :
  unique_params (param_pool (pool_db [row "B" 1 990; row "A" 0 0])) = true
  /\ (exists r, r ∈ param_pool (pool_db [row "B" 1 990; row "A" 0 0])
                /\ use_count r < 2)
  /\ exists a l1 l2,
      param_pool (pool_db [row "B" 1 990; row "A" 0 0]) = l1 ++ a :: l2
      /\ use_count a < 2
      /\ (forall r, r ∈ param_pool (pool_db [row "B" 1 990; row "A" 0 0]) ->
                    use_count r < 2 -> use_then_time_le a r)
      /\ (forall r, r ∈ param_pool (pool_db [row "B" 1 990; row "A" 0 0]) ->
                    2 <= use_count r -> param r <> param a)
      /\ get_and_update_available_param (inject_Z 1000) (inject_Z 1000)
           (pool_db [row "B" 1 990; row "A" 0 0]) =
           (Some (param a),
            with_param_pool (l1 ++ mark_used (py_int (inject_Z 1000)) a :: l2)
              (pool_db [row "B" 1 990; row "A" 0 0])).
Proof.
  assert (unique_params (param_pool (pool_db [row "B" 1 990; row "A" 0 0])) = true)
    as Hu by reflexivity.
  assert (exists r, r ∈ param_pool (pool_db [row "B" 1 990; row "A" 0 0])
                    /\ use_count r < 2) as Hex.
  { exists (row "A" 0 0). split; [|simpl; lia].
    apply elem_of_cons. right. apply elem_of_cons. by left. }
  split; [exact Hu|]. split; [exact Hex|].
  exact (proj1 C1_fresh_row_preferred (inject_Z 1000) (inject_Z 1000) _ Hu Hex).
Defined.

(** C2, as the specification words it, fails on the boundary: a single
    exhausted row last used exactly [COOLDOWN] seconds ago satisfies
    [t - lastUsedAt >= COOLDOWN], yet nothing is allocated. *)
Lemma C2_boundary_counterexample :
  ~ ((forall r, r ∈ param_pool (pool_db [row "C" 2 0]) -> 2 <= use_count r) ->
     (is_Some (fst (get_and_update_available_param (inject_Z 3600) (inject_Z 3600)
                      (pool_db [row "C" 2 0])))
      <-> exists r, r ∈ param_pool (pool_db [row "C" 2 0])
                    /\ 3600 - last_used_timestamp r >= PARAM_REUSE_COOLDOWN_SECONDS)).
Proof.
  intros Hclaim.
  assert (forall r, r ∈ param_pool (pool_db [row "C" 2 0]) -> 2 <= use_count r) as Hex.
  { intros r Hr. apply list_elem_of_singleton in Hr as ->. simpl. lia. }
  destruct (Hclaim Hex) as [_ Hback].
  destruct Hback as [p Hp].
  - exists (row "C" 2 0). split; [by apply list_elem_of_singleton|].
    unfold PARAM_REUSE_COOLDOWN_SECONDS. simpl. lia.
  - vm_compute in Hp. discriminate.
Qed.

(** C2, amended.  When the pool holds no fresh row, the allocation returns a
    row if and only if some row was last used more than [COOLDOWN] seconds
    before the clock reading (strictly: [lastUsedAt < now - COOLDOWN]); the
    row returned is such a row with the smallest last use, its use count is
    incremented (past 2, without a cap) and its last use set to the clock
    reading.  A row whose use count is at least 2 is never returned unless
    more than [COOLDOWN] seconds have passed since its last use.  From the
    single row C (2, t - 7200) the allocation returns C and leaves (3, t). *)
Theorem C2_cooled_row_reused :
  (forall (t_cool t_upd : Q) (d : db),
      unique_params (param_pool d) = true ->
      (forall r, r ∈ param_pool d -> 2 <= use_count r) ->
      (is_Some (fst (get_and_update_available_param t_cool t_upd d))
       <-> exists r, r ∈ param_pool d
             /\ PARAM_REUSE_COOLDOWN_SECONDS < py_int t_cool - last_used_timestamp r)
      /\ (forall p, fst (get_and_update_available_param t_cool t_upd d) = Some p ->
            exists c l1 l2,
              param_pool d = l1 ++ c :: l2
              /\ param c = p
              /\ PARAM_REUSE_COOLDOWN_SECONDS < py_int t_cool - last_used_timestamp c
              /\ (forall r, r ∈ param_pool d ->
                     PARAM_REUSE_COOLDOWN_SECONDS < py_int t_cool - last_used_timestamp r ->
                     last_used_timestamp c <= last_used_timestamp r)
              /\ snd (get_and_update_available_param t_cool t_upd d) =
                   with_param_pool
                     (l1 ++ {| param := p; use_count := use_count c + 1;
                               last_used_timestamp := py_int t_upd |} :: l2) d
              /\ 2 < use_count c + 1))
  /\ (forall (t_cool t_upd : Q) (d : db) (p : string) (r : pool_row),
        unique_params (param_pool d) = true ->
        fst (get_and_update_available_param t_cool t_upd d) = Some p ->
        r ∈ param_pool d -> param r = p -> 2 <= use_count r ->
        PARAM_REUSE_COOLDOWN_SECONDS < py_int t_cool - last_used_timestamp r)
  /\ (forall (t : Z) (d : db),
        param_pool d = [row "C" 2 (t - 7200)] ->
        get_and_update_available_param (inject_Z t) (inject_Z t) d =
          (Some "C", with_param_pool [row "C" 3 t] d)).
Proof.
  split; [|split].
  - intros t_cool t_upd d Hu Hex.
    destruct (allocate_cases t_cool t_upd d Hu)
      as [(a & l1 & l2 & Hsplit & Ha & _)
         |[(_ & c & l1 & l2 & Hsplit & Hcl & Hmin & Hres)|(_ & Hnone & Hres)]].
    + assert (a ∈ param_pool d) as Hin by (rewrite Hsplit; apply elem_of_middle).
      specialize (Hex a Hin). lia.
    + assert (c ∈ param_pool d) as Hin by (rewrite Hsplit; apply elem_of_middle).
      rewrite Hres. simpl. split.
      * split; [|by eexists]. intros _. exists c. split; [done|lia].
      * intros p [= <-]. exists c, l1, l2. repeat split; try done; try lia.
        -- intros r Hr Hrl. apply Hmin; [done|lia].
        -- specialize (Hex c Hin). lia.
    + rewrite Hres. simpl. split.
      * split; [by intros [? ?]|]. intros (r & Hr & Hrl).
        specialize (Hnone r Hr). lia.
      * by intros p.
  - intros t_cool t_upd d p r Hu Hres Hr Hp Hr2.
    destruct (allocate_cases t_cool t_upd d Hu)
      as [(a & l1 & l2 & Hsplit & Ha & _ & Heq)
         |[(_ & c & l1 & l2 & Hsplit & Hcl & _ & Heq)|(_ & _ & Heq)]];
      rewrite Heq in Hres; simpl in Hres.
    + injection Hres as <-.
      assert (r = a) as ->; [|lia].
      apply (same_param_same_row (param_pool d)); try done.
      rewrite Hsplit. apply elem_of_middle.
    + injection Hres as <-.
      assert (r = c) as ->; [|lia].
      apply (same_param_same_row (param_pool d)); try done.
      rewrite Hsplit. apply elem_of_middle.
    + discriminate.
  - intros t d Hpool.
    unfold get_and_update_available_param. simpl. rewrite Hpool. simpl.
    rewrite !py_int_inject_Z. unfold select_cooled, is_cooled. simpl.
    assert ((t - 7200 <? t - PARAM_REUSE_COOLDOWN_SECONDS) = true) as Hlt.
    { apply Z.ltb_lt. unfold PARAM_REUSE_COOLDOWN_SECONDS. lia. }
    rewrite filter_cons_True; [|by simpl; rewrite Hlt].
    done.
Qed.

Lemma C2_cooled_row_reused_witness :
  unique_params (param_pool (pool_db [row "C" 2 2800; row "E" 5 9000])) = true
  /\ (forall r, r ∈ param_pool (pool_db [row "C" 2 2800; row "E" 5 9000]) ->
                2 <= use_count r)
  /\ fst (get_and_update_available_param (inject_Z 10000) (inject_Z 10000)
            (pool_db [row "C" 2 2800; row "E" 5 9000])) = Some "C"
  /\ (is_Some (fst (get_and_update_available_param (inject_Z 10000) (inject_Z 10000)
                      (pool_db [row "C" 2 2800; row "E" 5 9000])))
      <-> exists r, r ∈ param_pool (pool_db [row "C" 2 2800; row "E" 5 9000])
            /\ PARAM_REUSE_COOLDOWN_SECONDS
                 < py_int (inject_Z 10000) - last_used_timestamp r)
  /\ PARAM_REUSE_COOLDOWN_SECONDS
       < py_int (inject_Z 10000) - last_used_timestamp (row "C" 2 2800).
Proof.
  assert (unique_params (param_pool (pool_db [row "C" 2 2800; row "E" 5 9000])) = true)
    as Hu by reflexivity.
  assert (forall r, r ∈ param_pool (pool_db [row "C" 2 2800; row "E" 5 9000]) ->
                    2 <= use_count r) as Hex.
  { intros r Hr. apply elem_of_cons in Hr as [->|Hr]; [simpl; lia|].
    apply list_elem_of_singleton in Hr as ->. simpl. lia. }
  assert (fst (get_and_update_available_param (inject_Z 10000) (inject_Z 10000)
                 (pool_db [row "C" 2 2800; row "E" 5 9000])) = Some "C")
    as Hres by reflexivity.
  assert (row "C" 2 2800 ∈ param_pool (pool_db [row "C" 2 2800; row "E" 5 9000]))
    as Hin by (apply elem_of_cons; by left).
  split; [exact Hu|]. split; [exact Hex|]. split; [exact Hres|]. split.
  - exact (proj1 (proj1 C2_cooled_row_reused (inject_Z 10000) (inject_Z 10000) _ Hu Hex)).
  - exact (proj1 (proj2 C2_cooled_row_reused) (inject_Z 10000) (inject_Z 10000) _
             "C" (row "C" 2 2800) Hu Hres Hin eq_refl ltac:(simpl; lia)).
Defined.

(** C3. When the pool holds no fresh row and no exhausted row whose cooldown
    has elapsed, the allocation returns nothing and the store it leaves is
    the store it found: the transaction is rolled back.  From the single row
    D (2, t - 10) the allocation returns nothing. *)
Theorem C3_nothing_eligible_no_mutation :
  (forall (t_cool t_upd : Q) (d : db),
      (forall r, r ∈ param_pool d ->
         2 <= use_count r
         /\ py_int t_cool - last_used_timestamp r <= PARAM_REUSE_COOLDOWN_SECONDS) ->
      get_and_update_available_param t_cool t_upd d = (None, d))
  /\ (forall (t : Z) (d : db),
        param_pool d = [row "D" 2 (t - 10)] ->
        get_and_update_available_param (inject_Z t) (inject_Z t) d = (None, d)).
Proof.
  assert (forall (t_cool t_upd : Q) (d : db),
      (forall r, r ∈ param_pool d ->
         2 <= use_count r
         /\ py_int t_cool - last_used_timestamp r <= PARAM_REUSE_COOLDOWN_SECONDS) ->
      get_and_update_available_param t_cool t_upd d = (None, d)) as Hgen.
  { intros t_cool t_upd d Hall. apply allocate_none.
    - apply select_fresh_None. intros r Hr. by destruct (Hall r Hr).
    - apply select_cooled_None. intros r Hr _. destruct (Hall r Hr). lia. }
  split; [exact Hgen|].
  intros t d Hpool. apply Hgen. intros r Hr. rewrite Hpool in Hr.
  apply list_elem_of_singleton in Hr as ->. rewrite py_int_inject_Z.
  unfold PARAM_REUSE_COOLDOWN_SECONDS. simpl. lia.
Qed.

Lemma C3_nothing_eligible_no_mutation_witness :
  (forall r, r ∈ param_pool (pool_db [row "D" 2 990; row "F" 3 0]) ->
     2 <= use_count r
     /\ py_int (inject_Z 1000) - last_used_timestamp r <= PARAM_REUSE_COOLDOWN_SECONDS)
  /\ get_and_update_available_param (inject_Z 1000) (inject_Z 1000)
       (pool_db [row "D" 2 990; row "F" 3 0]) =
     (None, pool_db [row "D" 2 990; row "F" 3 0]).
Proof.
  assert (forall r, r ∈ param_pool (pool_db [row "D" 2 990; row "F" 3 0]) ->
     2 <= use_count r
     /\ py_int (inject_Z 1000) - last_used_timestamp r <= PARAM_REUSE_COOLDOWN_SECONDS)
    as Hall.
  { intros r Hr. apply elem_of_cons in Hr as [->|Hr].
    - vm_compute. split; discriminate.
    - apply list_elem_of_singleton in Hr as ->. vm_compute. split; discriminate. }
  split; [exact Hall|].
  exact (proj1 C3_nothing_eligible_no_mutation (inject_Z 1000) (inject_Z 1000) _ Hall).
Defined.

(** ** Inserting parameters *)

Lemma find_row_insert_or_ignore (pool : list pool_row) (p q : string) :
  find_row q (insert_or_ignore pool p) =
  match find_row q pool with
  | Some r => Some r
  | None => if String.eqb p q then Some (row p 0 0) else None
  end.
Proof.
  unfold insert_or_ignore. destruct (has_param p pool) eqn:Hp.
  - destruct (find_row q pool) eqn:Hq; [done|].
    destruct (String.eqb p q) eqn:E; [|done].
    apply String.eqb_eq in E as ->. apply find_row_None in Hq. congruence.
  - rewrite find_row_app. destruct (find_row q pool); [done|].
    unfold find_row. simpl. by destruct (String.eqb p q).
Qed.

Lemma unique_params_snoc (pool : list pool_row) (x : pool_row) :
  unique_params pool = true -> has_param (param x) pool = false ->
  unique_params (pool ++ [x]) = true.
Proof.
  induction pool as [|r rest IH]; simpl; intros Hu Hx; [done|].
  apply andb_true_iff in Hu as [Hr Hrest]. apply orb_false_iff in Hx as [Hrx Hx].
  apply andb_true_iff. split; [|by apply IH].
  rewrite has_param_app. apply negb_true_iff in Hr. rewrite Hr. simpl.
  rewrite String.eqb_sym, Hrx. done.
Qed.

Lemma unique_params_insert_or_ignore (pool : list pool_row) (p : string) :
  unique_params pool = true -> unique_params (insert_or_ignore pool p) = true.
Proof.
  intros Hu. unfold insert_or_ignore. destruct (has_param p pool) eqn:Hp; [done|].
  by apply unique_params_snoc.
Qed.

Lemma unique_params_inserts (params : list string) (pool : list pool_row) :
  unique_params pool = true ->
  unique_params (fold_left insert_or_ignore params pool) = true.
Proof.
  revert pool. induction params as [|p params IH]; simpl; intros pool Hu; [done|].
  apply IH. by apply unique_params_insert_or_ignore.
Qed.

Lemma find_row_inserts_old (params : list string) (pool : list pool_row)
    (q : string) (r : pool_row) :
  find_row q pool = Some r ->
  find_row q (fold_left insert_or_ignore params pool) = Some r.
Proof.
  revert pool. induction params as [|p params IH]; simpl; intros pool Hq; [done|].
  apply IH. by rewrite find_row_insert_or_ignore, Hq.
Qed.

Lemma find_row_inserts_new (params : list string) (pool : list pool_row) (q : string) :
  find_row q pool = None -> q ∈ params ->
  find_row q (fold_left insert_or_ignore params pool) = Some (row q 0 0).
Proof.
  revert pool. induction params as [|p params IH]; simpl; intros pool Hq Hin.
  - by apply elem_of_nil in Hin.
  - destruct (String.eqb p q) eqn:E.
    + apply String.eqb_eq in E as ->. apply find_row_inserts_old.
      by rewrite find_row_insert_or_ignore, Hq, String.eqb_refl.
    + apply IH.
      * by rewrite find_row_insert_or_ignore, Hq, E.
      * apply elem_of_cons in Hin as [->|Hin]; [|done].
        by rewrite String.eqb_refl in E.
Qed.

Lemma find_row_inserts_other (params : list string) (pool : list pool_row) (q : string) :
  find_row q pool = None -> q ∉ params ->
  find_row q (fold_left insert_or_ignore params pool) = None.
Proof.
  revert pool. induction params as [|p params IH]; simpl; intros pool Hq Hin; [done|].
  apply not_elem_of_cons in Hin as [Hne Hin]. apply IH; [|done].
  rewrite find_row_insert_or_ignore, Hq.
  destruct (String.eqb p q) eqn:E; [|done]. apply String.eqb_eq in E. congruence.
Qed.

Lemma inserts_all_present (params : list string) (pool : list pool_row) :
  (forall p, p ∈ params -> has_param p pool = true) ->
  fold_left insert_or_ignore params pool = pool.
Proof.
  induction params as [|p params IH]; simpl; intros Hall; [done|].
  unfold insert_or_ignore at 2. rewrite Hall; [|apply elem_of_cons; by left].
  apply IH. intros q Hq. apply Hall. apply elem_of_cons. by right.
Qed.

Lemma has_param_inserts (params : list string) (pool : list pool_row) (p : string) :
  p ∈ params -> has_param p (fold_left insert_or_ignore params pool) = true.
Proof.
  intros Hin. destruct (has_param p (fold_left insert_or_ignore params pool)) eqn:E; [done|].
  apply find_row_None in E. destruct (find_row p pool) as [r|] eqn:Hp.
  - by rewrite (find_row_inserts_old _ _ _ _ Hp) in E.
  - by rewrite (find_row_inserts_new _ _ _ Hp Hin) in E.
Qed.

Lemma count_rows_unique (pool : list pool_row) (p : string) :
  unique_params pool = true ->
  count_rows p pool = if has_param p pool then 1%nat else 0%nat.
Proof.
  unfold count_rows. induction pool as [|r rest IH]; simpl; intros Hu; [done|].
  apply andb_true_iff in Hu as [Hr Hrest]. apply negb_true_iff in Hr.
  rewrite filter_cons. destruct (decide (param r = p)) as [<-|Hne].
  - rewrite String.eqb_refl. simpl. rewrite (IH Hrest), Hr. done.
  - apply String.eqb_neq in Hne. rewrite Hne. simpl. by apply IH.
Qed.

Lemma find_row_has_param (pool : list pool_row) (p : string) (r : pool_row) :
  find_row p pool = Some r -> has_param p pool = true.
Proof.
  intros H. destruct (has_param p pool) eqn:E; [done|].
  apply find_row_None in E. congruence.
Qed.

(** C5. [add_new_params] is idempotent.  A parameter that already has a row
    keeps that row, with its use count and last use, and has exactly one row
    afterwards; a parameter that has none gets exactly one row, with use
    count 0 and last use 0; inserting the same parameters a second time
    changes nothing. *)
Theorem C5_add_new_params_idempotent :
  forall (params : list string) (d : db),
    unique_params (param_pool d) = true ->
    (forall p r, find_row p (param_pool d) = Some r ->
       find_row p (param_pool (add_new_params params d)) = Some r
       /\ count_rows p (param_pool (add_new_params params d)) = 1%nat)
    /\ (forall p, p ∈ params -> find_row p (param_pool d) = None ->
          find_row p (param_pool (add_new_params params d)) =
            Some {| param := p; use_count := 0; last_used_timestamp := 0 |}
          /\ count_rows p (param_pool (add_new_params params d)) = 1%nat)
    /\ (forall p, p ∉ params -> find_row p (param_pool d) = None ->
          find_row p (param_pool (add_new_params params d)) = None)
    /\ add_new_params params (add_new_params params d) = add_new_params params d
    /\ api_cache (add_new_params params d) = api_cache d.
Proof.
  intros params d Hu.
  pose proof (unique_params_inserts params _ Hu) as Hu'.
  repeat split.
  - by apply find_row_inserts_old.
  - simpl. rewrite count_rows_unique; [|done].
    by rewrite (find_row_has_param _ _ r (find_row_inserts_old params _ _ _ H)).
  - simpl. by apply find_row_inserts_new.
  - simpl. rewrite count_rows_unique; [|done]. by rewrite has_param_inserts.
  - intros p Hp Hnone. simpl. by apply find_row_inserts_other.
  - unfold add_new_params at 1 3. simpl. unfold with_param_pool. simpl. f_equal.
    apply inserts_all_present. intros p Hp. by apply has_param_inserts.
Qed.

Lemma C5_add_new_params_idempotent_witness :
  unique_params (param_pool (pool_db [row "b" 2 5])) = true
  /\ find_row "b" (param_pool (add_new_params ["a"; "b"; "a"] (pool_db [row "b" 2 5])))
       = Some (row "b" 2 5)
  /\ add_new_params ["a"; "b"; "a"]
       (add_new_params ["a"; "b"; "a"] (pool_db [row "b" 2 5])) =
     add_new_params ["a"; "b"; "a"] (pool_db [row "b" 2 5]).
Proof.
  assert (unique_params (param_pool (pool_db [row "b" 2 5])) = true) as Hu
    by reflexivity.
  split; [exact Hu|]. split.
  - exact (proj1 (proj1 (C5_add_new_params_idempotent ["a"; "b"; "a"] _ Hu)
                    "b" (row "b" 2 5) eq_refl)).
  - exact (proj1 (proj2 (proj2 (proj2
             (C5_add_new_params_idempotent ["a"; "b"; "a"] _ Hu))))).
Defined.

Lemma has_param_update_used (now : Z) (p q : string) (pool : list pool_row) :
  has_param q (update_used now p pool) = has_param q pool.
Proof.
  induction pool as [|r rest IH]; [done|].
  rewrite update_used_cons. unfold has_param in *. simpl. rewrite IH.
  by destruct (String.eqb (param r) p).
Qed.

(** The parameter an allocation returns has a row in the store it leaves. *)
Lemma allocate_returns_row (t_cool t_upd : Q) (d : db) (p : string) :
  fst (get_and_update_available_param t_cool t_upd d) = Some p ->
  has_param p (param_pool (snd (get_and_update_available_param t_cool t_upd d))) = true.
Proof.
  unfold get_and_update_available_param. simpl.
  destruct (select_fresh (param_pool d)) as [q|] eqn:Hfresh.
  - simpl. intros [= ->]. rewrite has_param_update_used.
    destruct (select_fresh_Some _ _ Hfresh) as (a & Hin & Ha & _).
    apply has_param_true. eauto.
  - destruct (select_cooled _ (param_pool d)) as [q|] eqn:Hcool; [|done].
    simpl. intros [= ->]. rewrite has_param_update_used.
    destruct (select_cooled_Some _ _ _ Hcool) as (c & Hin & Hc & _).
    apply has_param_true. eauto.
Qed.

(** ** Histories of store operations *)

Lemma find_row_update_used (now : Z) (p q : string) (pool : list pool_row) :
  find_row q (update_used now p pool) =
  (fun r => if String.eqb q p then mark_used now r else r) <$> find_row q pool.
Proof.
  induction pool as [|r rest IH]; [done|].
  rewrite update_used_cons. unfold find_row in *. simpl.
  destruct (String.eqb (param r) p) eqn:Hp; simpl.
  - destruct (String.eqb (param r) q) eqn:Hq; simpl.
    + apply String.eqb_eq in Hp, Hq. subst. by rewrite String.eqb_refl.
    + exact IH.
  - destruct (String.eqb (param r) q) eqn:Hq; simpl.
    + apply String.eqb_eq in Hq. subst. by rewrite Hp.
    + exact IH.
Qed.

Lemma allocate_result (t_cool t_upd : Q) (d : db) :
  get_and_update_available_param t_cool t_upd d = (None, d)
  \/ exists p,
      get_and_update_available_param t_cool t_upd d =
        (Some p, with_param_pool (update_used (py_int t_upd) p (param_pool d)) d).
Proof.
  unfold get_and_update_available_param. simpl.
  destruct (select_fresh (param_pool d)) as [p|]; [right; by exists p|].
  destruct (select_cooled _ (param_pool d)) as [p|]; [right; by exists p|].
  by left.
Qed.

Lemma allocate_keeps_cache (t_cool t_upd : Q) (d : db) :
  api_cache (snd (get_and_update_available_param t_cool t_upd d)) = api_cache d.
Proof.
  destruct (allocate_result t_cool t_upd d) as [->|[p ->]]; done.
Qed.

Lemma unique_params_step {V} (dumps : V -> bytes) (op : store_op V) (d : db) :
  unique_params (param_pool d) = true ->
  unique_params (param_pool (step dumps op d)) = true.
Proof.
  intros Hu. destruct op as [| | params | |t_cool t_upd]; simpl; try done.
  - by apply unique_params_inserts.
  - destruct (allocate_result t_cool t_upd d) as [->|[p ->]]; simpl; [done|].
    by rewrite update_used_unique_params.
Qed.

(** One operation, seen from one row. *)
Lemma step_row {V} (dumps : V -> bytes) (op : store_op V) (d : db)
    (p : string) (r : pool_row) :
  find_row p (param_pool d) = Some r ->
  exists r',
    find_row p (param_pool (step dumps op d)) = Some r'
    /\ (forall t_cool t_upd,
          op = OpAllocate t_cool t_upd ->
          fst (get_and_update_available_param t_cool t_upd d) = Some p ->
          r' = mark_used (py_int t_upd) r)
    /\ ((forall t_cool t_upd,
           op = OpAllocate t_cool t_upd ->
           fst (get_and_update_available_param t_cool t_upd d) <> Some p) ->
        r' = r).
Proof.
  intros Hr. destruct op as [| | params | |t_cool t_upd]; simpl.
  - exists r. split; [done|]. split; [intros; discriminate|done].
  - exists r. split; [done|]. split; [intros; discriminate|done].
  - exists r. split; [by apply find_row_inserts_old|].
    split; [intros; discriminate|done].
  - exists r. split; [done|]. split; [intros; discriminate|done].
  - destruct (allocate_result t_cool t_upd d) as [Hres|[q Hres]].
    + rewrite Hres. simpl. exists r. split; [done|]. split; [|done].
      intros t1 t2 [= <- <-]. by rewrite Hres.
    + rewrite Hres. simpl. rewrite find_row_update_used, Hr. simpl.
      eexists. split; [done|]. split.
      * intros t1 t2 [= <- <-]. rewrite Hres. simpl. intros [= ->].
        by rewrite String.eqb_refl.
      * intros Hnot. specialize (Hnot t_cool t_upd eq_refl).
        rewrite Hres in Hnot. simpl in Hnot.
        destruct (String.eqb p q) eqn:E; [|done].
        apply String.eqb_eq in E. congruence.
Qed.

Lemma step_row_monotone {V} (dumps : V -> bytes) (op : store_op V) (d : db)
    (p : string) (r : pool_row) :
  find_row p (param_pool d) = Some r ->
  exists r',
    find_row p (param_pool (step dumps op d)) = Some r'
    /\ (use_count r' = use_count r \/ use_count r' = use_count r + 1).
Proof.
  intros Hr. destruct (step_row dumps op d p r Hr) as (r' & Hr' & Hsel & Hnot).
  exists r'. split; [done|].
  destruct op as [| | params | |t_cool t_upd];
    try (left; f_equal; apply Hnot; discriminate).
  destruct (decide (fst (get_and_update_available_param t_cool t_upd d) = Some p))
    as [Hp|Hp].
  - right. by rewrite (Hsel _ _ eq_refl Hp).
  - left. f_equal. apply Hnot. by intros t1 t2 [= <- <-].
Qed.

(** C4. A row enters the pool with use count 0, and across every history of
    store operations its use count never decreases: an operation changes it
    only if it is an allocation that selects this row, and then by exactly
    one; [add_new_params] leaves an existing row as it is. *)
Theorem C4_use_count_monotone :
  forall (V : Type) (dumps : V -> bytes),
    (forall params d p,
        find_row p (param_pool d) = None -> p ∈ params ->
        exists r, find_row p (param_pool (add_new_params params d)) = Some r
                  /\ use_count r = 0)
    /\ (forall params d p r,
          find_row p (param_pool d) = Some r ->
          find_row p (param_pool (add_new_params params d)) = Some r)
    /\ (forall (op : store_op V) d p r,
          find_row p (param_pool d) = Some r ->
          exists r',
            find_row p (param_pool (step dumps op d)) = Some r'
            /\ (forall t_cool t_upd,
                  op = OpAllocate t_cool t_upd ->
                  fst (get_and_update_available_param t_cool t_upd d) = Some p ->
                  use_count r' = use_count r + 1)
            /\ ((forall t_cool t_upd,
                   op = OpAllocate t_cool t_upd ->
                   fst (get_and_update_available_param t_cool t_upd d) <> Some p) ->
                use_count r' = use_count r))
    /\ (forall (ops : list (store_op V)) d p r,
          find_row p (param_pool d) = Some r ->
          exists r',
            find_row p (param_pool (run dumps ops d)) = Some r'
            /\ use_count r <= use_count r').
Proof.
  intros V dumps. repeat split.
  - intros params d p Hnone Hin. eexists. split.
    + simpl. by apply find_row_inserts_new.
    + done.
  - intros params d p r Hr. simpl. by apply find_row_inserts_old.
  - intros op d p r Hr.
    destruct (step_row dumps op d p r Hr) as (r' & Hr' & Hsel & Hnot).
    exists r'. split; [done|]. split.
    + intros t_cool t_upd Hop Hp. by rewrite (Hsel _ _ Hop Hp).
    + intros Hno. by rewrite (Hnot Hno).
  - intros ops. induction ops as [|op ops IH]; intros d p r Hr.
    + exists r. split; [done|lia].
    + destruct (step_row_monotone dumps op d p r Hr) as (r1 & Hr1 & Hmono).
      destruct (IH (step dumps op d) p r1 Hr1) as (r' & Hr' & Hle).
      exists r'. split; [done|]. lia.
Qed.

Lemma C4_use_count_monotone_witness :
  find_row "b" (param_pool (pool_db [row "b" 1 5])) = Some (row "b" 1 5)
  /\ exists r',
      find_row "b"
        (param_pool
           (run (fun v : bytes => v)
              [OpAddNewParams ["a"; "b"]; OpAllocate (inject_Z 10) (inject_Z 10);
               OpSet (inject_Z 11) "k" []; OpAllocate (inject_Z 12) (inject_Z 12);
               OpAllocate (inject_Z 13) (inject_Z 13)]
              (pool_db [row "b" 1 5]))) = Some r'
      /\ use_count (row "b" 1 5) <= use_count r'.
Proof.
  split; [reflexivity|].
  exact (proj2 (proj2 (proj2 (C4_use_count_monotone bytes (fun v => v))))
           [OpAddNewParams ["a"; "b"]; OpAllocate (inject_Z 10) (inject_Z 10);
            OpSet (inject_Z 11) "k" []; OpAllocate (inject_Z 12) (inject_Z 12);
            OpAllocate (inject_Z 13) (inject_Z 13)]
           (pool_db [row "b" 1 5]) "b" (row "b" 1 5) eq_refl).
Defined.

(** ** The response cache *)

Section cache_round_trip.

Context {V : Type}.
Variable py_None : V.
Variable dumps : V -> bytes.
Variable loads : bytes -> V.

(** What [orjson] promises for JSON documents. *)
Hypothesis loads_dumps : forall v, loads (dumps v) = v.

(** C6. After [set k v] at clock reading [t_set] the entry is stamped
    [int(t_set)]; [get k] returns [v] at every reading [now] with
    [now - storedAt < TTL] (3000 s) and returns [None] at every other
    reading, which is also what it returns for a key that has no entry. *)
Theorem C6_cache_round_trip :
  forall (t_set now : Q) (k : string) (v : V) (d : db),
    api_cache (set dumps t_set k v d) !! k = Some (dumps v, py_int t_set)
    /\ ((now - inject_Z (py_int t_set) < inject_Z CACHE_TTL_SECONDS)%Q ->
        get py_None loads now k (set dumps t_set k v d) = v)
    /\ (~ (now - inject_Z (py_int t_set) < inject_Z CACHE_TTL_SECONDS)%Q ->
        get py_None loads now k (set dumps t_set k v d) = py_None)
    /\ (forall d', api_cache d' !! k = None -> get py_None loads now k d' = py_None).
Proof.
  intros t_set now k v d.
  assert (api_cache (set dumps t_set k v d) !! k = Some (dumps v, py_int t_set))
    as Hstored by (simpl; apply lookup_insert_eq).
  split; [exact Hstored|]. repeat split.
  - intros Hlive. unfold get. simpl connect. simpl working. rewrite Hstored.
    apply Qltb_lt in Hlive. rewrite Hlive. apply loads_dumps.
  - intros Hdead. unfold get. simpl connect. simpl working. rewrite Hstored.
    apply Qltb_nlt in Hdead. by rewrite Hdead.
  - intros d' Hnone. unfold get. simpl. by rewrite Hnone.
Qed.

End cache_round_trip.

Lemma C6_cache_round_trip_witness :
  (forall v : bytes, (fun b : bytes => b) ((fun b : bytes => b) v) = v)
  /\ get [] (fun b : bytes => b) (2999 # 1) "k"
       (set (fun b : bytes => b) (1 # 2) "k" [Byte.x7b; Byte.x7d] empty_db)
     = [Byte.x7b; Byte.x7d]
  /\ get [] (fun b : bytes => b) (3000 # 1) "k"
       (set (fun b : bytes => b) (1 # 2) "k" [Byte.x7b; Byte.x7d] empty_db)
     = [].
Proof.
  assert (forall v : bytes, (fun b : bytes => b) ((fun b : bytes => b) v) = v)
    as Hcodec by reflexivity.
  split; [exact Hcodec|]. split.
  - apply (proj1 (proj2 (C6_cache_round_trip [] (fun b => b) (fun b => b) Hcodec
             (1 # 2) (2999 # 1) "k" [Byte.x7b; Byte.x7d] empty_db))).
    vm_compute. reflexivity.
  - apply (proj1 (proj2 (proj2 (C6_cache_round_trip [] (fun b => b) (fun b => b) Hcodec
             (1 # 2) (3000 # 1) "k" [Byte.x7b; Byte.x7d] empty_db)))).
    vm_compute. discriminate.
Defined.

End cache_manager_spec.

(** * Properties of the security manager *)

Module camp_security_spec.

Import cache_manager camp_security cache_manager_spec.

Ltac unfold_M :=
  unfold modify_sm, of_env, decoded in *;
  unfold try_except, bind, get_sm, put_sm, log, raise, ret in *.

Lemma writes_app (a b : list event) : writes (a ++ b) = (writes a + writes b)%nat.
Proof. unfold writes. by rewrite List.filter_app, length_app. Qed.

Lemma allocations_app (a b : list event) :
  allocations (a ++ b) = (allocations a + allocations b)%nat.
Proof. unfold allocations. by rewrite List.filter_app, length_app. Qed.

Lemma appends_refl (w : world) : appends w w [].
Proof. unfold appends. split_and!; try done. by rewrite app_nil_r. Qed.

Lemma appends_trans (w w1 w2 : world) (a b : list event) :
  appends w w1 a -> appends w1 w2 b -> appends w w2 (a ++ b).
Proof.
  unfold appends. intros (? & ? & ? & ? & ? & ? & Ha) (? & ? & ? & ? & ? & ? & Hb).
  split_and!; try congruence. by rewrite Hb, Ha, app_assoc.
Qed.

Ltac close_appends :=
  unfold appends; simpl; split_and!; try done;
  first [ by rewrite app_nil_r | by rewrite <- ?app_assoc ].

Section daemon_spec.

Variable decode : bytes -> option string.
Variable json_loads : bytes -> option (list string).

(** Starting the daemon writes nothing to its pipe and runs no
    transaction. *)
Lemma start_appends (e : start_env) (w : world) (r : outcome unit) (w' : world) :
  _start_daemon decode e w = (r, w') ->
  exists tr, appends w w' tr /\ writes tr = 0%nat /\ allocations tr = 0%nat.
Proof.
  unfold _start_daemon. unfold_M. intros H.
  repeat (case_match; simplify_eq/=);
    eexists; (split; [close_appends|]); done.
Qed.

(** One batch request: at most one command is written and no transaction
    is run. *)
Lemma fetch_appends (e : request_env) (w : world) (r : outcome (list string))
    (w' : world) :
  _fetch_new_params_from_daemon decode json_loads e w = (r, w') ->
  exists tr, appends w w' tr /\ (writes tr <= 1)%nat /\ allocations tr = 0%nat.
Proof.
  unfold _fetch_new_params_from_daemon. unfold_M. intros H.
  repeat (case_match; simplify_eq/=);
    repeat match goal with
    | Hs : _start_daemon _ _ _ = _ |- _ =>
        apply start_appends in Hs as (tr0 & Hs & Hw0 & Ha0)
    end.
  all: try (eexists; split;
            [eapply appends_trans; [eassumption|close_appends]
            |rewrite writes_app, allocations_app, Hw0, Ha0; simpl; split; (done || lia)]).
  all: try (eexists; (split; [close_appends|]); simpl; split; (done || lia)).
  exists tr0. rewrite Hw0. split_and!; (done || lia).
Qed.

(** A start that succeeds: the path is known or provisioned, the process is
    spawned and its first line is the readiness token. *)
Lemma start_healthy (e : start_env) (w : world) (path ready : string) (child : nat) :
  proc_running (sm w) = false ->
  match _executable_path (sm w) with
  | Some known => inr known
  | None => executable e
  end = inr path ->
  spawned e = inr child ->
  decode (ready_signal e) = Some ready ->
  strip ready = "READY" ->
  exists ws,
    _start_daemon decode e w = (Return tt, ws)
    /\ store ws = store w
    /\ cluster_size (sm ws) = cluster_size (sm w)
    /\ _proc (sm ws) = Some {| pid := child; returncode := None |}
    /\ _executable_path (sm ws) = Some path
    /\ trace ws = trace w ++ [Spawn path child; ReadReady].
Proof.
  intros Hrun Hpath Hspawn Hready Hstrip.
  unfold _start_daemon. unfold_M. rewrite Hrun.
  destruct (_executable_path (sm w)) as [known|] eqn:Hknown.
  - injection Hpath as ->. simpl. rewrite Hspawn. simpl. rewrite Hready. simpl.
    rewrite Hstrip. simpl. eexists. split; [reflexivity|]. simpl.
    split_and!; try done. by rewrite <- !app_assoc.
  - rewrite Hpath. simpl. rewrite Hspawn. simpl. rewrite Hready. simpl.
    rewrite Hstrip. simpl. eexists. split; [reflexivity|]. simpl.
    split_and!; try done. by rewrite <- !app_assoc.
Qed.

(** After a start that succeeded, the request proceeds as on a running
    daemon. *)
Lemma fetch_after_start (e : request_env) (w ws : world) :
  proc_running (sm w) = false ->
  _start_daemon decode (start e) w = (Return tt, ws) ->
  proc_running (sm ws) = true ->
  _fetch_new_params_from_daemon decode json_loads e w =
  _fetch_new_params_from_daemon decode json_loads e ws.
Proof.
  intros Hrun Hstart Hrun'.
  unfold _fetch_new_params_from_daemon.
  cbv beta iota zeta delta [bind get_sm]. rewrite Hrun, Hrun'. cbn [negb].
  rewrite Hstart. done.
Qed.

(** A request on a running daemon whose answer is the empty line or has no
    start-of-array marker. *)
Lemma fetch_unreadable (e : request_env) (w : world) (p : process) :
  _proc (sm w) = Some p -> returncode p = None ->
  drained e = None ->
  output_line e = [] \/ find Byte.x5b (output_line e) = -1 ->
  exists ex,
    _fetch_new_params_from_daemon decode json_loads e w =
      (Raise ex,
       {| store := store w;
          sm := with_proc None (sm w);
          trace := trace w
                   ++ [Write (cluster_command (sm w)); Readline]
                   ++ match output_line e with [] => [ReadStderr] | _ => [] end
                   ++ (if alive_at_kill e then [Kill (pid p); Wait (pid p)] else []) |})
    /\ matches ex [RuntimeError; ValueError] = true.
Proof.
  intros Hp Hrc Hd Hline.
  unfold _fetch_new_params_from_daemon, cluster_command. unfold_M.
  unfold proc_running. rewrite Hp, Hrc. simpl. rewrite Hd.
  destruct (output_line e) as [|c rest] eqn:Hout.
  - destruct (decode (stderr_rest e)); simpl; rewrite Hp;
      destruct (alive_at_kill e); simpl; eexists;
      (split; [by rewrite <- ?app_assoc, ?app_nil_r | reflexivity]).
  - destruct Hline as [|Hfind]; [done|]. rewrite Hfind. simpl.
    destruct (decode (c :: rest)); simpl; rewrite Hp;
      destruct (alive_at_kill e); simpl; eexists;
      (split; [by rewrite <- ?app_assoc, ?app_nil_r | reflexivity]).
Qed.

(** A request on a running daemon that answers with a batch. *)
Lemma fetch_answered (e : request_env) (w : world) (params : list string) :
  proc_running (sm w) = true ->
  drained e = None ->
  0 <= find Byte.x5b (output_line e) ->
  json_loads (drop (Z.to_nat (find Byte.x5b (output_line e))) (output_line e))
    = Some params ->
  _fetch_new_params_from_daemon decode json_loads e w =
    (Return params,
     {| store := store w; sm := sm w;
        trace := trace w ++ [Write (cluster_command (sm w)); Readline] |}).
Proof.
  intros Hrun Hd Hfind Hjson.
  assert ((find Byte.x5b (output_line e) =? -1) = false) as Hne
    by (apply Z.eqb_neq; lia).
  unfold _fetch_new_params_from_daemon, cluster_command. unfold_M.
  rewrite Hrun. simpl. rewrite Hd. simpl.
  destruct (output_line e) as [|c rest] eqn:Hout; [simpl in Hfind; lia|].
  rewrite Hne, Hjson. by rewrite <- app_assoc.
Qed.

(** A request when no running process is held and the daemon then behaves:
    it is started first, and the request goes to the new process. *)
Lemma fetch_restarts (e : request_env) (w : world) (path ready : string)
    (child : nat) (params : list string) :
  proc_running (sm w) = false ->
  match _executable_path (sm w) with
  | Some known => inr known
  | None => executable (start e)
  end = inr path ->
  spawned (start e) = inr child ->
  decode (ready_signal (start e)) = Some ready ->
  strip ready = "READY" ->
  drained e = None ->
  0 <= find Byte.x5b (output_line e) ->
  json_loads (drop (Z.to_nat (find Byte.x5b (output_line e))) (output_line e))
    = Some params ->
  exists w',
    _fetch_new_params_from_daemon decode json_loads e w = (Return params, w')
    /\ store w' = store w
    /\ _proc (sm w') = Some {| pid := child; returncode := None |}
    /\ trace w' = trace w ++ [Spawn path child; ReadReady;
                              Write (cluster_command (sm w)); Readline].
Proof.
  intros Hrun Hpath Hspawn Hready Hstrip Hd Hfind Hjson.
  destruct (start_healthy _ _ _ _ _ Hrun Hpath Hspawn Hready Hstrip)
    as (ws & Hstart & Hstore & Hsize & Hproc & _ & Htrace).
  assert (proc_running (sm ws) = true) as Hrun'
    by (unfold proc_running; by rewrite Hproc).
  rewrite (fetch_after_start _ _ _ Hrun Hstart Hrun').
  rewrite (fetch_answered _ _ _ Hrun' Hd Hfind Hjson).
  eexists. split; [reflexivity|]. simpl. split_and!; try done.
  unfold cluster_command. rewrite Htrace, Hsize, <- app_assoc. done.
Qed.


Ltac unfold_db :=
  unfold db_get_and_update_available_param, db_add_new_params,
    db_get_available_param_uses_count in *.

(** The low-water-mark check always returns; it creates a task exactly
    when the supply is low, no warm-up is running, the daemon is running and
    no earlier task is still pending. *)
Lemma background_refill_spec (w : world) :
  let available := get_available_param_uses_count (store w) in
  background_refill w =
    (Return tt,
     if (available <? low_water_mark (sm w)) && negb (_is_warming_up (sm w))
        && proc_running (sm w) && negb (task_pending (_warmup_task (sm w)))
     then {| store := store w;
             sm := with_warmup_task (Some {| done := false |}) (sm w);
             trace := trace w ++ [DbCount available; CreateTask] |}
     else {| store := store w; sm := sm w;
             trace := trace w ++ [DbCount available] |}).
Proof.
  unfold background_refill, trigger_warmup. unfold_db. unfold_M. simpl.
  destruct (_ <? _), (_is_warming_up (sm w)), (proc_running (sm w)); simpl; try done.
  destruct (_warmup_task (sm w)) as [[[]]|]; simpl; try done;
    by rewrite <- app_assoc.
Qed.

Lemma not_param_false (r : option string) :
  not_param r = false -> r = Some (the_param r) /\ the_param r <> EmptyString.
Proof. destruct r as [[|c s]|]; simpl; intros H; try discriminate. done. Qed.

Lemma emergency_fetch_spec (e : headers_env) (w : world)
    (r : outcome (list string)) (w2 : world) :
  _fetch_new_params_from_daemon decode json_loads (refill e) w = (r, w2) ->
  emergency_fetch decode json_loads e w =
  match r with
  | Raise ex => (Raise ex, w2)
  | Return [] => (Raise RuntimeError, w2)
  | Return (b :: bs) =>
      let second :=
        get_and_update_available_param (fst (clock_2 e)) (snd (clock_2 e))
          (add_new_params (b :: bs) (store w2)) in
      let w3 := {| store := snd second; sm := sm w2;
                   trace := trace w2 ++ [DbAddParams (b :: bs); DbAllocate (fst second)] |} in
      if not_param (fst second) then (Raise RuntimeError, w3)
      else (Return (fst second), w3)
  end.
Proof.
  intros Hfetch. unfold emergency_fetch. unfold bind at 1. rewrite Hfetch.
  destruct r as [[|b bs]|ex]; try done.
  unfold_db. unfold_M. simpl.
  destruct (get_and_update_available_param _ _ _) as [p d]. simpl.
  rewrite <- app_assoc. by destruct (not_param p).
Qed.

(** [get_headers] when the first allocation yields a usable parameter. *)
Lemma get_headers_direct (e : headers_env) (w : world) :
  let first :=
    get_and_update_available_param (fst (clock_1 e)) (snd (clock_1 e)) (store w) in
  not_param (fst first) = false ->
  get_headers decode json_loads e w =
    (Return {| specialencodeparam := the_param (fst first);
               traceparent := _generate_traceparent (trace_id e) (span_id e) |},
     snd (background_refill
            {| store := snd first; sm := sm w;
               trace := trace w ++ [DbAllocate (fst first)] |})).
Proof.
  intros first Hp. unfold get_headers. unfold_db. unfold bind at 1.
  fold first. destruct first as [p d]. simpl in *. unfold bind at 1. rewrite Hp.
  unfold ret at 1. unfold bind at 1. rewrite background_refill_spec. done.
Qed.

(** [get_headers] when the first allocation yields nothing usable. *)
Lemma get_headers_emergency (e : headers_env) (w : world) :
  let first :=
    get_and_update_available_param (fst (clock_1 e)) (snd (clock_1 e)) (store w) in
  not_param (fst first) = true ->
  get_headers decode json_loads e w =
    match emergency_fetch decode json_loads e
            {| store := snd first; sm := sm w;
               trace := trace w ++ [DbAllocate (fst first)] |} with
    | (Return param, w3) =>
        (Return {| specialencodeparam := the_param param;
                   traceparent := _generate_traceparent (trace_id e) (span_id e) |},
         snd (background_refill w3))
    | (Raise ex, w3) => (Raise ex, w3)
    end.
Proof.
  intros first Hp. unfold get_headers. unfold_db. unfold bind at 1.
  fold first. destruct first as [p d]. simpl in *. unfold bind at 1. rewrite Hp.
  destruct (emergency_fetch _ _ _ _) as [[param|ex] w3]; [|done].
  unfold bind at 1. rewrite background_refill_spec. done.
Qed.

Lemma background_refill_appends (w : world) :
  store (snd (background_refill w)) = store w
  /\ _is_warming_up (sm (snd (background_refill w))) = _is_warming_up (sm w)
  /\ low_water_mark (sm (snd (background_refill w))) = low_water_mark (sm w)
  /\ _proc (sm (snd (background_refill w))) = _proc (sm w)
  /\ writes (trace (snd (background_refill w))) = writes (trace w)
  /\ allocations (trace (snd (background_refill w))) = allocations (trace w).
Proof.
  rewrite background_refill_spec. simpl.
  destruct (_ && _); simpl; rewrite writes_app, allocations_app; simpl;
    split_and!; (done || lia).
Qed.

(** C7, amended.  [get_headers] returns the result of the first allocation
    when that is a non-empty string, without any request to the daemon.
    When the first allocation returns nothing or the empty string, it makes
    one batch request; an error of that request is raised to the caller, an
    empty batch raises [RuntimeError]; otherwise the batch is inserted with
    [add_new_params] and one more allocation is run, whose result is returned
    when it is a non-empty string and raises [RuntimeError] otherwise.  No
    call writes more than one request or runs more than two allocations, and
    a call that succeeds returns a non-empty parameter that has a row in the
    store. *)
Theorem C7_emergency_refill :
  forall (e : headers_env) (w : world),
    let first :=
      get_and_update_available_param (fst (clock_1 e)) (snd (clock_1 e)) (store w) in
    let w1 := {| store := snd first; sm := sm w;
                 trace := trace w ++ [DbAllocate (fst first)] |} in
    (not_param (fst first) = false ->
       exists w',
         get_headers decode json_loads e w =
           (Return {| specialencodeparam := the_param (fst first);
                      traceparent := _generate_traceparent (trace_id e) (span_id e) |},
            w')
         /\ fst first = Some (the_param (fst first))
         /\ store w' = snd first
         /\ writes (trace w') = writes (trace w)
         /\ allocations (trace w') = S (allocations (trace w)))
    /\ (not_param (fst first) = true ->
        forall r w2,
          _fetch_new_params_from_daemon decode json_loads (refill e) w1 = (r, w2) ->
          match r with
          | Raise ex => get_headers decode json_loads e w = (Raise ex, w2)
          | Return [] => get_headers decode json_loads e w = (Raise RuntimeError, w2)
          | Return (b :: bs) =>
              let second :=
                get_and_update_available_param (fst (clock_2 e)) (snd (clock_2 e))
                  (add_new_params (b :: bs) (store w2)) in
              let w3 := {| store := snd second; sm := sm w2;
                           trace := trace w2 ++ [DbAddParams (b :: bs);
                                                 DbAllocate (fst second)] |} in
              if not_param (fst second)
              then get_headers decode json_loads e w = (Raise RuntimeError, w3)
              else exists w',
                  get_headers decode json_loads e w =
                    (Return {| specialencodeparam := the_param (fst second);
                               traceparent :=
                                 _generate_traceparent (trace_id e) (span_id e) |},
                     w')
                  /\ fst second = Some (the_param (fst second))
                  /\ store w' = snd second
                  /\ allocations (trace w') = (allocations (trace w) + 2)%nat
          end)
    /\ (forall r w',
          get_headers decode json_loads e w = (r, w') ->
          (writes (trace w') <= writes (trace w) + 1)%nat
          /\ (allocations (trace w') <= allocations (trace w) + 2)%nat)
    /\ (forall h w',
          get_headers decode json_loads e w = (Return h, w') ->
          specialencodeparam h <> EmptyString
          /\ has_param (specialencodeparam h) (param_pool (store w')) = true).
Proof.
  intros e w first w1.
  assert (writes (trace w1) = writes (trace w)
          /\ allocations (trace w1) = S (allocations (trace w))) as [Hw1 Ha1].
  { subst w1. simpl. rewrite writes_app, allocations_app. unfold writes, allocations in *. simpl. lia. }
  assert (forall r w2,
    _fetch_new_params_from_daemon decode json_loads (refill e) w1 = (r, w2) ->
    store w2 = snd first
    /\ (writes (trace w2) <= writes (trace w) + 1)%nat
    /\ allocations (trace w2) = S (allocations (trace w))) as Hfetched.
  { intros r w2 Hfetch.
    destruct (fetch_appends _ _ _ _ Hfetch) as (tr & Happ & Hwr & Hal).
    destruct Happ as (Hst & _ & _ & _ & _ & _ & Htr).
    rewrite Htr, writes_app, allocations_app, Hst. split; [done|]. lia. }
  split; [|split; [|split]].
  - intros Hp. rewrite get_headers_direct; [|done]. fold first. fold w1.
    destruct (background_refill_appends w1) as (Hst & _ & _ & _ & Hwr & Hal).
    eexists. split; [reflexivity|].
    split; [by apply not_param_false|]. split; [done|]. split; lia.
  - intros Hp r w2 Hfetch. rewrite get_headers_emergency; [|done]. fold first. fold w1.
    rewrite (emergency_fetch_spec _ _ _ _ Hfetch).
    destruct (Hfetched _ _ Hfetch) as (Hst2 & Hwr2 & Hal2).
    destruct r as [[|b bs]|ex]; try done. simpl.
    match goal with |- context [not_param ?x] =>
      destruct (not_param x) eqn:Hp2; simpl; [done|]
    end.
    match goal with |- context [background_refill ?x] =>
      destruct (background_refill_appends x) as (Hst & _ & _ & _ & Hwr & Hal)
    end.
    eexists. split; [reflexivity|].
    split; [by apply not_param_false|]. split; [done|].
    rewrite Hal. simpl. rewrite allocations_app. unfold allocations in *. simpl. lia.
  - intros r w' Hres. destruct (not_param (fst first)) eqn:Hp.
    + rewrite get_headers_emergency in Hres; [|done]. fold first in Hres. fold w1 in Hres.
      destruct (_fetch_new_params_from_daemon decode json_loads (refill e) w1)
        as [rf w2] eqn:Hfetch.
      rewrite (emergency_fetch_spec _ _ _ _ Hfetch) in Hres.
      destruct (Hfetched _ _ eq_refl) as (Hst2 & Hwr2 & Hal2).
      destruct rf as [[|b bs]|ex]; simplify_eq/=; try lia.
      match type of Hres with context [not_param ?x] =>
        destruct (not_param x) eqn:Hp2; simplify_eq/=
      end.
      * rewrite writes_app, allocations_app. unfold writes, allocations in *. simpl. lia.
      * match goal with |- context [background_refill ?x] =>
          destruct (background_refill_appends x) as (Hst & _ & _ & _ & Hwr & Hal)
        end.
        rewrite Hwr, Hal. simpl. rewrite writes_app, allocations_app.
        unfold writes, allocations in *. simpl. lia.
    + rewrite get_headers_direct in Hres; [|done]. fold first in Hres. fold w1 in Hres.
      destruct (background_refill_appends w1) as (Hst & _ & _ & _ & Hwr & Hal).
      simplify_eq/=. lia.
  - intros h w' Hres. destruct (not_param (fst first)) eqn:Hp.
    + rewrite get_headers_emergency in Hres; [|done]. fold first in Hres. fold w1 in Hres.
      destruct (_fetch_new_params_from_daemon decode json_loads (refill e) w1)
        as [rf w2] eqn:Hfetch.
      rewrite (emergency_fetch_spec _ _ _ _ Hfetch) in Hres.
      destruct rf as [[|b bs]|ex]; simplify_eq/=.
      match type of Hres with context [not_param ?x] =>
        destruct (not_param x) eqn:Hp2; simplify_eq/=
      end.
      destruct (not_param_false _ Hp2) as [Hsome Hne]. split; [done|].
      match goal with |- context [background_refill ?x] =>
        destruct (background_refill_appends x) as (-> & _)
      end.
      simpl. by apply allocate_returns_row.
    + rewrite get_headers_direct in Hres; [|done]. fold first in Hres. fold w1 in Hres.
      simplify_eq/=. destruct (not_param_false _ Hp) as [Hsome Hne]. split; [done|].
      destruct (background_refill_appends w1) as (-> & _).
      simpl. by apply allocate_returns_row.
Qed.

(** A successful [get_headers] ends with the low-water-mark check, run on a
    world whose warm-up bookkeeping is that of the start. *)
Lemma get_headers_success (e : headers_env) (w : world) (h : headers) (w' : world) :
  get_headers decode json_loads e w = (Return h, w') ->
  exists wm,
    w' = snd (background_refill wm)
    /\ _warmup_task (sm wm) = _warmup_task (sm w)
    /\ _is_warming_up (sm wm) = _is_warming_up (sm w)
    /\ low_water_mark (sm wm) = low_water_mark (sm w).
Proof.
  intros Hres.
  destruct (not_param (fst (get_and_update_available_param
              (fst (clock_1 e)) (snd (clock_1 e)) (store w)))) eqn:Hp.
  - rewrite get_headers_emergency in Hres; [|done].
    match type of Hres with context [emergency_fetch _ _ _ ?x] => set (w1 := x) in * end.
    destruct (_fetch_new_params_from_daemon decode json_loads (refill e) w1)
      as [rf w2] eqn:Hfetch.
    rewrite (emergency_fetch_spec _ _ _ _ Hfetch) in Hres.
    destruct (fetch_appends _ _ _ _ Hfetch) as (tr & Happ & _).
    destruct Happ as (_ & _ & _ & Hlow & Htask & Hwarm & _).
    destruct rf as [[|b bs]|ex]; simplify_eq/=.
    match type of Hres with context [not_param ?x] =>
      destruct (not_param x) eqn:Hp2; simplify_eq/=
    end.
    eexists. split; [reflexivity|]. simpl. done.
  - rewrite get_headers_direct in Hres; [|done]. simplify_eq/=.
    eexists. split; [reflexivity|]. simpl. done.
Qed.

(** C9, amended.  After a successful [get_headers], a warm-up task is
    created, and only scheduled, exactly when the number of fresh rows is
    below the low-water mark, no warm-up is running, the daemon process is
    running, and no earlier warm-up task is still pending; otherwise the
    call creates no task.  In particular nothing is triggered while the
    daemon has not been started. *)
Theorem C9_background_refill_trigger :
  forall (e : headers_env) (w : world) (h : headers) (w' : world),
    get_headers decode json_loads e w = (Return h, w') ->
    let available := get_available_param_uses_count (store w') in
    if (available <? low_water_mark (sm w)) && negb (_is_warming_up (sm w))
       && proc_running (sm w') && negb (task_pending (_warmup_task (sm w)))
    then _warmup_task (sm w') = Some {| done := false |}
         /\ (exists tr, trace w' = tr ++ [DbCount available; CreateTask])
         /\ _is_warming_up (sm w') = false
    else _warmup_task (sm w') = _warmup_task (sm w)
         /\ (exists tr, trace w' = tr ++ [DbCount available])
         /\ _is_warming_up (sm w') = _is_warming_up (sm w).
Proof.
  intros e w h w' Hres.
  destruct (get_headers_success e w h w' Hres) as (wm & -> & Htask & Hwarm & Hlow).
  rewrite background_refill_spec. simpl. rewrite <- Htask, <- Hwarm, <- Hlow.
  destruct ((get_available_param_uses_count (store wm) <? low_water_mark (sm wm))
            && negb (_is_warming_up (sm wm)) && proc_running (sm wm)
            && negb (task_pending (_warmup_task (sm wm)))) eqn:Hcond; simpl.
  - change (proc_running (with_warmup_task (Some {| done := false |}) (sm wm)))
      with (proc_running (sm wm)).
    rewrite Hcond. split; [done|]. split; [by eexists|].
    apply andb_prop in Hcond as [Hcond _]. apply andb_prop in Hcond as [Hcond _].
    apply andb_prop in Hcond as [_ Hcond]. by apply negb_true_iff in Hcond.
  - rewrite Hcond. split; [done|]. split; [by eexists|done].
Qed.

(** ** The warm-up loop *)

(** One iteration whose request fails: the failure is retried after a
    pause only if it is a [RuntimeError] or a [ValueError]. *)
Lemma warm_up_loop_failure (e : request_env) (rest : list request_env)
    (p : progress) (w w1 : world) (ex : exn) :
  finished p = false ->
  _fetch_new_params_from_daemon decode json_loads e w = (Raise ex, w1) ->
  warm_up_loop decode json_loads (e :: rest) p w =
    if matches ex [RuntimeError; ValueError]
    then warm_up_loop decode json_loads rest p
           {| store := store w1; sm := sm w1; trace := trace w1 ++ [Sleep 5] |}
    else (Raise ex, w1).
Proof.
  intros Hfin Hfetch. cbn [warm_up_loop]. rewrite Hfin.
  unfold bind at 1. unfold try_except at 1. unfold bind at 1. rewrite Hfetch.
  destruct (matches ex [RuntimeError; ValueError]); [|done].
  unfold bind at 1. done.
Qed.

(** A request on a running daemon whose command cannot be written. *)
Lemma fetch_write_fails (e : request_env) (w : world) (p : process) (ex : exn) :
  _proc (sm w) = Some p -> returncode p = None ->
  drained e = Some ex ->
  matches ex [BrokenPipeError; ConnectionResetError; RuntimeError; ValueError] = true ->
  _fetch_new_params_from_daemon decode json_loads e w =
    (Raise ex,
     {| store := store w;
        sm := with_proc None (sm w);
        trace := trace w
                 ++ [Write (cluster_command (sm w))]
                 ++ (if alive_at_kill e then [Kill (pid p); Wait (pid p)] else []) |}).
Proof.
  intros Hp Hrc Hd Hclass.
  unfold _fetch_new_params_from_daemon, cluster_command. unfold_M.
  unfold proc_running. rewrite Hp, Hrc. simpl. rewrite Hd. simpl.
  unfold matches in Hclass. simpl in Hclass. rewrite Hclass. simpl. rewrite Hp.
  destruct (alive_at_kill e); simpl; by rewrite <- ?app_assoc, ?app_nil_r.
Qed.

(** A warm-up whose first request meets a broken or reset pipe ends with
    that exception, whatever the store holds and whatever the daemon would
    have answered next: nothing is retried. *)
Lemma warm_up_pool_pipe_error (e : request_env) (rest : list request_env)
    (w : world) (p : process) (ex : exn) :
  _is_warming_up (sm w) = false ->
  _proc (sm w) = Some p -> returncode p = None ->
  drained e = Some ex ->
  ex = BrokenPipeError \/ ex = ConnectionResetError ->
  warm_up_pool decode json_loads (e :: rest) w =
    (Raise ex,
     {| store := store w;
        sm := with_is_warming_up false (with_proc None (sm w));
        trace := trace w
                 ++ [DbCount (get_available_param_uses_count (store w));
                     Write (cluster_command (sm w))]
                 ++ (if alive_at_kill e then [Kill (pid p); Wait (pid p)] else []) |}).
Proof.
  intros Hwarm Hp Hrc Hd Hex.
  unfold warm_up_pool. rewrite Hwarm.
  unfold bind at 1. unfold modify_sm at 1. unfold bind at 1. unfold get_sm at 1.
  unfold put_sm at 1. unfold bind at 1.
  unfold db_get_available_param_uses_count at 1. unfold bind at 1. unfold get_sm at 1.
  cbn [store sm trace].
  erewrite warm_up_loop_failure; [|done|].
  2:{ apply (fetch_write_fails e _ p ex); [exact Hp|exact Hrc|exact Hd|].
      by destruct Hex as [->| ->]. }
  assert (matches ex [RuntimeError; ValueError] = false) as ->
    by (by destruct Hex as [->| ->]).
  unfold_M. simpl. rewrite <- !app_assoc. simpl. done.
Qed.

End daemon_spec.

Lemma C7_emergency_refill_witness :
  get_headers decode_ascii json_loads_strings (headers_at 1000 (healthy ["x"; "y"]))
    (world_of (pool_db [row "q" 2 990]) running_manager) =
    (Return {| specialencodeparam := "x";
               traceparent := "00-0af7651916cd43dd8448eb211c80319c-b7ad6b7169203331-01" |},
     snd (get_headers decode_ascii json_loads_strings
            (headers_at 1000 (healthy ["x"; "y"]))
            (world_of (pool_db [row "q" 2 990]) running_manager)))
  /\ "x" <> EmptyString
  /\ has_param "x"
       (param_pool (store (snd (get_headers decode_ascii json_loads_strings
                                  (headers_at 1000 (healthy ["x"; "y"]))
                                  (world_of (pool_db [row "q" 2 990]) running_manager)))))
     = true.
Proof.
  assert (get_headers decode_ascii json_loads_strings
            (headers_at 1000 (healthy ["x"; "y"]))
            (world_of (pool_db [row "q" 2 990]) running_manager) =
          (Return {| specialencodeparam := "x";
                     traceparent :=
                       "00-0af7651916cd43dd8448eb211c80319c-b7ad6b7169203331-01" |},
           snd (get_headers decode_ascii json_loads_strings
                  (headers_at 1000 (healthy ["x"; "y"]))
                  (world_of (pool_db [row "q" 2 990]) running_manager)))) as Hrun
    by (vm_compute; reflexivity).
  split; [exact Hrun|].
  exact (proj2 (proj2 (proj2 (C7_emergency_refill decode_ascii json_loads_strings
                                (headers_at 1000 (healthy ["x"; "y"]))
                                (world_of (pool_db [row "q" 2 990]) running_manager))))
           _ _ Hrun).
Defined.

(** C7, as the specification words it, fails when the allocation returns
    the empty string: the row is present and was charged one use, yet
    [get_headers] does not return it and goes on to the emergency fetch. *)
Lemma C7_empty_string_counterexample :
  ~ (forall p,
       fst (get_and_update_available_param (inject_Z 1000) (inject_Z 1000)
              (pool_db [row EmptyString 0 0])) = Some p ->
       exists w',
         get_headers decode_ascii json_loads_strings
           (headers_at 1000 (healthy ["x"; "y"]))
           (world_of (pool_db [row EmptyString 0 0]) running_manager) =
           (Return {| specialencodeparam := p;
                      traceparent :=
                        "00-0af7651916cd43dd8448eb211c80319c-b7ad6b7169203331-01" |},
            w')).
Proof.
  intros Hclaim.
  destruct (Hclaim EmptyString ltac:(vm_compute; reflexivity)) as [w' Hrun].
  vm_compute in Hrun. discriminate.
Qed.

Lemma C9_background_refill_trigger_witness :
  get_headers decode_ascii json_loads_strings (headers_at 1000 (healthy ["x"]))
    (world_of (pool_db [row "p" 0 0]) running_manager) =
    (Return {| specialencodeparam := "p";
               traceparent := "00-0af7651916cd43dd8448eb211c80319c-b7ad6b7169203331-01" |},
     snd (get_headers decode_ascii json_loads_strings
            (headers_at 1000 (healthy ["x"]))
            (world_of (pool_db [row "p" 0 0]) running_manager)))
  /\ _warmup_task (sm (snd (get_headers decode_ascii json_loads_strings
                             (headers_at 1000 (healthy ["x"]))
                             (world_of (pool_db [row "p" 0 0]) running_manager))))
     = Some {| done := false |}.
Proof.
  assert (get_headers decode_ascii json_loads_strings
            (headers_at 1000 (healthy ["x"]))
            (world_of (pool_db [row "p" 0 0]) running_manager) =
          (Return {| specialencodeparam := "p";
                     traceparent :=
                       "00-0af7651916cd43dd8448eb211c80319c-b7ad6b7169203331-01" |},
           snd (get_headers decode_ascii json_loads_strings
                  (headers_at 1000 (healthy ["x"]))
                  (world_of (pool_db [row "p" 0 0]) running_manager)))) as Hrun
    by (vm_compute; reflexivity).
  split; [exact Hrun|].
  pose proof (C9_background_refill_trigger decode_ascii json_loads_strings
                _ _ _ _ Hrun) as Htrigger.
  vm_compute in Htrigger. vm_compute. exact (proj1 Htrigger).
Defined.

(** C9, as the specification words it, fails while the daemon has not been
    started: the call succeeds from the stored pool, one fresh row is left
    (below the low-water mark of 20), no warm-up is running or pending, and
    no warm-up task is created. *)
Lemma C9_daemon_not_started_counterexample :
  ~ (forall h w',
       get_headers decode_ascii json_loads_strings (headers_at 1000 (healthy ["x"]))
         (world_of (pool_db [row "p" 0 0]) new_security_manager) = (Return h, w') ->
       get_available_param_uses_count (store w') < low_water_mark new_security_manager ->
       _is_warming_up new_security_manager = false ->
       task_pending (_warmup_task new_security_manager) = false ->
       CreateTask ∈ trace w' /\ _warmup_task (sm w') <> None).
Proof.
  intros Hclaim.
  assert (get_headers decode_ascii json_loads_strings
            (headers_at 1000 (healthy ["x"]))
            (world_of (pool_db [row "p" 0 0]) new_security_manager) =
          (Return {| specialencodeparam := "p";
                     traceparent :=
                       "00-0af7651916cd43dd8448eb211c80319c-b7ad6b7169203331-01" |},
           snd (get_headers decode_ascii json_loads_strings
                  (headers_at 1000 (healthy ["x"]))
                  (world_of (pool_db [row "p" 0 0]) new_security_manager)))) as Hrun
    by (vm_compute; reflexivity).
  destruct (Hclaim _ _ Hrun) as [_ Htask]; try (vm_compute; reflexivity).
  apply Htask. vm_compute. reflexivity.
Qed.


(** C8 fails on the code.  With the daemon running and its input pipe
    broken, the first request of a warm-up raises [BrokenPipeError];
    [_fetch_new_params_from_daemon] tears the process down and re-raises it,
    the loop's handler, which names only [RuntimeError] and [ValueError],
    does not catch it, and the warm-up ends with that exception without a
    pause and without using the next answer.  A closed stream, which raises
    [RuntimeError], is retried after the pause of five seconds. *)
Theorem C8_broken_pipe_escapes_warm_up :
  warm_up_pool decode_ascii json_loads_strings [broken_pipe; healthy ["p1"; "p2"]]
    (world_of empty_db running_manager) =
    (Raise BrokenPipeError,
     {| store := empty_db;
        sm := with_proc None running_manager;
        trace := [DbCount 0; Write (cluster_command running_manager); Kill 7; Wait 7] |})
  /\ isinstance BrokenPipeError RuntimeError = false
  /\ isinstance BrokenPipeError ValueError = false
  /\ warm_up_pool decode_ascii json_loads_strings [closed_stream]
       (world_of empty_db running_manager) =
       (Return StillLooping,
        {| store := empty_db;
           sm := with_is_warming_up true (with_proc None running_manager);
           trace := [DbCount 0; Write (cluster_command running_manager); Readline;
                     ReadStderr; Kill 7; Wait 7; Sleep 5] |}).
Proof.
  split_and!; vm_compute; reflexivity.
Qed.

End camp_security_spec.

(** * Further properties of the store *)

Module cache_manager_more.

Import cache_manager cache_manager_spec.

(** ** Reachable stores *)

Lemma row_ok_spec (r : pool_row) :
  row_ok r = true <->
  0 <= use_count r /\ (use_count r = 0 -> last_used_timestamp r = 0).
Proof.
  unfold row_ok. rewrite andb_true_iff, orb_true_iff, Z.leb_le, Z.ltb_lt, Z.eqb_eq.
  lia.
Qed.

Lemma rows_ok_insert_or_ignore (pool : list pool_row) (p : string) :
  forallb row_ok pool = true -> forallb row_ok (insert_or_ignore pool p) = true.
Proof.
  intros Hok. unfold insert_or_ignore. destruct (has_param p pool); [done|].
  rewrite forallb_app, Hok. done.
Qed.

Lemma rows_ok_inserts (params : list string) (pool : list pool_row) :
  forallb row_ok pool = true ->
  forallb row_ok (fold_left insert_or_ignore params pool) = true.
Proof.
  revert pool. induction params as [|p params IH]; simpl; intros pool Hok; [done|].
  apply IH. by apply rows_ok_insert_or_ignore.
Qed.

Lemma rows_ok_update_used (now : Z) (p : string) (pool : list pool_row) :
  forallb row_ok pool = true -> forallb row_ok (update_used now p pool) = true.
Proof.
  induction pool as [|r rest IH]; [done|].
  rewrite update_used_cons. simpl. intros Hok.
  apply andb_true_iff in Hok as [Hr Hrest]. rewrite (IH Hrest), andb_true_r.
  destruct (String.eqb (param r) p); [|done].
  apply row_ok_spec in Hr. apply row_ok_spec. simpl. lia.
Qed.

Lemma rows_ok_step {V} (dumps : V -> bytes) (op : store_op V) (d : db) :
  forallb row_ok (param_pool d) = true ->
  forallb row_ok (param_pool (step dumps op d)) = true.
Proof.
  intros Hok. destruct op as [| | params | |t_cool t_upd]; simpl; try done.
  - by apply rows_ok_inserts.
  - destruct (allocate_result t_cool t_upd d) as [->|[p ->]]; simpl; [done|].
    by apply rows_ok_update_used.
Qed.

(** X1. Every store the program can build from a new database file keeps the
    primary key of the pool (no parameter has two rows), has no negative use
    count, and stamps a row only when it is used: a row never allocated
    still has timestamp 0. *)
Theorem reachable_store_invariants :
  forall (V : Type) (dumps : V -> bytes) (ops : list (store_op V)) (r : pool_row),
    unique_params (param_pool (run dumps ops (initialize None))) = true
    /\ (r ∈ param_pool (run dumps ops (initialize None)) ->
        0 <= use_count r /\ (use_count r = 0 -> last_used_timestamp r = 0)).
Proof.
  intros V dumps ops r.
  assert (forall d,
    unique_params (param_pool d) = true -> forallb row_ok (param_pool d) = true ->
    unique_params (param_pool (run dumps ops d)) = true
    /\ forallb row_ok (param_pool (run dumps ops d)) = true) as Hrun.
  { induction ops as [|op ops IH]; intros d Hu Hok; [done|]. simpl.
    apply IH; [by apply unique_params_step | by apply rows_ok_step]. }
  destruct (Hrun (initialize None)) as [Hu Hok]; [done|done|].
  split; [exact Hu|]. intros Hin. apply row_ok_spec.
  rewrite forallb_forall in Hok. apply Hok. by apply list_elem_of_In.
Qed.

(** ** What an insertion adds *)

Lemma has_param_snoc (q p : string) (pool : list pool_row) :
  has_param q (pool ++ [row p 0 0]) = has_param q pool || String.eqb p q.
Proof. rewrite has_param_app. unfold has_param at 2. simpl. by rewrite orb_false_r. Qed.

(** The rows appended by a batch of inserts: one per distinct parameter that
    had no row, in the order of first appearance. *)
Lemma inserts_shape (params : list string) (pool : list pool_row) :
  exists added,
    fold_left insert_or_ignore params pool = pool ++ ((fun p => row p 0 0) <$> added)
    /\ NoDup added
    /\ (forall p, p ∈ added <-> p ∈ params /\ has_param p pool = false).
Proof.
  revert pool. induction params as [|p params IH]; intros pool.
  - exists []. simpl. rewrite app_nil_r. split; [done|]. split; [constructor|].
    intros q. split; [by intros ?%elem_of_nil | by intros [?%elem_of_nil _]].
  - simpl. unfold insert_or_ignore at 2. destruct (has_param p pool) eqn:Hp.
    + destruct (IH pool) as (added & Hfold & Hnd & Hmem).
      exists added. split; [done|]. split; [done|]. intros q. rewrite Hmem.
      rewrite elem_of_cons. split; [tauto|]. intros [[->|Hq] Hno]; [congruence|done].
    + destruct (IH (pool ++ [row p 0 0])) as (added & Hfold & Hnd & Hmem).
      exists (p :: added). split; [|split].
      * transitivity ((pool ++ [row p 0 0]) ++ ((fun p => row p 0 0) <$> added));
          [exact Hfold | by rewrite <- app_assoc].
      * constructor; [|done]. intros Hin. apply Hmem in Hin as [_ Hno].
        rewrite has_param_snoc, String.eqb_refl, orb_true_r in Hno. done.
      * intros q. rewrite !elem_of_cons, Hmem, has_param_snoc, orb_false_iff.
        destruct (String.eqb p q) eqn:E.
        -- apply String.eqb_eq in E as ->. split; [intros [_|[_ [_ ?]]]; [|done]|]; auto.
        -- apply String.eqb_neq in E. split.
           ++ intros [->|(Hq & Hno & _)]; [done|]. auto.
           ++ intros [[->|Hq] Hno]; [done|]. right. done.
Qed.

Lemma count_new_rows (added : list string) :
  length (filter (fun r => is_fresh r = true) ((fun p => row p 0 0) <$> added))
  = length added.
Proof.
  induction added as [|p added IH]; [done|].
  rewrite fmap_cons, filter_cons_True by done. simpl. by rewrite IH.
Qed.

Lemma remaining_uses_cons (r : pool_row) (l : list pool_row) :
  remaining_uses (r :: l) = Z.max 0 (2 - use_count r) + remaining_uses l.
Proof. reflexivity. Qed.

Lemma remaining_uses_app (l1 l2 : list pool_row) :
  remaining_uses (l1 ++ l2) = remaining_uses l1 + remaining_uses l2.
Proof.
  induction l1 as [|r l1 IH]; [done|].
  rewrite <- app_comm_cons, !remaining_uses_cons, IH. lia.
Qed.

Lemma remaining_uses_new_rows (added : list string) :
  remaining_uses ((fun p => row p 0 0) <$> added) = 2 * Z.of_nat (length added).
Proof.
  induction added as [|p added IH]; [done|].
  rewrite fmap_cons, remaining_uses_cons, IH. simpl use_count. simpl length. lia.
Qed.


(** ** What an allocation costs *)

Lemma fresh_count_middle (a b : pool_row) (l1 l2 : list pool_row) :
  Z.of_nat (length (filter (fun r => is_fresh r = true) (l1 ++ b :: l2))) =
  Z.of_nat (length (filter (fun r => is_fresh r = true) (l1 ++ a :: l2)))
  - (if is_fresh a then 1 else 0) + (if is_fresh b then 1 else 0).
Proof.
  rewrite !filter_app, !length_app, !filter_cons.
  destruct (decide (is_fresh a = true)) as [->|Ha%not_true_is_false];
    destruct (decide (is_fresh b = true)) as [->|Hb%not_true_is_false];
    rewrite ?Ha, ?Hb; simpl; lia.
Qed.

Lemma remaining_uses_middle (a : pool_row) (l1 l2 : list pool_row) :
  remaining_uses (l1 ++ a :: l2) =
  remaining_uses l1 + Z.max 0 (2 - use_count a) + remaining_uses l2.
Proof. rewrite remaining_uses_app, remaining_uses_cons. lia. Qed.

Lemma remaining_uses_nonneg (pool : list pool_row) : 0 <= remaining_uses pool.
Proof.
  induction pool as [|r pool IH]; [done|]. rewrite remaining_uses_cons. lia.
Qed.

Lemma remaining_uses_positive (pool : list pool_row) :
  0 < remaining_uses pool -> exists r, r ∈ pool /\ use_count r < 2.
Proof.
  induction pool as [|r pool IH]; [unfold remaining_uses; simpl; lia|].
  rewrite remaining_uses_cons. intros Hpos.
  destruct (Z.lt_ge_cases (use_count r) 2) as [Hr|Hr].
  - exists r. split; [apply elem_of_cons; by left|done].
  - destruct IH as (x & Hx & Hfresh); [lia|].
    exists x. split; [apply elem_of_cons; by right|done].
Qed.

Lemma remaining_uses_exhausted (pool : list pool_row) :
  (forall r, r ∈ pool -> 2 <= use_count r) -> remaining_uses pool = 0.
Proof.
  induction pool as [|r pool IH]; intros Hall; [done|].
  rewrite remaining_uses_cons, IH.
  - specialize (Hall r ltac:(apply elem_of_cons; by left)). lia.
  - intros x Hx. apply Hall. apply elem_of_cons. by right.
Qed.

(** X3. An allocation lowers the count of fresh rows by one exactly when the
    row it returns had been used once before; returning a row never used, or
    a cooled-down exhausted row, or nothing, leaves the count as it was. *)
Theorem allocation_changes_count :
  forall (t_cool t_upd : Q) (d : db),
    unique_params (param_pool d) = true ->
    match fst (get_and_update_available_param t_cool t_upd d) with
    | None =>
        get_available_param_uses_count
          (snd (get_and_update_available_param t_cool t_upd d)) =
        get_available_param_uses_count d
    | Some p =>
        exists r,
          find_row p (param_pool d) = Some r
          /\ get_available_param_uses_count
               (snd (get_and_update_available_param t_cool t_upd d)) =
             get_available_param_uses_count d
             - (if use_count r =? 1 then 1 else 0)
    end.
Proof.
  intros t_cool t_upd d Hu.
  destruct (allocate_cases t_cool t_upd d Hu)
    as [(a & l1 & l2 & Hsplit & Ha & _ & Hres)
       |[(Hex & c & l1 & l2 & Hsplit & _ & _ & Hres)|(_ & _ & Hres)]];
    rewrite Hres; simpl; [| |done].
  - exists a. split.
    { apply find_row_unique; [done|]. rewrite Hsplit. apply elem_of_middle. }
    unfold get_available_param_uses_count. simpl.
    rewrite Hsplit, (fresh_count_middle a). unfold is_fresh. simpl.
    destruct (Z.ltb_spec (use_count a) 2), (Z.ltb_spec (use_count a + 1) 2),
      (Z.eqb_spec (use_count a) 1); lia.
  - exists c. assert (c ∈ param_pool d) as Hc by (rewrite Hsplit; apply elem_of_middle).
    split; [by apply find_row_unique|].
    unfold get_available_param_uses_count. simpl.
    rewrite Hsplit, (fresh_count_middle c). unfold is_fresh. simpl.
    specialize (Hex c Hc).
    destruct (Z.ltb_spec (use_count c) 2), (Z.ltb_spec (use_count c + 1) 2),
      (Z.eqb_spec (use_count c) 1); lia.
Qed.

Lemma allocation_changes_count_witness :
  unique_params (param_pool (pool_db [row "a" 1 5; row "b" 1 7])) = true
  /\ exists r,
      find_row "a" (param_pool (pool_db [row "a" 1 5; row "b" 1 7])) = Some r
      /\ get_available_param_uses_count
           (snd (get_and_update_available_param (inject_Z 10) (inject_Z 10)
                   (pool_db [row "a" 1 5; row "b" 1 7]))) =
         get_available_param_uses_count (pool_db [row "a" 1 5; row "b" 1 7])
         - (if use_count r =? 1 then 1 else 0).
Proof.
  split; [reflexivity|].
  exact (allocation_changes_count (inject_Z 10) (inject_Z 10)
           (pool_db [row "a" 1 5; row "b" 1 7]) eq_refl).
Defined.

(** One allocation while uses remain. *)
Lemma allocate_while_remaining (t_cool t_upd : Q) (d : db) :
  unique_params (param_pool d) = true ->
  0 < remaining_uses (param_pool d) ->
  exists p d',
    get_and_update_available_param t_cool t_upd d = (Some p, d')
    /\ unique_params (param_pool d') = true
    /\ remaining_uses (param_pool d') = remaining_uses (param_pool d) - 1
    /\ (forall r, find_row p (param_pool d) = Some r -> use_count r < 2).
Proof.
  intros Hu Hpos.
  destruct (allocate_cases t_cool t_upd d Hu)
    as [(a & l1 & l2 & Hsplit & Ha & _ & Hres)|[[Hex _]|[Hex _]]].
  - exists (param a), (with_param_pool (l1 ++ mark_used (py_int t_upd) a :: l2) d).
    split; [done|]. split_and!.
    + destruct (allocate_result t_cool t_upd d) as [Hn|[q Hq]]; [congruence|].
      rewrite Hres in Hq. injection Hq as _ Hq. simpl. rewrite Hq.
      by rewrite update_used_unique_params.
    + simpl. rewrite Hsplit, !remaining_uses_middle. simpl. lia.
    + intros r Hr.
      assert (find_row (param a) (param_pool d) = Some a) as Hfa.
      { apply find_row_unique; [done|]. rewrite Hsplit. apply elem_of_middle. }
      congruence.
  - rewrite (remaining_uses_exhausted _ Hex) in Hpos. lia.
  - rewrite (remaining_uses_exhausted _ Hex) in Hpos. lia.
Qed.

(** X4. The fresh rows serve as many allocations as they have uses left: as
    long as the number of consecutive allocations does not exceed the
    remaining uses (two per row never used, one per row used once), every
    one of them returns a parameter, whatever the clock reads, and the
    remaining uses drop by one per allocation. *)
Theorem pool_capacity :
  forall (clocks : list (Q * Q)) (d : db),
    unique_params (param_pool d) = true ->
    Z.of_nat (length clocks) <= remaining_uses (param_pool d) ->
    Forall (fun r : option string => is_Some r) (fst (allocate_many clocks d))
    /\ length (fst (allocate_many clocks d)) = length clocks
    /\ remaining_uses (param_pool (snd (allocate_many clocks d))) =
         remaining_uses (param_pool d) - Z.of_nat (length clocks).
Proof.
  induction clocks as [|[t_cool t_upd] clocks IH]; intros d Hu Hlen.
  - simpl. split; [constructor|]. split; [done|lia].
  - simpl length in Hlen.
    destruct (allocate_while_remaining t_cool t_upd d Hu) as (p & d1 & Hres & Hu1 & Hrem & _);
      [lia|].
    cbn [allocate_many]. rewrite Hres.
    destruct (IH d1 Hu1) as (Hall & Hlen' & Hrem'); [lia|].
    destruct (allocate_many clocks d1) as [rs d2]. simpl in *.
    split; [constructor; [by eexists|done]|]. split; [by rewrite Hlen'|]. lia.
Qed.

Lemma pool_capacity_witness :
  unique_params (param_pool (pool_db [row "a" 0 0; row "b" 1 7])) = true
  /\ Z.of_nat (length [(inject_Z 10, inject_Z 10); (inject_Z 11, inject_Z 11);
                       (inject_Z 12, inject_Z 12)])
     <= remaining_uses (param_pool (pool_db [row "a" 0 0; row "b" 1 7]))
  /\ Forall (fun r : option string => is_Some r)
       (fst (allocate_many [(inject_Z 10, inject_Z 10); (inject_Z 11, inject_Z 11);
                            (inject_Z 12, inject_Z 12)]
               (pool_db [row "a" 0 0; row "b" 1 7]))).
Proof.
  assert (Z.of_nat (length [(inject_Z 10, inject_Z 10); (inject_Z 11, inject_Z 11);
                            (inject_Z 12, inject_Z 12)])
          <= remaining_uses (param_pool (pool_db [row "a" 0 0; row "b" 1 7]))) as Hlen
    by (vm_compute; discriminate).
  split; [reflexivity|]. split; [exact Hlen|].
  exact (proj1 (pool_capacity _ (pool_db [row "a" 0 0; row "b" 1 7]) eq_refl Hlen)).
Defined.

(** X5. [get_available_param_uses_count] counts rows, not uses: when no use
    count is negative, the allocations that the fresh rows can still serve
    number at least that count and at most twice it, and both bounds are
    met (by rows used once, and by rows never used). *)
Theorem fresh_count_bounds_remaining_uses :
  forall (d : db),
    forallb row_ok (param_pool d) = true ->
    get_available_param_uses_count d <= remaining_uses (param_pool d)
    /\ remaining_uses (param_pool d) <= 2 * get_available_param_uses_count d
    /\ ((forall r, r ∈ param_pool d -> use_count r = 1) ->
        remaining_uses (param_pool d) = get_available_param_uses_count d)
    /\ ((forall r, r ∈ param_pool d -> use_count r = 0) ->
        remaining_uses (param_pool d) = 2 * get_available_param_uses_count d).
Proof.
  intros d. unfold get_available_param_uses_count. simpl.
  induction (param_pool d) as [|r pool IH]; [done|].
  simpl forallb. intros Hok. apply andb_true_iff in Hok as [Hr Hrest].
  apply row_ok_spec in Hr as [Hr _].
  destruct (IH Hrest) as (Hlo & Hhi & Hone & Hzero).
  rewrite remaining_uses_cons, filter_cons.
  assert (forall P : pool_row -> Prop,
    (forall x, x ∈ r :: pool -> P x) -> P r /\ (forall x, x ∈ pool -> P x)) as Hcons.
  { intros P HP. split; [apply HP; apply elem_of_cons; by left|].
    intros x Hx. apply HP. apply elem_of_cons. by right. }
  destruct (decide (is_fresh r = true)) as [E|E]; unfold is_fresh in E.
  - apply Z.ltb_lt in E. simpl length. split_and!; try lia.
    + intros [Hr1 Hall]%Hcons. specialize (Hone Hall). lia.
    + intros [Hr0 Hall]%Hcons. specialize (Hzero Hall). lia.
  - apply not_true_is_false, Z.ltb_ge in E. split_and!; try lia.
    + intros [Hr1 Hall]%Hcons. lia.
    + intros [Hr0 Hall]%Hcons. lia.
Qed.

Lemma fresh_count_bounds_remaining_uses_witness :
  forallb row_ok (param_pool (pool_db [row "a" 0 0; row "b" 1 7; row "c" 2 9])) = true
  /\ get_available_param_uses_count (pool_db [row "a" 0 0; row "b" 1 7; row "c" 2 9])
     <= remaining_uses (param_pool (pool_db [row "a" 0 0; row "b" 1 7; row "c" 2 9]))
  /\ remaining_uses (param_pool (pool_db [row "a" 0 0; row "b" 1 7; row "c" 2 9]))
     <= 2 * get_available_param_uses_count
              (pool_db [row "a" 0 0; row "b" 1 7; row "c" 2 9]).
Proof.
  split; [reflexivity|].
  destruct (fresh_count_bounds_remaining_uses
              (pool_db [row "a" 0 0; row "b" 1 7; row "c" 2 9]) eq_refl)
    as (Hlo & Hhi & _).
  split; [exact Hlo | exact Hhi].
Defined.

(** ** Writing the cache twice *)

Section cache_writes.

Context {V : Type}.
Variable py_None : V.
Variable dumps : V -> bytes.
Variable loads : bytes -> V.

(** X6. [set] replaces: writing a key again leaves the store exactly as if
    only the second write had happened (value and timestamp, so the TTL
    starts again), the table never holds two entries for a key, and a write
    to one key changes neither what [get] returns for any other key nor the
    parameter pool. *)
Theorem set_replaces_entry :
  forall (now t1 t2 : Q) (k k' : string) (v1 v2 : V) (d : db),
    set dumps t2 k v2 (set dumps t1 k v1 d) = set dumps t2 k v2 d
    /\ param_pool (set dumps t1 k v1 d) = param_pool d
    /\ (k <> k' ->
        get py_None loads now k' (set dumps t1 k v1 d) = get py_None loads now k' d)
    /\ (is_Some (api_cache d !! k) ->
        size (api_cache (set dumps t1 k v1 d)) = size (api_cache d)).
Proof.
  intros now t1 t2 k k' v1 v2 d. split_and!.
  - unfold set. simpl. unfold with_api_cache. simpl. f_equal. apply insert_insert_eq.
  - done.
  - intros Hne. unfold get, set. simpl. by rewrite lookup_insert_ne.
  - intros [entry Hentry]. unfold set. simpl.
    rewrite <- (insert_delete_id (api_cache d) k entry) at 2 by done.
    rewrite <- (insert_delete_eq (api_cache d)).
    rewrite !map_size_insert_None by apply lookup_delete_eq. done.
Qed.

End cache_writes.

Lemma set_replaces_entry_witness :
  "k" <> "j"
  /\ get [] (fun b : bytes => b) (10 # 1) "j"
       (set (fun b : bytes => b) (1 # 1) "k" [Byte.x31]
          (set (fun b : bytes => b) (0 # 1) "j" [Byte.x32] empty_db)) =
     get [] (fun b : bytes => b) (10 # 1) "j"
       (set (fun b : bytes => b) (0 # 1) "j" [Byte.x32] empty_db)
  /\ size (api_cache (set (fun b : bytes => b) (1 # 1) "j" [Byte.x31]
                        (set (fun b : bytes => b) (0 # 1) "j" [Byte.x32] empty_db))) =
     size (api_cache (set (fun b : bytes => b) (0 # 1) "j" [Byte.x32] empty_db)).
Proof.
  assert ("k" <> "j") as Hne by discriminate.
  split; [exact Hne|]. split.
  - exact (proj1 (proj2 (proj2 (set_replaces_entry [] (fun b => b) (fun b => b)
             (10 # 1) (1 # 1) (1 # 1) "k" "j" [Byte.x31] [Byte.x31]
             (set (fun b : bytes => b) (0 # 1) "j" [Byte.x32] empty_db)))) Hne).
  - apply (proj2 (proj2 (proj2 (set_replaces_entry [] (fun b => b) (fun b => b)
             (10 # 1) (1 # 1) (1 # 1) "j" "j" [Byte.x31] [Byte.x31]
             (set (fun b : bytes => b) (0 # 1) "j" [Byte.x32] empty_db))))).
    eexists. vm_compute. reflexivity.
Defined.

(** ** Reuse of an exhausted row *)

(** What the row of a returned parameter satisfied before the call. *)
Lemma returned_row_was_eligible (t_cool t_upd : Q) (d : db) (p : string) (r : pool_row) :
  unique_params (param_pool d) = true ->
  fst (get_and_update_available_param t_cool t_upd d) = Some p ->
  find_row p (param_pool d) = Some r ->
  use_count r < 2
  \/ last_used_timestamp r < py_int t_cool - PARAM_REUSE_COOLDOWN_SECONDS.
Proof.
  intros Hu Hres Hr. apply find_row_Some in Hr as [Hin Hp].
  destruct (allocate_cases t_cool t_upd d Hu)
    as [(a & l1 & l2 & Hsplit & Ha & _ & Heq)
       |[(_ & c & l1 & l2 & Hsplit & Hcl & _ & Heq)|(_ & _ & Heq)]];
    rewrite Heq in Hres; simpl in Hres; [| |done]; injection Hres as <-.
  - left. assert (r = a) as ->; [|done].
    apply (same_param_same_row (param_pool d)); try done.
    rewrite Hsplit. apply elem_of_middle.
  - right. assert (r = c) as ->; [|done].
    apply (same_param_same_row (param_pool d)); try done.
    rewrite Hsplit. apply elem_of_middle.
Qed.

Lemma run_keeps_row {V} (dumps : V -> bytes) (ops : list (store_op V)) (d : db)
    (p : string) (r : pool_row) :
  forallb (fun op => negb (is_allocation op)) ops = true ->
  find_row p (param_pool d) = Some r ->
  find_row p (param_pool (run dumps ops d)) = Some r.
Proof.
  revert d. induction ops as [|op ops IH]; intros d Hops Hr; [done|].
  simpl in Hops. apply andb_true_iff in Hops as [Hop Hops]. simpl.
  apply IH; [done|].
  destruct (step_row dumps op d p r Hr) as (r' & Hr' & _ & Hsame).
  rewrite Hr'. f_equal. apply Hsame. intros t_cool t_upd ->. done.
Qed.

Lemma run_keeps_unique {V} (dumps : V -> bytes) (ops : list (store_op V)) (d : db) :
  unique_params (param_pool d) = true ->
  unique_params (param_pool (run dumps ops d)) = true.
Proof.
  revert d. induction ops as [|op ops IH]; intros d Hu; [done|]. simpl.
  apply IH. by apply unique_params_step.
Qed.

(** X7. A parameter that was already used when it is handed out is not
    handed out again for the cooldown period: if an allocation returns a
    parameter whose row had been used at least once, and a later allocation
    (with any reads, writes, counts and insertions in between) returns the
    same parameter, then the clock of the later allocation reads more than
    3600 s after the timestamp written by the earlier one. *)
Theorem exhausted_row_rests :
  forall (V : Type) (dumps : V -> bytes) (t1_cool t1_upd t2_cool t2_upd : Q)
         (ops : list (store_op V)) (d : db) (p : string) (r : pool_row),
    unique_params (param_pool d) = true ->
    find_row p (param_pool d) = Some r ->
    1 <= use_count r ->
    fst (get_and_update_available_param t1_cool t1_upd d) = Some p ->
    forallb (fun op => negb (is_allocation op)) ops = true ->
    fst (get_and_update_available_param t2_cool t2_upd
           (run dumps ops (snd (get_and_update_available_param t1_cool t1_upd d))))
      = Some p ->
    PARAM_REUSE_COOLDOWN_SECONDS < py_int t2_cool - py_int t1_upd.
Proof.
  intros V dumps t1_cool t1_upd t2_cool t2_upd ops d p r Hu Hr Hused Hfirst Hops Hsecond.
  destruct (step_row dumps (OpAllocate t1_cool t1_upd) d p r Hr) as (r1 & Hr1 & Hsel & _).
  specialize (Hsel _ _ eq_refl Hfirst). subst r1. simpl in Hr1.
  assert (unique_params
            (param_pool (snd (get_and_update_available_param t1_cool t1_upd d))) = true)
    as Hu1 by apply (unique_params_step dumps (OpAllocate t1_cool t1_upd) d Hu).
  pose proof (run_keeps_row dumps ops _ p _ Hops Hr1) as Hr2.
  pose proof (run_keeps_unique dumps ops _ Hu1) as Hu2.
  destruct (returned_row_was_eligible _ _ _ _ _ Hu2 Hsecond Hr2) as [Hfresh|Hcool];
    simpl in *; lia.
Qed.

Lemma exhausted_row_rests_witness :
  unique_params (param_pool (pool_db [row "a" 1 5])) = true
  /\ find_row "a" (param_pool (pool_db [row "a" 1 5])) = Some (row "a" 1 5)
  /\ fst (get_and_update_available_param (inject_Z 5000) (inject_Z 5000)
            (run (fun b : bytes => b) [OpSet (inject_Z 20) "k" []; OpCount]
               (snd (get_and_update_available_param (inject_Z 10) (inject_Z 10)
                       (pool_db [row "a" 1 5])))))
     = Some "a"
  /\ PARAM_REUSE_COOLDOWN_SECONDS < py_int (inject_Z 5000) - py_int (inject_Z 10).
Proof.
  assert (fst (get_and_update_available_param (inject_Z 5000) (inject_Z 5000)
            (run (fun b : bytes => b) [OpSet (inject_Z 20) "k" []; OpCount]
               (snd (get_and_update_available_param (inject_Z 10) (inject_Z 10)
                       (pool_db [row "a" 1 5])))))
          = Some "a") as Hsecond by (vm_compute; reflexivity).
  split; [reflexivity|]. split; [reflexivity|]. split; [exact Hsecond|].
  exact (exhausted_row_rests bytes (fun b => b) (inject_Z 10) (inject_Z 10)
           (inject_Z 5000) (inject_Z 5000) [OpSet (inject_Z 20) "k" []; OpCount]
           (pool_db [row "a" 1 5]) "a" (row "a" 1 5)
           eq_refl eq_refl ltac:(simpl; lia) ltac:(vm_compute; reflexivity)
           eq_refl Hsecond).
Defined.

End cache_manager_more.

(** * Further properties of the security manager *)

Module camp_security_more.

Import cache_manager camp_security cache_manager_spec camp_security_spec.

Section daemon_more.

Variable decode : bytes -> option string.
Variable json_loads : bytes -> option (list string).

(** ** Starting the daemon *)

Lemma every_exn_is_Exception (ex : exn) : isinstance ex Exception = true.
Proof. by destruct ex. Qed.

(** X8. A start that fails never leaves a process handle behind.  If the
    executable cannot be provisioned, that error is raised as it is and
    nothing has changed.  Any failure after that (the spawn, an undecodable
    or wrong readiness line) is raised as [RuntimeError] with the handle
    cleared; the process that was spawned is neither killed nor awaited. *)
Theorem failed_start_clears_handle :
  forall (e : start_env) (w : world) (ex : exn) (w' : world),
    proc_running (sm w) = false ->
    _start_daemon decode e w = (Raise ex, w') ->
    match _executable_path (sm w), executable e with
    | None, inl refused => ex = refused /\ w' = w
    | _, _ =>
        ex = RuntimeError
        /\ _proc (sm w') = None
        /\ store w' = store w
        /\ exists tr,
            trace w' = trace w ++ tr
            /\ forallb (fun ev => negb (is_kill_or_wait ev)) tr = true
    end.
Proof.
  intros e w ex w' Hrun. unfold _start_daemon. unfold_M. rewrite Hrun.
  intros H.
  repeat (case_match; simplify_eq/=); try done;
    try match goal with
        | Hi : isinstance _ Exception = false |- _ =>
            by rewrite every_exn_is_Exception in Hi
        end;
    (split_and!; try done; eexists; split;
       [first [by rewrite app_nil_r | by rewrite <- ?app_assoc] | done]).
Qed.

(** X9. Starting is lazy.  On a running daemon [_start_daemon] does nothing
    at all.  The executable is provisioned only while no path is cached:
    with a cached (non-empty) path the outcome does not depend on what provisioning
    would answer, and a path once provisioned stays cached even if the
    spawn then fails.  A start that returns leaves a running process. *)
Theorem start_is_lazy :
  forall (e : start_env) (w : world),
    (proc_running (sm w) = true -> _start_daemon decode e w = (Return tt, w))
    /\ (forall answer c path,
          _executable_path (sm w) = Some (String c path) ->
          _start_daemon decode
            {| executable := answer; spawned := spawned e;
               ready_signal := ready_signal e; start_stderr := start_stderr e |} w
          = _start_daemon decode e w)
    /\ (forall path,
          proc_running (sm w) = false ->
          _executable_path (sm w) = None ->
          executable e = inr path ->
          _executable_path (sm (snd (_start_daemon decode e w))) = Some path)
    /\ (forall w',
          _start_daemon decode e w = (Return tt, w') -> proc_running (sm w') = true).
Proof.
  intros e w. split_and!.
  - intros Hrun. unfold _start_daemon. unfold_M. by rewrite Hrun.
  - intros answer c path Hpath. unfold _start_daemon. unfold_M. simpl.
    by rewrite Hpath.
  - intros path Hrun Hnone Hexe. unfold _start_daemon. unfold_M.
    rewrite Hrun, Hnone, Hexe. simpl.
    repeat (case_match; simplify_eq/=); done.
  - intros w'. unfold _start_daemon. unfold_M. intros H.
    destruct (proc_running (sm w)) eqn:Hrun; [by simplify_eq|].
    repeat (case_match; simplify_eq/=); done.
Qed.

(** ** The warm-up *)

Lemma pool_grows_refl (d : db) : pool_grows d d.
Proof. split; [done|]. exists []. simpl. by rewrite app_nil_r. Qed.

Lemma pool_grows_trans (d1 d2 d3 : db) :
  pool_grows d1 d2 -> pool_grows d2 d3 -> pool_grows d1 d3.
Proof.
  intros [Hc1 [a1 Hp1]] [Hc2 [a2 Hp2]]. split; [congruence|].
  exists (a1 ++ a2). by rewrite Hp2, Hp1, fmap_app, app_assoc.
Qed.

Lemma pool_grows_add (params : list string) (d : db) :
  pool_grows d (add_new_params params d).
Proof.
  destruct (cache_manager_more.inserts_shape params (param_pool d))
    as (added & Hfold & _).
  split; [done|]. exists added. exact Hfold.
Qed.

Lemma delivered_app (a b : list event) : delivered (a ++ b) = delivered a + delivered b.
Proof.
  induction a as [|ev a IH]; [done|]. simpl. destruct ev; rewrite ?IH; lia.
Qed.

Lemma delivered_nonneg (tr : list event) : 0 <= delivered tr.
Proof. induction tr as [|ev tr IH]; simpl; [done|]. destruct ev; lia. Qed.

(** A batch request hands nothing to the store. *)
Lemma fetch_delivers_nothing (e : request_env) (w : world) (r : outcome (list string))
    (w' : world) :
  _fetch_new_params_from_daemon decode json_loads e w = (r, w') ->
  exists tr, appends w w' tr /\ allocations tr = 0%nat /\ delivered tr = 0.
Proof.
  unfold _fetch_new_params_from_daemon, _start_daemon. unfold_M. intros H.
  repeat (case_match; simplify_eq/=).
  all: eexists; (split; [close_appends|]); simpl; done.
Qed.

(** The loop: the store only grows, nothing is allocated, the bar advances by
    what was delivered, and the only exceptions that leave it are those the
    handler does not name. *)
Lemma warm_up_loop_frame (answers : list request_env) :
  forall (p : progress) (w : world) (r : outcome (option progress)) (w' : world),
    warm_up_loop decode json_loads answers p w = (r, w') ->
    exists tr,
      pool_grows (store w) (store w')
      /\ cluster_size (sm w') = cluster_size (sm w)
      /\ pool_target (sm w') = pool_target (sm w)
      /\ low_water_mark (sm w') = low_water_mark (sm w)
      /\ _warmup_task (sm w') = _warmup_task (sm w)
      /\ _is_warming_up (sm w') = _is_warming_up (sm w)
      /\ trace w' = trace w ++ tr
      /\ allocations tr = 0%nat
      /\ match r with
         | Return (Some p') =>
             total p' = total p /\ completed p' = completed p + delivered tr
             /\ (finished p = false -> total p <= completed p')
         | Return None => True
         | Raise ex => matches ex [RuntimeError; ValueError] = false
         end.
Proof.
  induction answers as [|e answers IH]; intros p w r w' Hrun.
  - simpl in Hrun. unfold_M. exists [].
    destruct (finished p) eqn:Hfin; simplify_eq/=;
      (split; [apply pool_grows_refl|]); rewrite app_nil_r;
      split_and!; first [done | congruence | simpl; lia].
  - simpl in Hrun. destruct (finished p) eqn:Hfin.
    { unfold_M. simplify_eq/=. exists [].
      (split; [apply pool_grows_refl|]); rewrite app_nil_r;
      split_and!; first [done | congruence | simpl; lia]. }
    unfold bind at 1 in Hrun. unfold try_except in Hrun.
    unfold bind at 1 in Hrun.
    destruct (_fetch_new_params_from_daemon decode json_loads e w)
      as [[new_params|ex] w1] eqn:Hfetch;
      apply fetch_delivers_nothing in Hfetch
        as (tr1 & (Hs1 & Hc1 & Ht1 & Hl1 & Hk1 & Hu1 & Htr1) & Ha1 & Hd1).
    + destruct new_params as [|q new_params].
      * unfold ret in Hrun. apply IH in Hrun
          as (tr2 & Hg & Hc2 & Ht2 & Hl2 & Hk2 & Hu2 & Htr2 & Ha2 & Hr).
        exists (tr1 ++ tr2). rewrite Hs1 in Hg.
        split; [done|]. rewrite allocations_app, delivered_app, Ha1, Ha2, Hd1.
        split_and!; try congruence; try (simpl; lia).
        { by rewrite Htr2, Htr1, app_assoc. }
        destruct r as [[p'|]|ex]; try done.
        destruct Hr as (Hr1 & Hr2 & Hr3). split_and!; [done|lia|by intros _; apply Hr3].
      * unfold db_add_new_params in Hrun. unfold_M.
        apply IH in Hrun
          as (tr2 & Hg & Hc2 & Ht2 & Hl2 & Hk2 & Hu2 & Htr2 & Ha2 & Hr).
        simpl in *.
        exists (tr1 ++ [DbAddParams (q :: new_params)] ++ tr2).
        split.
        { eapply pool_grows_trans; [|exact Hg]. rewrite <- Hs1.
          apply pool_grows_add. }
        rewrite !allocations_app, !delivered_app, Ha1, Ha2, Hd1.
        split_and!; try congruence; try (simpl; lia).
        { by rewrite Htr2, Htr1, <- !app_assoc. }
        destruct r as [[p'|]|ex]; try done.
        destruct Hr as (Hr1 & Hr2 & Hr3). simpl (delivered [_]).
        pose proof (delivered_nonneg tr2).
        split_and!; [done|lia|]. intros _.
        rewrite Hfin in Hr3. cbn [orb] in Hr3.
        match type of Hr3 with
        | ?c = false -> _ => destruct c eqn:Hle
        end.
        -- apply Z.leb_le in Hle. lia.
        -- by apply Hr3.
    + destruct (matches ex [RuntimeError; ValueError]) eqn:Hm;
        pose proof Hm as Hm'; unfold matches in Hm'; simpl in Hm';
        rewrite Hm' in Hrun.
      * unfold_M. apply IH in Hrun
          as (tr2 & Hg & Hc2 & Ht2 & Hl2 & Hk2 & Hu2 & Htr2 & Ha2 & Hr).
        simpl in *.
        exists (tr1 ++ [Sleep 5] ++ tr2). rewrite Hs1 in Hg.
        split; [done|].
        rewrite !allocations_app, !delivered_app, Ha1, Ha2, Hd1.
        split_and!; try congruence; try (simpl; lia).
        { by rewrite Htr2, Htr1, <- !app_assoc. }
        destruct r as [[p'|]|ex']; try done.
        destruct Hr as (Hr1 & Hr2 & Hr3). simpl (delivered [_]).
        split_and!; [done|lia|by intros _; apply Hr3].
      * unfold_M. simplify_eq/=. exists tr1.
        split; [rewrite Hs1; apply pool_grows_refl|].
        split_and!; done.
Qed.

(** X12. The warm-up only ever adds to the pool.  Whatever the daemon
    answers, [warm_up_pool] leaves the response cache and every existing
    pool row as they were and appends only unused rows; it allocates
    nothing and does not touch the warm-up task or the configuration.  It
    does nothing at all when a warm-up is already running, the flag
    [_is_warming_up] is cleared whenever the body is left, no [RuntimeError]
    or [ValueError] leaves it, and when it reports the pool full the uses
    counted at entry plus two per delivered parameter reach the target. *)
Theorem warm_up_pool_frame :
  forall (answers : list request_env) (w : world) (r : outcome warm_up_status)
         (w' : world),
    warm_up_pool decode json_loads answers w = (r, w') ->
    (_is_warming_up (sm w) = true -> r = Return AlreadyWarming /\ w' = w)
    /\ (_is_warming_up (sm w) = false ->
        r <> Return AlreadyWarming
        /\ _is_warming_up (sm w') =
             match r with Return StillLooping => true | _ => false end)
    /\ pool_grows (store w) (store w')
    /\ cluster_size (sm w') = cluster_size (sm w)
    /\ pool_target (sm w') = pool_target (sm w)
    /\ low_water_mark (sm w') = low_water_mark (sm w)
    /\ _warmup_task (sm w') = _warmup_task (sm w)
    /\ (forall ex, r = Raise ex -> matches ex [RuntimeError; ValueError] = false)
    /\ exists tr,
         trace w' = trace w ++ tr
         /\ allocations tr = 0%nat
         /\ (r = Return PoolFull ->
             pool_target (sm w)
             <= Z.min (get_available_param_uses_count (store w)) (pool_target (sm w))
                + delivered tr).
Proof.
  intros answers w r w'. unfold warm_up_pool.
  destruct (_is_warming_up (sm w)) eqn:Hflag.
  { intros [= <- <-]. split_and!; try done.
    - apply pool_grows_refl.
    - exists []. rewrite app_nil_r. split_and!; done. }
  unfold modify_sm at 1. unfold bind at 1. unfold get_sm at 1. unfold bind at 1.
  unfold put_sm at 1. unfold bind at 1.
  unfold db_get_available_param_uses_count at 1. unfold bind at 1.
  unfold get_sm at 1. cbn [sm store trace].
  match goal with
  | |- context [warm_up_loop decode json_loads answers ?p ?w0] =>
      destruct (warm_up_loop decode json_loads answers p w0)
        as [[[p'|]|ex] w1] eqn:Hloop;
      apply warm_up_loop_frame in Hloop
        as (tr & [Hcache Hpool] & Hc & Ht & Hl & Hk & Hu & Htr & Ha & Hr)
  end; simpl in *; unfold_M; intros [= <- <-]; simpl.
  - split_and!; try done.
    exists (DbCount (get_available_param_uses_count (store w)) :: tr).
    split; [by rewrite Htr, <- app_assoc|]. split; [done|]. intros _.
    simpl. destruct Hr as (_ & Hr2 & Hr3). specialize (Hr3 eq_refl). lia.
  - split_and!; try done.
    exists (DbCount (get_available_param_uses_count (store w)) :: tr).
    split; [by rewrite Htr, <- app_assoc|]. split; done.
  - split_and!; try done.
    + by intros ? [= ->].
    + exists (DbCount (get_available_param_uses_count (store w)) :: tr).
      split; [by rewrite Htr, <- app_assoc|]. split; done.
Qed.

(** ** Batch requests *)

Lemma find_skips_prefix (prefix body : bytes) :
  Byte.x5b ∉ prefix ->
  find Byte.x5b (prefix ++ Byte.x5b :: body) = Z.of_nat (length prefix).
Proof.
  induction prefix as [|c prefix IH]; intros Hno; [done|].
  apply not_elem_of_cons in Hno as [Hc Hno].
  cbn [app find length]. destruct (Byte.eqb c Byte.x5b) eqn:Heq.
  { apply Byte.byte_dec_bl in Heq. congruence. }
  rewrite (IH Hno). cbv zeta.
  destruct (Z.eqb_spec (Z.of_nat (length prefix)) (-1)); lia.
Qed.

(** X13. A batch is only ever returned by a running daemon that was sent
    exactly one command, and a request that fails with one of the
    exceptions named in the handler (or a subclass) leaves no running
    process behind, so that the next request starts a new one. *)
Theorem fetch_outcome :
  forall (e : request_env) (w : world) (r : outcome (list string)) (w' : world),
    _fetch_new_params_from_daemon decode json_loads e w = (r, w') ->
    match r with
    | Return _ =>
        proc_running (sm w') = true
        /\ exists tr, trace w' = trace w ++ tr /\ writes tr = 1%nat
    | Raise ex =>
        matches ex communication_errors = true -> proc_running (sm w') = false
    end.
Proof.
  intros e w r w'.
  unfold _fetch_new_params_from_daemon, _start_daemon, communication_errors.
  unfold_M. intros H.
  destruct (proc_running (sm w)) eqn:Hrun; simpl in H.
  - repeat (case_match; simplify_eq/=); try done.
    all: try (split; [done|]; eexists; split;
              [by rewrite <- ?app_assoc|reflexivity]).
    all: try congruence.
  - repeat (case_match; simplify_eq/=); try done.
    all: try (split; [done|]; eexists; split;
              [by rewrite <- ?app_assoc|reflexivity]).
    all: try congruence.
Qed.

(** X14. Whatever precedes the first opening bracket on the daemon's
    answer is ignored: a line with a diagnostic prefix that holds no
    bracket is treated exactly as the line without the prefix. *)
Theorem fetch_ignores_prefix :
  forall (e : request_env) (prefix body : bytes) (w : world),
    Byte.x5b ∉ prefix ->
    _fetch_new_params_from_daemon decode json_loads
      (with_output_line (prefix ++ Byte.x5b :: body) e) w
    = _fetch_new_params_from_daemon decode json_loads
        (with_output_line (Byte.x5b :: body) e) w.
Proof.
  intros e prefix body w Hno.
  pose proof (find_skips_prefix prefix body Hno) as Hfind.
  assert (drop (Z.to_nat (find Byte.x5b (prefix ++ Byte.x5b :: body)))
            (prefix ++ Byte.x5b :: body) = Byte.x5b :: body) as Hdrop.
  { rewrite Hfind, Nat2Z.id. by rewrite drop_app_length. }
  assert ((find Byte.x5b (prefix ++ Byte.x5b :: body) =? -1) = false) as Hne.
  { apply Z.eqb_neq. lia. }
  assert (prefix ++ Byte.x5b :: body <> []) as Hnil by (by destruct prefix).
  clear Hfind Hno. revert Hdrop Hne Hnil.
  generalize (prefix ++ Byte.x5b :: body). intros line Hdrop Hne Hnil.
  destruct line as [|c line]; [done|].
  unfold _fetch_new_params_from_daemon, with_output_line.
  cbn [start drained output_line stderr_rest alive_at_kill].
  rewrite Hne. revert Hdrop.
  generalize (drop (Z.to_nat (find Byte.x5b (c :: line))) (c :: line)).
  intros ? ->. reflexivity.
Qed.

(** ** Priming *)

(** X28. [prime_daemon] schedules the warm-up only behind a running
    daemon.  When it returns the daemon runs, and a warm-up task is pending
    if one was asked for, while without [warm_up] the task is left as it
    was; when the start fails, the exception is that of the start and no
    task has been created.  The store is not touched either way. *)
Theorem prime_daemon_outcome :
  forall (e : start_env) (warm_up : bool) (w : world) (r : outcome unit) (w' : world),
    prime_daemon decode e warm_up w = (r, w') ->
    store w' = store w
    /\ match r with
       | Return _ =>
           proc_running (sm w') = true
           /\ (if warm_up
               then task_pending (_warmup_task (sm w')) = true
               else _warmup_task (sm w') = _warmup_task (sm w))
       | Raise ex =>
           _start_daemon decode e w = (Raise ex, w')
           /\ _warmup_task (sm w') = _warmup_task (sm w)
       end.
Proof.
  intros e warm_up w r w'. unfold prime_daemon. unfold bind at 1.
  destruct (_start_daemon decode e w) as [[[]|ex] w1] eqn:Hstart.
  - assert (proc_running (sm w1) = true) as Hrun.
    { revert Hstart. unfold _start_daemon. unfold_M.
      destruct (proc_running (sm w)) eqn:Hr; [by intros [= <-]|].
      intros H. repeat (case_match; simplify_eq/=); done. }
    apply start_appends in Hstart as (tr & (Hs & _ & _ & _ & Hk & _) & _).
    destruct warm_up.
    + unfold trigger_warmup. unfold_M. intros H.
      destruct (_warmup_task (sm w1)) as [[[]]|] eqn:Htask; simplify_eq/=;
        rewrite ?Htask; done.
    + intros [= <- <-]. done.
  - intros [= <- <-]. split; [|split; [done|]];
      by apply start_appends in Hstart as (tr & (Hs & _ & _ & _ & Hk & _) & _).
Qed.

End daemon_more.

Lemma failed_start_clears_handle_witness :
  proc_running (sm (world_of empty_db new_security_manager)) = false
  /\ _start_daemon decode_ascii busy_start (world_of empty_db new_security_manager) =
       (Raise RuntimeError,
        snd (_start_daemon decode_ascii busy_start
               (world_of empty_db new_security_manager)))
  /\ _proc (sm (snd (_start_daemon decode_ascii busy_start
                       (world_of empty_db new_security_manager)))) = None.
Proof.
  assert (_start_daemon decode_ascii busy_start (world_of empty_db new_security_manager) =
          (Raise RuntimeError,
           snd (_start_daemon decode_ascii busy_start
                  (world_of empty_db new_security_manager)))) as Hrun
    by (vm_compute; reflexivity).
  split; [reflexivity|]. split; [exact Hrun|].
  exact (proj1 (proj2 (failed_start_clears_handle decode_ascii busy_start
                         (world_of empty_db new_security_manager) _ _ eq_refl Hrun))).
Defined.

Lemma start_is_lazy_witness :
  proc_running (sm (world_of empty_db running_manager)) = true
  /\ _start_daemon decode_ascii busy_start (world_of empty_db running_manager) =
     (Return tt, world_of empty_db running_manager).
Proof.
  split; [reflexivity|].
  exact (proj1 (start_is_lazy decode_ascii busy_start
                  (world_of empty_db running_manager)) eq_refl).
Defined.

(** ** Scheduling the warm-up *)

(** X10. [trigger_warmup] keeps at most one warm-up task pending: it always
    returns with a pending task, it does nothing when a task is already
    pending, and it creates at most one task however often it is called in
    a row. *)
Theorem trigger_warmup_once :
  forall (w : world),
    fst (trigger_warmup w) = Return tt
    /\ task_pending (_warmup_task (sm (snd (trigger_warmup w)))) = true
    /\ (task_pending (_warmup_task (sm w)) = true -> snd (trigger_warmup w) = w)
    /\ (task_pending (_warmup_task (sm w)) = false ->
        trace (snd (trigger_warmup w)) = trace w ++ [CreateTask])
    /\ trigger_warmup (snd (trigger_warmup w)) = (Return tt, snd (trigger_warmup w)).
Proof.
  intros w. unfold trigger_warmup. unfold_M.
  destruct (_warmup_task (sm w)) as [[[]]|] eqn:Htask; simpl; rewrite ?Htask; simpl;
    split_and!; done.
Qed.

Lemma trigger_warmup_once_witness :
  task_pending (_warmup_task (sm (world_of empty_db running_manager))) = false
  /\ trace (snd (trigger_warmup (world_of empty_db running_manager))) = [CreateTask].
Proof.
  split; [reflexivity|].
  exact (proj1 (proj2 (proj2 (proj2
           (trigger_warmup_once (world_of empty_db running_manager))))) eq_refl).
Defined.

(** ** Closing *)

(** X11. [close] signals the daemon only if it is running, kills it only
    after the grace period has run out, and whenever it returns the process
    handle is cleared and no warm-up task is pending, so that a second
    [close] does nothing.  The one way it fails is [ProcessLookupError] from
    [kill()] when the process vanishes after the timeout; the handle is then
    left in place. *)
Theorem close_is_clean :
  forall (started : bool) (answer : terminate_answer) (s : security_manager),
    let after := close started answer s in
    (proc_running s = false ->
       forallb (fun ev => negb (is_signal ev)) (snd after) = true)
    /\ (forall child,
          KillProcess child ∈ snd after -> exists alive, answer = Hangs alive)
    /\ (fst (fst after) = Return tt ->
        _proc (snd (fst after)) = None
        /\ task_pending (_warmup_task (snd (fst after))) = false
        /\ forall started' answer',
            close started' answer' (snd (fst after)) =
              (Return tt, snd (fst after), []))
    /\ (forall ex,
          fst (fst after) = Raise ex ->
          ex = ProcessLookupError /\ answer = Hangs false
          /\ _proc (snd (fst after)) = _proc s).
Proof.
  intros started answer s. unfold close, proc_running, task_pending.
  destruct s as [cs pt lw [[child [rc|]]|] path [[[]]|] warming];
    destruct started; destruct answer as [| |[]]; simpl;
    (split_and!;
       [ try done
       | intros c Hin; try (by eexists);
         repeat (apply elem_of_cons in Hin as [Hin|Hin]; [discriminate|]);
         by apply elem_of_nil in Hin
       | try done; intros _; split_and!; try done; by intros [] [| |[]]
       | try done; intros ex [= <-]; done ]).
Qed.

Lemma close_is_clean_witness :
  fst (fst (close true ExitsInTime running_manager)) = Return tt
  /\ _proc (snd (fst (close true ExitsInTime running_manager))) = None
  /\ snd (close true ExitsInTime running_manager) = [Terminate 7; WaitFor 7 (3 # 1)].
Proof.
  split; [reflexivity|]. split; [|reflexivity].
  exact (proj1 (proj1 (proj2 (proj2 (close_is_clean true ExitsInTime running_manager)))
                  eq_refl)).
Defined.

Lemma warm_up_pool_frame_witness :
  let w := world_of (pool_db [row "old" 1 5]) running_manager in
  let run := warm_up_pool decode_ascii json_loads_strings [healthy ["a"; "b"]] w in
  fst run = Return StillLooping
  /\ pool_grows (store w) (store (snd run))
  /\ _is_warming_up (sm (snd run)) = true.
Proof.
  intros w run.
  assert (Hrun : run = (Return StillLooping, snd run)) by (vm_compute; reflexivity).
  pose proof (warm_up_pool_frame decode_ascii json_loads_strings _ _ _ _ Hrun)
    as (_ & Hflag & Hgrows & _).
  split; [by rewrite Hrun|]. split; [exact Hgrows|].
  exact (proj2 (Hflag eq_refl)).
Defined.

Lemma fetch_outcome_witness :
  let w := world_of empty_db new_security_manager in
  let run := _fetch_new_params_from_daemon decode_ascii json_loads_strings
               closed_stream w in
  fst run = Raise RuntimeError /\ proc_running (sm (snd run)) = false.
Proof.
  intros w run.
  assert (Hrun : run = (Raise RuntimeError, snd run)) by (vm_compute; reflexivity).
  split; [by rewrite Hrun|].
  exact (fetch_outcome decode_ascii json_loads_strings closed_stream w
           (Raise RuntimeError) (snd run) Hrun eq_refl).
Defined.

Lemma fetch_ignores_prefix_witness :
  (Byte.x5b ∉ encode "generated ")
  /\ _fetch_new_params_from_daemon decode_ascii json_loads_strings
       (with_output_line (encode "generated " ++ Byte.x5b :: encode "]") (healthy []))
       (world_of empty_db running_manager)
     = _fetch_new_params_from_daemon decode_ascii json_loads_strings
         (with_output_line (Byte.x5b :: encode "]") (healthy []))
         (world_of empty_db running_manager).
Proof.
  assert (Byte.x5b ∉ encode "generated ") as Hno.
  { intros Hin. vm_compute in Hin.
    repeat (apply elem_of_cons in Hin as [Hin|Hin]; [discriminate|]).
    by apply elem_of_nil in Hin. }
  split; [exact Hno|].
  exact (fetch_ignores_prefix decode_ascii json_loads_strings _ _ _ _ Hno).
Defined.

(** ** The trace header *)

Lemma hex_digit_is_hex (n : N) : (n < 16)%N -> is_hex_digit (hex_digit n) = true.
Proof.
  intros Hn. unfold is_hex_digit, hex_digit.
  destruct (N.ltb_spec n 10).
  - rewrite Ascii.N_ascii_embedding by lia.
    apply orb_true_iff. left. apply andb_true_iff. split; apply N.leb_le; lia.
  - rewrite Ascii.N_ascii_embedding by lia.
    apply orb_true_iff. right. apply andb_true_iff. split; apply N.leb_le; lia.
Qed.

Lemma byte_below_256 (b : Byte.byte) : (Byte.to_N b < 256)%N.
Proof. pose proof (Byte.to_N_bounded b). lia. Qed.

Lemma token_hex_length (random : bytes) :
  String.length (token_hex random) = (2 * length random)%nat.
Proof. induction random as [|b random IH]; simpl; [done|]. rewrite IH. lia. Qed.

Lemma token_hex_all_hex (random : bytes) : all_hex (token_hex random) = true.
Proof.
  induction random as [|b random IH]; [done|].
  pose proof (byte_below_256 b) as Hb.
  cbn [token_hex all_hex]. rewrite IH, !hex_digit_is_hex; [done| |].
  - apply N.mod_lt. lia.
  - apply N.Div0.div_lt_upper_bound. lia.
Qed.

Lemma string_length_app (a b : string) :
  String.length (a +:+ b) = (String.length a + String.length b)%nat.
Proof. induction a as [|c a IH]; simpl; [done|]. by rewrite IH. Qed.

Lemma prefix_app (a b : string) : String.prefix a (a +:+ b) = true.
Proof.
  induction a as [|c a IH].
  - by destruct b.
  - change (String.prefix (String c a) (String c (a +:+ b)) = true). simpl.
    destruct (Ascii.ascii_dec c c); [exact IH|congruence].
Qed.



Lemma prime_daemon_outcome_witness :
  let w := world_of empty_db new_security_manager in
  let run := prime_daemon decode_ascii healthy_start true w in
  fst run = Return tt
  /\ proc_running (sm (snd run)) = true
  /\ task_pending (_warmup_task (sm (snd run))) = true.
Proof.
  intros w run.
  assert (Hrun : run = (Return tt, snd run)) by (vm_compute; reflexivity).
  split; [by rewrite Hrun|].
  exact (proj2 (prime_daemon_outcome decode_ascii healthy_start true w
                  (Return tt) (snd run) Hrun)).
Defined.

End camp_security_more.

(** * The API layer: retries and the response cache *)

Module hok_api_more.

Import cache_manager camp_security hok_api.
Import cache_manager_spec camp_security_spec.

Lemma http_requests_app (a b : list api_event) :
  http_requests (a ++ b) = (http_requests a + http_requests b)%nat.
Proof. unfold http_requests. by rewrite List.filter_app, length_app. Qed.

Lemma sleeps_app (a b : list api_event) : sleeps (a ++ b) = sleeps a ++ sleeps b.
Proof. unfold sleeps. apply omap_app. Qed.

(** ** The decorator *)

Section retry_more.

Context {A : Type}.
Variable exceptions : api_exn -> bool.
Variable func : nat -> api_world -> api_outcome A * api_world.

Lemma retry_loop_schedule (delay backoff : Z) (aw : api_world) (n : nat) :
  forall i : nat,
    (forall j, (j < i)%nat ->
       retried exceptions
         (fst (func j (world_before func delay backoff j aw))) = true) ->
    exists k : nat,
      (i <= k <= i + n)%nat
      /\ retry_loop exceptions func n i (delay * backoff ^ Z.of_nat i) backoff
           (world_before func delay backoff i aw)
         = func k (world_before func delay backoff k aw)
      /\ (forall j, (j < k)%nat ->
            retried exceptions
              (fst (func j (world_before func delay backoff j aw))) = true)
      /\ ((k < i + n)%nat ->
            retried exceptions
              (fst (func k (world_before func delay backoff k aw))) = false).
Proof.
  induction n as [|n IH]; intros i Hbefore.
  - exists i. split; [lia|]. split; [done|]. split; [done|]. lia.
  - cbn [retry_loop].
    destruct (func i (world_before func delay backoff i aw)) as [[a|e] aw'] eqn:Hcall.
    + exists i. rewrite Hcall. split; [lia|]. split; [done|]. split; [done|]. done.
    + destruct (exceptions e) eqn:Hexc.
      * destruct (IH (S i)) as (k & Hk & Hrun & Hall & Hlast).
        { intros j Hj. destruct (decide (j = i)) as [->|Hne].
          - by rewrite Hcall.
          - apply Hbefore. lia. }
        exists k. split; [lia|]. split; [|split; [done|]].
        -- rewrite <- Hrun. cbn [world_before]. rewrite Hcall. cbn [snd].
           f_equal. rewrite Nat2Z.inj_succ, Z.pow_succ_r by lia. lia.
        -- intros Hlt. apply Hlast. lia.
      * exists i. rewrite Hcall. split; [lia|]. split; [done|]. split; [done|].
        intros _. done.
Qed.

(** X16. The schedule of [retry].  The decorated function is called until a
    call returns or raises an exception that is not retried, at most
    [max(1, tries)] times in all; before call [k] (counting from 0) it has
    slept [delay * backoff ^ j] after each earlier call [j]; and the
    outcome of the decorated call is the outcome of the last call made,
    whatever that is. *)
Theorem retry_schedule :
  forall (tries delay backoff : Z) (aw : api_world),
    exists k : nat,
      (k <= Z.to_nat (tries - 1))%nat
      /\ retry exceptions func tries delay backoff aw
         = func k (world_before func delay backoff k aw)
      /\ (forall j, (j < k)%nat ->
            retried exceptions
              (fst (func j (world_before func delay backoff j aw))) = true)
      /\ ((k < Z.to_nat (tries - 1))%nat ->
            retried exceptions
              (fst (func k (world_before func delay backoff k aw))) = false).
Proof.
  intros tries delay backoff aw. unfold retry.
  destruct (retry_loop_schedule delay backoff aw (Z.to_nat (tries - 1)) 0)
    as (k & Hk & Hrun & Hall & Hlast); [lia|].
  exists k. split; [lia|]. split; [|done].
  rewrite <- Hrun. cbn [world_before]. f_equal. simpl. lia.
Qed.

End retry_more.

(** ** Requests *)

Section request_more.

Context {V : Type}.
Variable py_None : V.
Variable truthy : V -> bool.
Variable dumps : V -> bytes.
Variable loads : bytes -> V.
Variable is_json : bytes -> bool.
Variable decode : bytes -> option string.
Variable json_loads : bytes -> option (list string).

(** What one call of [get_headers] does to the store and the trace: the
    response cache is left alone, at least one allocation is run, and the
    parameter it returns is not the empty string. *)
Lemma get_headers_frame (e : headers_env) (w : world) (r : outcome headers)
    (w' : world) :
  get_headers decode json_loads e w = (r, w') ->
  api_cache (store w') = api_cache (store w)
  /\ (exists tr, trace w' = trace w ++ tr /\ (1 <= allocations tr)%nat)
  /\ match r with
     | Return h => specialencodeparam h <> EmptyString
     | Raise _ => True
     end.
Proof.
  intros Hres.
  pose proof (allocate_keeps_cache (fst (clock_1 e)) (snd (clock_1 e)) (store w))
    as Hcache1.
  destruct (not_param (fst (get_and_update_available_param
              (fst (clock_1 e)) (snd (clock_1 e)) (store w)))) eqn:Hp.
  - rewrite get_headers_emergency in Hres; [|done].
    match type of Hres with context [emergency_fetch _ _ _ ?x] => set (w1 := x) in * end.
    destruct (_fetch_new_params_from_daemon decode json_loads (refill e) w1)
      as [rf w2] eqn:Hfetch.
    rewrite (emergency_fetch_spec _ _ _ _ _ _ Hfetch) in Hres.
    destruct (fetch_appends _ _ _ _ _ _ Hfetch) as (tr & Happ & _).
    destruct Happ as (Hstore & _ & _ & _ & _ & _ & Htrace).
    assert (trace w2 = trace w ++ DbAllocate
              (fst (get_and_update_available_param
                      (fst (clock_1 e)) (snd (clock_1 e)) (store w))) :: tr) as Htr2.
    { rewrite Htrace. unfold w1. simpl. by rewrite <- app_assoc. }
    assert (api_cache (store w2) = api_cache (store w)) as Hc2.
    { rewrite Hstore. unfold w1. simpl. exact Hcache1. }
    destruct rf as [[|b bs]|ex]; simplify_eq/=.
    + split; [done|]. split; [|done]. eexists. split; [exact Htr2|].
      unfold allocations. simpl. lia.
    + match type of Hres with context [not_param ?x] =>
        destruct (not_param x) eqn:Hp2; simplify_eq/=
      end.
      * rewrite allocate_keeps_cache. split; [done|]. split; [|done].
        eexists. split; [by rewrite Htr2, <- app_assoc|].
        unfold allocations. simpl. lia.
      * rewrite background_refill_spec. simpl.
        apply not_param_false in Hp2 as [_ Hne].
        destruct (_ && _); simpl; rewrite allocate_keeps_cache;
          (split; [done|]); (split; [|done]);
          (eexists; split; [by rewrite Htr2, <- !app_assoc|]);
          unfold allocations; simpl; lia.
    + split; [done|]. split; [|done]. eexists. split; [exact Htr2|].
      unfold allocations. simpl. lia.
  - rewrite get_headers_direct in Hres; [|done].
    rewrite background_refill_spec in Hres. simpl in Hres.
    apply not_param_false in Hp as [_ Hne].
    destruct (_ && _); simplify_eq/=;
      (split; [done|]); (split; [|done]);
      (eexists; split; [by rewrite <- !app_assoc|]);
      unfold allocations; simpl; lia.
Qed.


(** One call of [_request]: what it adds to the two traces. *)
Lemma _request_step (e : attempt_env) (method endpoint : string) (data : option V)
    (use_cache : bool) (aw : api_world) (r : api_outcome V) (aw' : api_world) :
  _request py_None truthy dumps loads is_json decode json_loads
    e method endpoint data use_cache aw = (r, aw') ->
  exists cs tr,
    calls aw' = calls aw ++ cs
    /\ trace (inner aw') = trace (inner aw) ++ tr
    /\ sleeps cs = []
    /\ (http_requests cs <= 1)%nat
    /\ (http_requests cs <= allocations tr)%nat
    /\ (retried is_timeout r = true -> http_requests cs = 1%nat).
Proof.
  unfold _request. intros H.
  destruct (use_cache && truthy _) eqn:Hhit.
  { simplify_eq/=. exists [], []. rewrite !app_nil_r. split_and!; try done;
      unfold http_requests, allocations; simpl; lia. }
  destruct (get_headers decode json_loads (security e) (inner aw))
    as [[h|ex] w] eqn:Hh;
    apply get_headers_frame in Hh as (_ & (tr & Htr & Hal) & _).
  - exists [HttpRequest method endpoint (dumps <$> given truthy data) h], tr.
    repeat (case_match; simplify_eq/=); split_and!; try done;
      unfold http_requests; simpl; lia.
  - simplify_eq/=. exists [], tr. rewrite app_nil_r. split_and!; try done;
      unfold http_requests; simpl; lia.
Qed.

(** X18. What a request that is not served from the cache does.  Unless the
    cache answers, [_request] allocates a credential first; it then either
    fails in [get_headers] without sending anything, or sends exactly one
    request, which carries a non-empty [specialencodeparam].  The response
    cache is written only by a call that returns with [use_cache] set, and
    then exactly the entry of the request's key is replaced; a call that
    raises, or runs with [use_cache=False], leaves the cache as it was. *)
Theorem _request_effects :
  forall (e : attempt_env) (method endpoint : string) (data : option V)
         (use_cache : bool) (aw : api_world) (r : api_outcome V) (aw' : api_world),
    _request py_None truthy dumps loads is_json decode json_loads
      e method endpoint data use_cache aw = (r, aw') ->
    let key := cache_key truthy dumps endpoint data in
    let hit := use_cache
               && truthy (get py_None loads (cache_clock e) key (store (inner aw))) in
    (hit = false ->
       (exists tr, trace (inner aw') = trace (inner aw) ++ tr
                   /\ (1 <= allocations tr)%nat)
       /\ ((exists ex, r = Failed (SecurityError ex) /\ calls aw' = calls aw)
           \/ (exists h, calls aw' = calls aw
                           ++ [HttpRequest method endpoint
                                 (dumps <$> given truthy data) h]
                         /\ specialencodeparam h <> EmptyString)))
    /\ api_cache (store (inner aw')) =
         match r with
         | Done v =>
             if use_cache && negb hit
             then <[key := (dumps v, py_int (store_clock e))]>
                    (api_cache (store (inner aw)))
             else api_cache (store (inner aw))
         | Failed _ => api_cache (store (inner aw))
         end.
Proof.
  intros e method endpoint data use_cache aw r aw' H key hit. subst hit.
  unfold _request in H. fold key in H.
  destruct use_cache; cbn [andb negb] in *.
  - destruct (truthy (get py_None loads (cache_clock e) key (store (inner aw))))
      eqn:Hhit.
    { simplify_eq/=. split; done. }
    destruct (get_headers decode json_loads (security e) (inner aw))
      as [[h|ex] w] eqn:Hh;
      apply get_headers_frame in Hh as (Hcache & (tr & Htr & Hal) & Hparam).
    + repeat (case_match; simplify_eq/=);
        (split; [intros _; split; [by exists tr|right; by exists h]|]); try done.
      unfold set. simpl. by rewrite Hcache.
    + simplify_eq/=. split; [|done]. intros _. split; [by exists tr|].
      left. by exists ex.
  - destruct (get_headers decode json_loads (security e) (inner aw))
      as [[h|ex] w] eqn:Hh;
      apply get_headers_frame in Hh as (Hcache & (tr & Htr & Hal) & Hparam).
    + repeat (case_match; simplify_eq/=);
        (split; [intros _; split; [by exists tr|right; by exists h]|]); done.
    + simplify_eq/=. split; [|done]. intros _. split; [by exists tr|].
      left. by exists ex.
Qed.



End request_more.



Lemma _request_effects_witness :
  let aw := api_world_of (world_of empty_db running_manager) in
  let run := _request [] raw_truthy (fun b => b) (fun b => b) (fun _ => true)
               decode_ascii json_loads_strings
               (flaky 0 "p" (encode "{}") 0) "POST" "/heroes" None true aw in
  fst run = Done (encode "{}")
  /\ api_cache (store (inner (snd run))) = {[ "/heroes" := (encode "{}", 101) ]}.
Proof.
  intros aw run.
  assert (Hrun : run = (Done (encode "{}"), snd run)) by (vm_compute; reflexivity).
  split; [by rewrite Hrun|].
  exact (proj2 (_request_effects [] raw_truthy (fun b => b) (fun b => b)
                  (fun _ => true) decode_ascii json_loads_strings
                  (flaky 0 "p" (encode "{}") 0) "POST" "/heroes" None true aw
                  (Done (encode "{}")) (snd run) Hrun)).
Defined.



End hok_api_more.

(** * The downloader: nothing unverified is installed *)

Module downloader_more.

Import downloader.

Lemma supported_cases (platform : string) :
  supported platform = true ->
  platform = "linux" \/ platform = "win32" \/ platform = "darwin".
Proof.
  unfold supported. intros H%bool_decide_eq_true.
  repeat (apply elem_of_cons in H; destruct H as [H|H]; [solve [auto]|]).
  by apply elem_of_nil in H.
Qed.

Lemma unsupported_cases (platform : string) :
  supported platform = false ->
  platform <> "linux" /\ platform <> "win32" /\ platform <> "darwin".
Proof.
  unfold supported. intros H%bool_decide_eq_false.
  split_and!; intros ->; apply H; set_solver.
Qed.

(** The two tables have the same keys. *)
Lemma urls_supported (platform : string) :
  missing (EXECUTABLE_URLS !! platform) = negb (supported platform).
Proof.
  destruct (supported platform) eqn:Hs.
  - apply supported_cases in Hs as [-> | [-> | ->]]; reflexivity.
  - apply unsupported_cases in Hs as (H1 & H2 & H3). unfold EXECUTABLE_URLS.
    by rewrite !lookup_insert_ne, lookup_empty.
Qed.

Lemma hashes_supported (platform : string) :
  missing (KNOWN_HASHES !! platform) = negb (supported platform).
Proof.
  destruct (supported platform) eqn:Hs.
  - apply supported_cases in Hs as [-> | [-> | ->]]; reflexivity.
  - apply unsupported_cases in Hs as (H1 & H2 & H3). unfold KNOWN_HASHES.
    by rewrite !lookup_insert_ne, lookup_empty.
Qed.

Lemma exists_true (p : path) (d : disk) :
  exists_ p d = true <-> is_Some (files d !! p).
Proof. unfold exists_. apply bool_decide_eq_true. Qed.

Section download_more.

Variable sha256_hexdigest : list Byte.byte -> string.
Variable decompress : list Byte.byte -> option (list Byte.byte).


(** X22. [ensure_executable_exists] downloads only when it has to and
    installs only what was verified.  An executable that is already there
    is returned without any request; on a platform that has no URL the call
    raises [RuntimeError] without any request; otherwise one request is made
    to the platform's URL.  A returned path is the platform's path, the
    file is there, and if it had to be fetched it is the decompressed body
    of an archive whose digest is the one pinned for the platform.  A call
    that raises leaves all files as they were, and since every platform
    that has a URL has a pinned digest, [RuntimeError] is raised on a
    supported platform only if the download itself raised it. *)
Theorem ensure_executable_exists_spec :
  forall (package_dir : path) (platform : string) (answer : exn + list Byte.byte)
         (d : disk) (r : exn + path) (d' : disk),
    ensure_executable_exists sha256_hexdigest decompress
      package_dir platform answer d = (r, d') ->
    let executable_path := get_executable_path package_dir platform in
    (exists_ executable_path d = true -> r = inr executable_path /\ d' = d)
    /\ (exists_ executable_path d = false -> supported platform = false ->
        r = inl RuntimeError /\ d' = d)
    /\ (exists_ executable_path d = false -> supported platform = true ->
        exists url, EXECUTABLE_URLS !! platform = Some url
                    /\ fetched d' = fetched d ++ [url]
                    /\ (answer <> inl RuntimeError -> r <> inl RuntimeError))
    /\ (forall q, r = inr q -> q = executable_path /\ exists_ executable_path d' = true)
    /\ (forall q, r = inr q -> exists_ executable_path d = false ->
        exists compressed data,
          answer = inr compressed
          /\ KNOWN_HASHES !! platform = Some (sha256_hexdigest compressed)
          /\ decompress compressed = Some data
          /\ files d' !! executable_path =
               Some {| content := data;
                       S_IXUSR := negb (String.eqb platform "win32") |})
    /\ (forall e, r = inl e -> files d' = files d).
Proof.
  intros package_dir platform answer d r d' H executable_path.
  unfold ensure_executable_exists in H. fold executable_path in H.
  destruct (exists_ executable_path d) eqn:Hex.
  { simplify_eq/=. split_and!; try done. by intros q [= <-]. }
  pose proof (urls_supported platform) as Hurl.
  pose proof (hashes_supported platform) as Hhash.
  apply bool_decide_eq_false in Hex as Hnone. rewrite <- eq_None_not_Some in Hnone.
  destruct (supported platform) eqn:Hsup; simpl in Hurl, Hhash; rewrite Hurl in H.
  2: { simplify_eq/=. split_and!; try done. }
  destruct (EXECUTABLE_URLS !! platform) as [url|] eqn:Hlook; [|done].
  simpl in H.
  unfold download_and_decompress, verify_hash in H. rewrite Hhash in H.
  destruct answer as [e|compressed].
  { simplify_eq/=. split_and!; try done. intros _ _. exists url. split_and!; try done.
    intros Hne [= ->]. done. }
  case_bool_decide as Hdigest.
  2: { simplify_eq/=. split_and!; try done. intros _ _. by exists url. }
  destruct (decompress compressed) as [data|] eqn:Hdec.
  2: { simplify_eq/=. split_and!; try done. intros _ _. by exists url. }
  unfold exists_, write, chmod_executable in H. cbn [files fetched] in H.
  rewrite Hnone in H.
  destruct (String.eqb platform "win32") eqn:Hwin; simpl in H.
  - rewrite bool_decide_eq_true_2 in H by (rewrite lookup_insert_eq; eauto).
    simplify_eq/=. split_and!; try done.
    + intros _ _. by exists url.
    + intros q [= <-]. split; [done|]. apply exists_true. simpl.
      rewrite lookup_insert_eq. eauto.
    + intros q [= <-] _. exists compressed, data. split_and!; try done.
      by rewrite lookup_insert_eq.
  - rewrite bool_decide_eq_true_2 in H
      by (rewrite lookup_alter_eq, lookup_insert_eq; eauto).
    simplify_eq/=. split_and!; try done.
    + intros _ _. by exists url.
    + intros q [= <-]. split; [done|]. apply exists_true. simpl.
      rewrite lookup_alter_eq, lookup_insert_eq. eauto.
    + intros q [= <-] _. exists compressed, data. split_and!; try done.
      by rewrite lookup_alter_eq, lookup_insert_eq.
Qed.

End download_more.


Lemma ensure_executable_exists_spec_witness :
  let run := ensure_executable_exists toy_sha256 toy_decompress
               ["hok"] "linux" (inr archive) empty_disk in
  fst run = inr ["hok"; "bin"; "camp-security"]
  /\ exists_ ["hok"; "bin"; "camp-security"] (snd run) = true.
Proof.
  intros run.
  assert (Hrun : run = (inr ["hok"; "bin"; "camp-security"], snd run))
    by (vm_compute; reflexivity).
  split; [by rewrite Hrun|].
  exact (proj2 (proj1 (proj2 (proj2 (proj2
           (ensure_executable_exists_spec toy_sha256 toy_decompress
              ["hok"] "linux" (inr archive) empty_disk _ _ Hrun)))) _ eq_refl)).
Defined.

End downloader_more.

(** * The client: hero map and joins *)

Module client_more.

Import client.

Section joins_more.

Context {HeroBriefInfo RankEntry AdjustItem InformationCard E : Type}.
Variable heroId : HeroBriefInfo -> Z.
Variable rank_heroId : RankEntry -> Z.
Variable adjust_heroId : AdjustItem -> Z.
Variable card_heroId : InformationCard -> Z.

Lemma fmap_fmap_id {A B} (f : A -> B) (g : B -> A) (l : list A) :
  (forall x, g (f x) = x) -> g <$> (f <$> l) = l.
Proof. intros H. induction l as [|x l IH]; csimpl; [done|]. by rewrite H, IH. Qed.

Lemma foldl_insert_lookup (heroes : list HeroBriefInfo) :
  forall (m : gmap Z HeroBriefInfo) (k : Z),
    foldl (fun m hero => <[heroId hero := hero]> m) m heroes !! k =
      match last (filter (fun hero => heroId hero = k) heroes) with
      | Some hero => Some hero
      | None => m !! k
      end.
Proof.
  induction heroes as [|h heroes IH]; intros m k; [done|].
  cbn [foldl]. rewrite IH. rewrite filter_cons.
  destruct (decide (heroId h = k)) as [Hk|Hk].
  - rewrite last_cons. destruct (last (filter _ heroes)); [done|].
    by rewrite <- Hk, lookup_insert_eq.
  - destruct (last (filter _ heroes)); [done|]. by rewrite lookup_insert_ne.
Qed.

(** The hero filed under an id is the last hero of the list with that id. *)
Lemma hero_map_lookup (heroes : list HeroBriefInfo) (k : Z) :
  hero_map heroId heroes !! k = last (filter (fun hero => heroId hero = k) heroes).
Proof.
  unfold hero_map. rewrite foldl_insert_lookup, lookup_empty.
  by destruct (last _).
Qed.

Lemma hero_map_Some (heroes : list HeroBriefInfo) (k : Z) (hero : HeroBriefInfo) :
  hero_map heroId heroes !! k = Some hero -> heroId hero = k /\ hero ∈ heroes.
Proof.
  rewrite hero_map_lookup. intros H%last_Some_elem_of.
  by apply list_elem_of_filter in H.
Qed.

Lemma hero_map_is_Some (heroes : list HeroBriefInfo) (k : Z) :
  is_Some (hero_map heroId heroes !! k) <-> k ∈ heroId <$> heroes.
Proof.
  rewrite hero_map_lookup. split.
  - intros [hero H%last_Some_elem_of]. apply list_elem_of_filter in H as [<- Hin].
    by apply list_elem_of_fmap_2.
  - intros (hero & -> & Hin)%list_elem_of_fmap.
    destruct (last (filter (fun h => heroId h = heroId hero) heroes)) eqn:Hlast;
      [by eexists|].
    apply last_None in Hlast.
    assert (hero ∈ filter (fun h => heroId h = heroId hero) heroes) as Hf
      by (by apply list_elem_of_filter).
    rewrite Hlast in Hf. by apply elem_of_nil in Hf.
Qed.

(** X23. The hero list is fetched once.  A call of [_get_hero_map] that
    fails changes nothing, so the next call asks the API again; once a call
    has succeeded, every later call returns the same map without consulting
    the API, and [get_all_heroes] returns the list fetched then.  In the map
    each id holds the last hero of the list with that id. *)
Theorem hero_map_fetched_once :
  forall (all_heroes : E + list HeroBriefInfo) (c : HOKClient)
         (r : E + gmap Z HeroBriefInfo) (c' : HOKClient),
    _get_hero_map heroId all_heroes c = (r, c') ->
    match r with
    | inl e => all_heroes = inl e /\ c' = c
    | inr m =>
        (forall later : E + list HeroBriefInfo,
           _get_hero_map heroId later c' = (inr m, c')
           /\ get_all_heroes heroId later c' = (inr (_hero_list_cache c'), c'))
        /\ (_hero_map_cache c = None ->
            exists heroes,
              all_heroes = inr heroes
              /\ _hero_list_cache c' = Some heroes
              /\ forall k, m !! k = last (filter (fun hero => heroId hero = k) heroes))
    end.
Proof.
  intros all_heroes c r c'. unfold _get_hero_map.
  destruct (_hero_map_cache c) as [m|] eqn:Hcache.
  - intros [= <- <-]. split; [|done]. intros later.
    unfold get_all_heroes, _get_hero_map. by rewrite Hcache.
  - destruct all_heroes as [e|heroes]; intros [= <- <-]; [done|].
    split; [done|]. intros _. exists heroes. split_and!; try done.
    apply hero_map_lookup.
Qed.

(** X24. Rankings are joined to heroes on the hero id.  On a new client,
    [get_rich_hero_rankings] keeps, in their order, exactly the ranking
    entries whose hero is in the hero list, and pairs each with a hero of
    the list that has the entry's id. *)
Theorem rich_rankings_join :
  forall (heroes : list HeroBriefInfo) (raw_rankings : list RankEntry)
         (rich : list (RichRankEntry (HeroBriefInfo := HeroBriefInfo)))
         (c' : HOKClient),
    get_rich_hero_rankings (E := E) heroId rank_heroId
      (inr heroes) (inr raw_rankings) new_client = (inr rich, c') ->
    rank_data <$> rich
      = filter (fun entry => rank_heroId entry ∈ heroId <$> heroes) raw_rankings
    /\ (forall x, x ∈ rich ->
          exists hero, rank_hero_info x = Some hero
                       /\ heroId hero = rank_heroId (rank_data x)
                       /\ hero ∈ heroes)
    /\ _hero_list_cache c' = Some heroes.
Proof.
  intros heroes raw rich c'. unfold get_rich_hero_rankings, _get_hero_map. simpl.
  intros [= <- <-]. split_and!; [| |done].
  - rewrite fmap_fmap_id by done.
    apply list_filter_iff. intros entry. apply hero_map_is_Some.
  - intros x (entry & -> & Hin)%list_elem_of_fmap. simpl.
    apply list_elem_of_filter in Hin as [[hero Hhero] _].
    exists hero. split; [done|]. by apply hero_map_Some in Hhero.
Qed.

Lemma foldl_snoc_fmap {A B} (f : A -> B) (l : list A) (acc : list B) :
  foldl (fun acc x => acc ++ [f x]) acc l = acc ++ (f <$> l).
Proof.
  revert acc. induction l as [|x l IH]; intros acc; simpl.
  - by rewrite app_nil_r.
  - by rewrite IH, <- app_assoc.
Qed.

(** X25. Adjustments and information cards keep every item.  Unlike the
    rankings, [get_rich_seasonal_adjustments] and
    [get_rich_information_cards] return one entry per item, in the order
    received (the cards category after category), and an item whose hero is
    not in the hero list is kept with no hero information; a response
    without data gives the empty list. *)
Theorem rich_items_keep_all :
  forall (heroes : list HeroBriefInfo),
    (forall (items : list AdjustItem),
       exists rich,
         get_rich_seasonal_adjustments (E := E) heroId adjust_heroId
           (inr heroes) (inr (Some items)) new_client
         = (inr rich, snd (_get_hero_map (E := E) heroId (inr heroes) new_client))
         /\ adjust_data <$> rich = items
         /\ forall x, x ∈ rich ->
              (adjust_hero_info x = None <->
               adjust_heroId (adjust_data x) ∉ heroId <$> heroes)
              /\ forall hero, adjust_hero_info x = Some hero ->
                   heroId hero = adjust_heroId (adjust_data x) /\ hero ∈ heroes)
    /\ fst (get_rich_seasonal_adjustments (E := E) heroId adjust_heroId
              (inr heroes) (inr None) new_client) = inr []
    /\ (forall (categories : list (list InformationCard)),
          exists rich,
            get_rich_information_cards (E := E) heroId card_heroId
              (inr heroes) (inr categories) new_client
            = (inr rich, snd (_get_hero_map (E := E) heroId (inr heroes) new_client))
            /\ card_data <$> rich = concat categories
            /\ forall x, x ∈ rich ->
                 (card_hero_info x = None <->
                  card_heroId (card_data x) ∉ heroId <$> heroes)
                 /\ forall hero, card_hero_info x = Some hero ->
                      heroId hero = card_heroId (card_data x) /\ hero ∈ heroes).
Proof.
  intros heroes. split_and!.
  - intros items. eexists. split; [reflexivity|]. split.
    + by rewrite fmap_fmap_id.
    + intros x (item & -> & _)%list_elem_of_fmap. simpl. split.
      * rewrite <- hero_map_is_Some, eq_None_not_Some. done.
      * intros hero Hhero. by apply hero_map_Some in Hhero.
  - done.
  - intros categories. unfold get_rich_information_cards. simpl.
    assert (forall acc : list (RichInformationCard (HeroBriefInfo := HeroBriefInfo)),
      foldl (fun rich_cards cardList =>
               foldl (fun rich_cards card =>
                        rich_cards ++
                          [{| card_data := card;
                              card_hero_info :=
                                hero_map heroId heroes !! card_heroId card |}])
                     rich_cards cardList) acc categories
      = acc ++ ((fun card => {| card_data := card;
                                card_hero_info :=
                                  hero_map heroId heroes !! card_heroId card |})
                <$> concat categories)) as Hfold.
    { induction categories as [|cards categories IH]; intros acc; simpl.
      - by rewrite app_nil_r.
      - rewrite IH, (foldl_snoc_fmap
                       (fun card => {| card_data := card;
                                       card_hero_info :=
                                         hero_map heroId heroes !! card_heroId card |})).
        by rewrite fmap_app, app_assoc. }
    eexists. split; [reflexivity|]. rewrite Hfold. simpl. split.
    + by rewrite fmap_fmap_id.
    + intros x (card & -> & _)%list_elem_of_fmap. simpl. split.
      * rewrite <- hero_map_is_Some, eq_None_not_Some. done.
      * intros hero Hhero. by apply hero_map_Some in Hhero.
Qed.

End joins_more.

Lemma hero_map_fetched_once_witness :
  let run := _get_hero_map (E := unit) (fun hero : Z * string => fst hero)
               (inr [(1, "Arthur"); (2, "Angela"); (1, "Arthur II")]) new_client in
  fst run = inr (<[1 := (1, "Arthur II")]> (<[2 := (2, "Angela")]> ∅))
  /\ _get_hero_map (E := unit) (fun hero : Z * string => fst hero) (inl tt) (snd run)
     = (inr (<[1 := (1, "Arthur II")]> (<[2 := (2, "Angela")]> ∅)), snd run).
Proof.
  intros run.
  assert (Hrun : run = (inr (<[1 := (1, "Arthur II")]> (<[2 := (2, "Angela")]> ∅)),
                        snd run)) by (vm_compute; reflexivity).
  split; [by rewrite Hrun|].
  exact (proj1 (proj1 (hero_map_fetched_once (fun hero : Z * string => fst hero)
                         _ _ _ _ Hrun) (inl tt))).
Defined.

Lemma rich_rankings_join_witness :
  let heroes := [(1, "Arthur"); (2, "Angela")] : list (Z * string) in
  let raw_rankings := [(2, 91); (7, 55); (1, 40)] : list (Z * Z) in
  let run := get_rich_hero_rankings (E := unit) (fun hero : Z * string => fst hero)
               (fun entry : Z * Z => fst entry)
               (inr heroes) (inr raw_rankings) new_client in
  let rich := match fst run with inr rich => rich | inl _ => [] end in
  length rich = 2%nat
  /\ rank_data <$> rich
     = filter (fun entry : Z * Z => fst entry ∈ fst <$> heroes) raw_rankings.
Proof.
  intros heroes raw_rankings run rich.
  assert (Hrun : run = (inr rich, snd run)) by (vm_compute; reflexivity).
  split; [vm_compute; reflexivity|].
  exact (proj1 (rich_rankings_join (fun hero : Z * string => fst hero)
                  (fun entry : Z * Z => fst entry) heroes raw_rankings rich
                  (snd run) Hrun)).
Defined.

End client_more.

(** * Timestamps: which strings become dates *)

Module datetimes_more.

Import hok_api.

Lemma json_nested_ind {D} (P : json D -> Prop) :
  P JNull ->
  (forall b, P (JBool b)) ->
  (forall n, P (JNumber n)) ->
  (forall s, P (JString s)) ->
  (forall dt, P (JDatetime dt)) ->
  (forall items, Forall P items -> P (JList items)) ->
  (forall items, Forall (fun item => P (snd item)) items -> P (JDict items)) ->
  forall d, P d.
Proof.
  intros Hnull Hbool Hnum Hstr Hdt Hlist Hdict.
  fix IH 1. intros [| b | n | s | dt | items | items].
  - exact Hnull.
  - apply Hbool.
  - apply Hnum.
  - apply Hstr.
  - apply Hdt.
  - apply Hlist. revert items. fix IHl 1. intros [|x items]; constructor.
    + apply IH.
    + apply IHl.
  - apply Hdict. revert items. fix IHl 1. intros [|[k v] items]; constructor.
    + apply IH.
    + apply IHl.
Qed.

Lemma prefix_spec (k s : string) :
  String.prefix k s = true <-> exists b, s = k +:+ b.
Proof.
  revert s. induction k as [|c k IH]; intros s.
  - split; [intros _; by exists s | intros _; by destruct s].
  - destruct s as [|c' s]; simpl.
    + split; [done | intros [b Hb]; discriminate].
    + destruct (Ascii.ascii_dec c c') as [->|Hne].
      * rewrite IH. split; intros [b Hb]; exists b.
        -- by rewrite Hb.
        -- by injection Hb.
      * split; [done|]. intros [b Hb]. injection Hb as -> _. done.
Qed.

Lemma is_substring_spec (k s : string) :
  is_substring k s = true <-> exists a b, s = a +:+ k +:+ b.
Proof.
  induction s as [|c s IH]; cbn [is_substring]; rewrite orb_true_iff, prefix_spec.
  - split.
    + intros [[b Hb]|Hf]; [|done]. by exists EmptyString, b.
    + intros (a & b & Hab). left. destruct a; [by exists b|discriminate].
  - rewrite IH. split.
    + intros [[b Hb]|(a & b & Hab)].
      * by exists EmptyString, b.
      * exists (String c a), b. by rewrite Hab.
    + intros (a & b & Hab). destruct a as [|c' a].
      * left. by exists b.
      * right. injection Hab as _ Hab. by exists a, b.
Qed.

Section passes.

Context {D : Type}.
Variable fromisoformat : string -> option D.
Variable wanted : string -> bool.

Lemma parse_keeps_skeleton (d : json D) :
  skeleton (parse_datetimes_in_dict fromisoformat wanted d) = skeleton d.
Proof.
  induction d as [| b | n | s | dt | items IH | items IH] using json_nested_ind;
    try done; cbn [parse_datetimes_in_dict skeleton]; f_equal;
    rewrite List.map_map; apply List.map_ext_in; rewrite Forall_forall in IH.
  - intros x Hx. apply IH. by apply list_elem_of_In.
  - intros [k v] Hx. specialize (IH (k, v) (proj2 (list_elem_of_In _ _) Hx)).
    cbn [snd] in IH. destruct v; try (cbn [fst snd]; by rewrite IH).
    simpl. destruct (wanted k); [|done]. destruct s; [done|].
    by destruct (_parse_datetime_str _ _).
Qed.

Lemma parse_idempotent (d : json D) :
  parse_datetimes_in_dict fromisoformat wanted
    (parse_datetimes_in_dict fromisoformat wanted d)
  = parse_datetimes_in_dict fromisoformat wanted d.
Proof.
  induction d as [| b | n | s | dt | items IH | items IH] using json_nested_ind;
    try done; cbn [parse_datetimes_in_dict]; f_equal;
    rewrite List.map_map; apply List.map_ext_in; rewrite Forall_forall in IH.
  - intros x Hx. apply IH. by apply list_elem_of_In.
  - intros [k v] Hx. specialize (IH (k, v) (proj2 (list_elem_of_In _ _) Hx)).
    cbn [snd] in IH. destruct v; try (by rewrite IH).
    destruct (wanted k) eqn:Hw; [|by rewrite Hw]. destruct s; [by rewrite Hw|].
    destruct (_parse_datetime_str _ _) eqn:Hp; [done|]. by rewrite Hw, Hp.
Qed.

(** A string found under a key after the pass was there before, and if the
    key is wanted it is the document itself, empty, or not a date. *)
Lemma remaining_strings (d : json D) :
  forall key k s,
    (Some k, s) ∈ strings_at key (parse_datetimes_in_dict fromisoformat wanted d) ->
    (Some k, s) ∈ strings_at key d
    /\ (wanted k = true ->
        d = JString s \/ s = EmptyString
        \/ _parse_datetime_str fromisoformat s = None).
Proof.
  induction d as [| b | n | s0 | dt | items IH | items IH] using json_nested_ind;
    intros key k s Hin; try (by apply elem_of_nil in Hin).
  - simpl in Hin. apply list_elem_of_singleton in Hin as [= -> ->].
    split; [by apply list_elem_of_singleton|]. by left.
  - cbn [parse_datetimes_in_dict strings_at] in *.
    apply list_elem_of_In, in_flat_map in Hin as (y & Hy & Hin).
    apply in_map_iff in Hy as (x & <- & Hx).
    rewrite Forall_forall in IH.
    apply list_elem_of_In in Hin.
    destruct (IH x (proj2 (list_elem_of_In _ _) Hx) None k s Hin) as [Hold Hw].
    split.
    + apply list_elem_of_In, in_flat_map. exists x. split; [done|].
      by apply list_elem_of_In.
    + intros Hk. destruct (Hw Hk) as [->|Hrest]; [|by right].
      simpl in Hold. by apply list_elem_of_singleton in Hold.
  - cbn [parse_datetimes_in_dict strings_at] in *.
    apply list_elem_of_In, in_flat_map in Hin as (y & Hy & Hin).
    apply in_map_iff in Hy as ([k' v] & <- & Hx).
    rewrite Forall_forall in IH.
    specialize (IH (k', v) (proj2 (list_elem_of_In _ _) Hx) (Some k') k s).
    cbn [fst snd] in *.
    assert ((Some k, s) ∈ strings_at (Some k') v
            /\ (wanted k = true ->
                s = EmptyString \/ _parse_datetime_str fromisoformat s = None))
      as [Hold Hwanted].
    { destruct v as [| b | n | s0 | dt | l | l].
      1-3, 5: by (simpl in Hin; destruct Hin).
      - destruct (wanted k') eqn:Hw; [destruct s0 as [|c s0]|].
        + simpl in Hin. destruct Hin as [[= <- <-]|[]].
          split; [by apply list_elem_of_singleton|]. by left.
        + destruct (_parse_datetime_str fromisoformat (String c s0)) eqn:Hp;
            simpl in Hin; [done|]. destruct Hin as [[= <- <-]|[]].
          split; [by apply list_elem_of_singleton|]. by right.
        + simpl in Hin. destruct Hin as [[= <- <-]|[]].
          split; [by apply list_elem_of_singleton|]. congruence.
      - cbn [fst snd] in Hin. apply list_elem_of_In in Hin.
        destruct (IH Hin) as [Hold Hw]. split; [done|].
        intros Hk. by destruct (Hw Hk) as [?|?].
      - cbn [fst snd] in Hin. apply list_elem_of_In in Hin.
        destruct (IH Hin) as [Hold Hw]. split; [done|].
        intros Hk. by destruct (Hw Hk) as [?|?]. }
    split; [|by auto].
    apply list_elem_of_In, in_flat_map. exists (k', v). split; [done|].
    by apply list_elem_of_In.
Qed.


End passes.

(** X27. Which keys are converted.  In [get_information_cards] the test
    [k in ('updateTime')] is a test on strings: it accepts exactly the keys
    that occur inside the text [updateTime] (the empty key, [Time], [date],
    ...).  In [get_hero_reviews] the test is membership in a tuple and
    accepts exactly the three names; the only key on which both agree
    is [updateTime]. *)
Theorem converted_keys :
  forall k : string,
    (information_card_key k = true <-> exists a b, "updateTime" = a +:+ k +:+ b)
    /\ (review_key k = true <->
        k = "createTime" \/ k = "updateTime" \/ k = "publishTime")
    /\ (review_key k = true -> information_card_key k = true -> k = "updateTime").
Proof.
  intros k.
  assert (review_key k = true <->
          k = "createTime" \/ k = "updateTime" \/ k = "publishTime") as Hreview.
  { unfold review_key. rewrite bool_decide_eq_true, !elem_of_cons, elem_of_nil.
    tauto. }
  split; [apply is_substring_spec|]. split; [exact Hreview|].
  intros Hr Hc. apply Hreview in Hr. destruct Hr as [-> | [-> | ->]];
    [discriminate|done|discriminate].
Qed.

End datetimes_more.
